(** * Decoding engine of [algorithms/lm_fused_rnn.py]

    A shallow embedding of the beam-search decoders of [Seq2SeqLMFusion]
    ([basenet_inference], [shallow_fuse_inference], [deep_fuse_inference]),
    of the LM replay [lm_heuristics], and of the attention step and the two
    state-extraction paths of [Decoder].

    Conventions.
    - A token is a Python integer id, modelled as [Z]; a token sequence (a
      one-dimensional tensor of ids) is a [list Token].
    - [beam_width] and [max_tgt_sz] are Python integers ([Z]): nothing in
      the source restricts their sign.
    - Python exceptions are values of [PyError]; a computation that may raise
      and that calls the networks lives in the monad [M], which returns a
      result or an exception together with the log of network calls made.
    - The trained networks are opaque: they are Section variables.  The beam
      search only adds and compares scores, so it is stated over an arbitrary
      score type; the attention step and the LM replay, which need [exp] and
      division, are stated over the real numbers. *)

From Stdlib Require Import List ZArith Lia Bool Permutation Sorted.
From Stdlib Require Import Reals Lra.
Import ListNotations.

Set Implicit Arguments.

(** ** Exceptions and the call-logging monad *)

Inductive PyError : Type :=
| IndexError
| RuntimeError
| ZeroDivisionError
| AssertionError
| AttributeError
| Exception_.

Inductive Res (A : Type) : Type :=
| Ok (a : A)
| Raise (e : PyError).

Arguments Ok {A} a.
Arguments Raise {A} e.

(** [M L A]: the outcome of a computation and the calls (of type [L]) it
    made, in order.  An exception keeps the calls made before it. *)
Definition M (L A : Type) : Type := (Res A * list L)%type.

Definition ret {L A : Type} (a : A) : M L A := (Ok a, []).

Definition raise {L A : Type} (e : PyError) : M L A := (Raise e, []).

Definition bind {L A B : Type} (m : M L A) (f : A -> M L B) : M L B :=
  match fst m with
  | Ok a => (fst (f a), snd m ++ snd (f a))
  | Raise e => (Raise e, snd m)
  end.

Definition lift {L A : Type} (r : Res A) : M L A := (r, []).

Definition tell {L A : Type} (c : L) (r : Res A) : M L A := (r, [c]).

Declare Scope py_scope.
Delimit Scope py_scope with py.
Notation "x <- m ;; k" := (bind m (fun x => k))
  (at level 61, m at next level, right associativity) : py_scope.
Notation "' p <- m ;; k" := (bind m (fun x => let p := x in k))
  (at level 61, p pattern, m at next level, right associativity) : py_scope.
Local Open Scope py_scope.

(** ** Tokens and sequences *)

Definition Token : Type := Z.

(** [src[0]]: raises on an empty tensor. *)
Definition first_tok (src : list Token) : Res Token :=
  match src with
  | [] => Raise IndexError
  | t :: _ => Ok t
  end.

(** [src[-1]]: raises on an empty tensor. *)
Definition last_tok (src : list Token) : Res Token :=
  match src with
  | [] => Raise IndexError
  | t :: rest => Ok (last rest t)
  end.

(** [p_tup[1][-1] == end_tok].  A hypothesis sequence is never empty (it
    starts as [[start_tok]] and only grows), so the empty case never runs. *)
Definition ends_with (seq : list Token) (end_tok : Token) : bool :=
  match last_tok seq with
  | Ok t => Z.eqb t end_tok
  | Raise _ => false
  end.

(** [l[:n]] for a Python integer [n]: a negative [n] counts from the end. *)
Definition slice_to {A : Type} (l : list A) (n : Z) : list A :=
  if (0 <=? n)%Z then firstn (Z.to_nat n) l
  else firstn (length l - Z.to_nat (- n)) l.

(** ** Stable descending sort

    [l.sort(key = k, reverse = True)]: Python's sort is stable, and with
    [reverse = True] elements with equal keys keep their original order.
    For keys compared by a total preorder [leb] the outcome is the one of
    this insertion sort: an element goes before the first element whose key
    is not above its own. *)

Section Sort.
Variables (A K : Type).
Variable key : A -> K.
Variable leb : K -> K -> bool.

Fixpoint insert_desc (x : A) (l : list A) : list A :=
  match l with
  | [] => [x]
  | y :: l' =>
      if leb (key y) (key x) then x :: y :: l'
      else y :: insert_desc x l'
  end.

Fixpoint sort_desc (l : list A) : list A :=
  match l with
  | [] => []
  | x :: l' => insert_desc x (sort_desc l')
  end.

(** [a] may stand before [b] in a list sorted in descending key order. *)
Definition desc (a b : A) : Prop := leb (key b) (key a) = true.

(** The key of [a] ties with [k]: neither is below the other. *)
Definition tie (k : K) (a : A) : bool := leb k (key a) && leb (key a) k.
End Sort.

(** ** The beam search *)

Section Search.
(** Scores: 0-dimensional float tensors, of which the search uses [0],
    [+] and the comparison of the sort. *)
Variable Score : Type.
Variable s_zero : Score.
Variable s_add : Score -> Score -> Score.
Variable s_leb : Score -> Score -> bool.

(** The trained networks.  [DecState] and [LmState] are the recurrent
    states ([dec_hidden], [lm_hidden]); [EncOut] is [enc_output]; [Vec] is a
    hidden vector. *)
Variables DecState LmState EncOut Vec : Type.

(** [self.encoder(src_, src_sz)]: returns [enc_output, enc_hidden]. *)
Variable encoder : list Token -> EncOut * DecState.
Variable pass_enc2dec_hid : bool.

(** [self.decoder(x, hidden, enc_output)] ([Decoder.forward], the attention
    weights dropped) and [self.decoder.get_hidden]. *)
Variable decoder :
  Token -> option DecState -> EncOut -> Res (list Score * DecState).
Variable decoder_get_hidden :
  Token -> option DecState -> EncOut -> DecState.

(** The language model, when one is configured. *)
Record LMDecoder : Type := {
  decoding : Token -> option LmState -> list Score * LmState;
  get_hidden : Token -> option LmState -> LmState
}.
Variable lm_decoder : option LMDecoder.

(** The deep-fusion layers, present when [for_deep_fusion] is set:
    [lm_ctrl] and [dffc]. *)
Record DeepFusion : Type := {
  lm_ctrl : Vec -> Vec;
  dffc : Vec -> list Score
}.
Variable deep_fusion : option DeepFusion.
(** [h[0][-1]], the elementwise product and [torch.cat]. *)
Variable dec_last_hidden : DecState -> Vec.
Variable lm_last_hidden : LmState -> Vec.
Variable vec_mul : Vec -> Vec -> Vec.
Variable vec_cat : Vec -> Vec -> Vec.

(** [nn.functional.log_softmax(_, dim=1)] on a row of logits. *)
Variable log_softmax : list Score -> list Score.

(** The network calls a decode makes, in order. *)
Inductive Call : Type :=
| EncoderCall (src : list Token)
| DecoderCall (x : Token) (hidden : option DecState)
| DecoderHiddenCall (x : Token) (hidden : option DecState)
| LmCall (x : Token) (hidden : option LmState)
| LmHiddenCall (x : Token) (hidden : option LmState).

Definition Py (A : Type) : Type := M Call A.

(** [torch.topk(row, k, dim=1)]: the [k] largest entries, largest first,
    as (value, index) pairs; it raises when [k] is negative or exceeds the
    row length.  Among equal values torch leaves the order unspecified; the
    model takes the lower index first. *)
Definition indexed (row : list Score) : list (Score * Token) :=
  combine row (map Z.of_nat (seq 0 (length row))).

Definition topk (row : list Score) (k : Z) : Res (list (Score * Token)) :=
  if ((k <? 0) || (Z.of_nat (length row) <? k))%Z then Raise RuntimeError
  else Ok (firstn (Z.to_nat k) (sort_desc fst s_leb (indexed row))).

(** [a + b] on two rows, with torch broadcasting of a one-element row. *)
Definition row_add (a b : list Score) : Res (list Score) :=
  match a, b with
  | [x], _ => Ok (map (s_add x) b)
  | _, [y] => Ok (map (fun x => s_add x y) a)
  | _, _ =>
      if Nat.eqb (length a) (length b)
      then Ok (map (fun p => s_add (fst p) (snd p)) (combine a b))
      else Raise RuntimeError
  end.

(** A beam entry [p_tup]: [p_tup[0]] the summed log-softmax, [p_tup[1]]
    the sequence, and the recurrent state(s) that follow. *)
Record PTup (St : Type) : Type := {
  score : Score;
  sequence : list Token;
  state : St
}.

Section Loop.
Variable St : Type.
Variable beam_width : Z.
Variable end_tok : Token.
(** The body run for a hypothesis that does not end in [end_tok]: the
    candidates it appends to [cur_pred_list]. *)
Variable expand : PTup St -> Py (list (PTup St)).

(** [for p_tup in top_pred_list: ...], threading [cur_pred_list]. *)
Fixpoint collect (top : list (PTup St)) (cur : list (PTup St))
  : Py (list (PTup St)) :=
  match top with
  | [] => ret cur
  | p_tup :: rest =>
      if ends_with (sequence p_tup) end_tok
      then collect rest (cur ++ [p_tup])
      else new <- expand p_tup ;; collect rest (cur ++ new)
  end.

(** [cur_pred_list.sort(key=_avg_score, reverse=True)] followed by
    [cur_pred_list[:beam_width]]. *)
Definition prune (cur : list (PTup St)) : list (PTup St) :=
  slice_to (sort_desc (@score St) s_leb cur) beam_width.

(** [sum(end_flags_)]. *)
Definition end_count (top : list (PTup St)) : Z :=
  fold_right Z.add 0%Z
    (map (fun t => if ends_with (sequence t) end_tok then 1%Z else 0%Z)
       top).

(** One iteration of [for t in range(max_tgt_sz)]: the new beam and
    whether the loop breaks. *)
Definition step (top : list (PTup St)) : Py (list (PTup St) * bool) :=
  cur <- collect top [] ;;
  let top' := prune cur in
  ret (top', Z.eqb beam_width (end_count top')).

(** [for t in range(max_tgt_sz): ...] with [n] iterations left. *)
Fixpoint search (n : nat) (top : list (PTup St)) : Py (list (PTup St)) :=
  match n with
  | O => ret top
  | S n' =>
      r <- step top ;;
      if snd r then ret (fst r) else search n' (fst r)
  end.
End Loop.

(** The topk expansion shared by the three decoders:
    [for i in range(beam_width): cur_pred_list.append((p_tup[0] +
    values[0][i], cat(p_tup[1], indices[0][i]), ...))].  [topk] returns
    exactly [beam_width] entries, which [range(beam_width)] enumerates. *)
Definition extend (St : Type) (p_tup : PTup St)
    (pred_topk : list (Score * Token)) (st : St) : list (PTup St) :=
  map (fun vi =>
         {| score := s_add (score p_tup) (fst vi);
            sequence := sequence p_tup ++ [snd vi];
            state := st |})
      pred_topk.

(** [init_dec_hidden]. *)
Definition init_hidden (enc_hidden : DecState) : option DecState :=
  if pass_enc2dec_hid then Some enc_hidden else None.

(** *** [basenet_inference] *)

Definition call_decoder (x : Token) (hidden : option DecState)
    (enc_output : EncOut) : Py (list Score * DecState) :=
  tell (DecoderCall x hidden) (decoder x hidden enc_output).

(** [p_tup[1][-1]], the token fed to the networks.  The sequence of a beam
    entry is never empty, so the default is never used. *)
Definition x_of (St : Type) (p_tup : PTup St) : Token :=
  match last_tok (sequence p_tup) with
  | Ok t => t
  | Raise _ => 0%Z
  end.

Definition basenet_expand (beam_width : Z) (enc_output : EncOut)
    (p_tup : PTup (option DecState)) : Py (list (PTup (option DecState))) :=
  out <- call_decoder (x_of p_tup) (state p_tup) enc_output ;;
  let dec_output := log_softmax (fst out) in
  pred_topk <- lift (topk dec_output beam_width) ;;
  ret (extend p_tup pred_topk (Some (snd out))).

(** What the call returns: the sequences, or the whole tuples when
    [heuristics] is set. *)
Inductive Decoded : Type :=
| Sequences (pred_tnsr_list : list (list Token))
| Tuples (top_pred_list : list (PTup (option DecState))).

Definition basenet_inference (src : list Token) (beam_width max_tgt_sz : Z)
    (heuristics : bool) : Py Decoded :=
  start_tok <- lift (first_tok src) ;;
  end_tok <- lift (last_tok src) ;;
  enc <- tell (EncoderCall src) (Ok (encoder src)) ;;
  let enc_output := fst enc in
  let init_dec_hidden := init_hidden (snd enc) in
  top_pred_list <-
    search beam_width end_tok (basenet_expand beam_width enc_output)
      (Z.to_nat max_tgt_sz)
      [ {| score := s_zero; sequence := [start_tok];
           state := init_dec_hidden |} ] ;;
  if heuristics then ret (Tuples top_pred_list)
  else ret (Sequences (map (@sequence _) top_pred_list)).

(** *** [shallow_fuse_inference] *)

Definition FState : Type := (option DecState * option LmState)%type.

Definition shallow_expand (lm : LMDecoder) (beam_width : Z)
    (enc_output : EncOut) (p_tup : PTup FState) : Py (list (PTup FState)) :=
  out <- call_decoder (x_of p_tup) (fst (state p_tup)) enc_output ;;
  lm_out <- tell (LmCall (x_of p_tup) (snd (state p_tup)))
              (Ok (decoding lm (x_of p_tup) (snd (state p_tup)))) ;;
  let dec_output := log_softmax (fst out) in
  let lm_output := log_softmax (fst lm_out) in
  shl_output <- lift (row_add dec_output lm_output) ;;
  pred_topk <- lift (topk shl_output beam_width) ;;
  ret (extend p_tup pred_topk (Some (snd out), Some (snd lm_out))).

Definition shallow_fuse_inference (src : list Token)
    (beam_width max_tgt_sz : Z) : Py (list (list Token)) :=
  match lm_decoder with
  | None => raise AssertionError
  | Some lm =>
      start_tok <- lift (first_tok src) ;;
      end_tok <- lift (last_tok src) ;;
      enc <- tell (EncoderCall src) (Ok (encoder src)) ;;
      let enc_output := fst enc in
      let init_dec_hidden := init_hidden (snd enc) in
      top_pred_list <-
        search beam_width end_tok (shallow_expand lm beam_width enc_output)
          (Z.to_nat max_tgt_sz)
          [ {| score := s_zero; sequence := [start_tok];
               state := (init_dec_hidden, None) |} ] ;;
      ret (map (@sequence _) top_pred_list)
  end.

(** The fused score of a token as the specification words it:
    [log_softmax(decoder_logits)[token] + log_softmax(lm_logits)[token]],
    defined for a token that is an id of both rows. *)
Definition spec_shallow_score (decoder_logits lm_logits : list Score)
    (tok : Token) : option Score :=
  if (tok <? 0)%Z then None
  else
    match nth_error (log_softmax decoder_logits) (Z.to_nat tok),
          nth_error (log_softmax lm_logits) (Z.to_nat tok) with
    | Some d, Some l => Some (s_add d l)
    | _, _ => None
    end.

(** *** [deep_fuse_inference] *)

Definition deep_expand (beam_width : Z) (enc_output : EncOut)
    (p_tup : PTup FState) : Py (list (PTup FState)) :=
  dec_hidden <- tell (DecoderHiddenCall (x_of p_tup) (fst (state p_tup)))
                  (Ok (decoder_get_hidden (x_of p_tup) (fst (state p_tup))
                         enc_output)) ;;
  lm <- lift (match lm_decoder with
              | Some lm => Ok lm
              | None => Raise AttributeError
              end) ;;
  lm_hidden <- tell (LmHiddenCall (x_of p_tup) (snd (state p_tup)))
                 (Ok (get_hidden lm (x_of p_tup) (snd (state p_tup)))) ;;
  df <- lift (match deep_fusion with
              | Some df => Ok df
              | None => Raise AttributeError
              end) ;;
  let lm_gated_hidden :=
    vec_mul (lm_ctrl df (lm_last_hidden lm_hidden))
      (lm_last_hidden lm_hidden) in
  let fused_hidden := vec_cat (dec_last_hidden dec_hidden) lm_gated_hidden in
  let fused_output := log_softmax (dffc df fused_hidden) in
  pred_topk <- lift (topk fused_output beam_width) ;;
  ret (extend p_tup pred_topk (Some dec_hidden, Some lm_hidden)).

Definition deep_fuse_inference (src : list Token)
    (beam_width max_tgt_sz : Z) : Py (list (list Token)) :=
  start_tok <- lift (first_tok src) ;;
  end_tok <- lift (last_tok src) ;;
  enc <- tell (EncoderCall src) (Ok (encoder src)) ;;
  let enc_output := fst enc in
  let init_dec_hidden := init_hidden (snd enc) in
  top_pred_list <-
    search beam_width end_tok (deep_expand beam_width enc_output)
      (Z.to_nat max_tgt_sz)
      [ {| score := s_zero; sequence := [start_tok];
           state := (init_dec_hidden, None) |} ] ;;
  ret (map (@sequence _) top_pred_list).

End Search.

Arguments EncoderCall {DecState LmState} src.
Arguments DecoderCall {DecState LmState} x hidden.
Arguments DecoderHiddenCall {DecState LmState} x hidden.
Arguments LmCall {DecState LmState} x hidden.
Arguments LmHiddenCall {DecState LmState} x hidden.
Arguments Sequences {Score DecState} pred_tnsr_list.
Arguments Tuples {Score DecState} top_pred_list.

(** ** Counting the network calls of a decode

    The calls of the log, by the network they go to: the encoder, the
    decoder ([forward] or [get_hidden]) and the language model ([decoding]
    or [get_hidden]). *)

Definition is_encoder_call {DecState LmState : Type}
    (c : Call DecState LmState) : bool :=
  match c with
  | EncoderCall _ => true
  | _ => false
  end.

Definition is_decoder_call {DecState LmState : Type}
    (c : Call DecState LmState) : bool :=
  match c with
  | DecoderCall _ _ | DecoderHiddenCall _ _ => true
  | _ => false
  end.

Definition is_lm_call {DecState LmState : Type}
    (c : Call DecState LmState) : bool :=
  match c with
  | LmCall _ _ | LmHiddenCall _ _ => true
  | _ => false
  end.

Definition count_calls {L : Type} (f : L -> bool) (log : list L) : nat :=
  length (filter f log).

(** ** A small deterministic network, used to run the decoders

    Vocabulary [{0 (Start), 1, 2, 3 (End)}].  Scores are integers:
    log-probabilities counted in bits.  Every row the networks return is the
    base-2 logarithm of a distribution (such as 1/8, 1/2, 1/4, 1/8), on
    which the log-softmax is the identity; the unit changes neither sums nor
    comparisons.  A recurrent state counts the steps taken. *)

Module Toy.
Definition encoder (src : list Token) : list Token * nat := (src, 0%nat).

Definition next_state (hidden : option nat) : nat :=
  match hidden with
  | None => 1%nat
  | Some n => S n
  end.

(** The decoder prefers End after token 1, and token 1 otherwise. *)
Definition decoder (x : Token) (hidden : option nat) (enc : list Token)
    : Res (list Z * nat) :=
  Ok (if Z.eqb x 1 then [-3; -3; -2; -1]%Z else [-3; -1; -2; -3]%Z,
      next_state hidden).

Definition decoder_get_hidden (x : Token) (hidden : option nat)
    (enc : list Token) : nat := next_state hidden.

(** A uniform language model. *)
Definition lm : LMDecoder Z nat :=
  {| decoding := fun x hidden => ([-2; -2; -2; -2]%Z, next_state hidden);
     get_hidden := fun x hidden => next_state hidden |}.

(** Fusion layers that prefer End once the fused hidden value reaches 4. *)
Definition deep : DeepFusion Z Z :=
  {| lm_ctrl := fun v => 1%Z;
     dffc := fun v => if (4 <=? v)%Z then [-3; -3; -2; -1]%Z
                      else [-3; -1; -2; -3]%Z |}.

(** The log-softmax in bits, on rows that are already normalised. *)
Definition log_softmax (row : list Z) : list Z := row.

Definition basenet (src : list Token) (beam_width max_tgt_sz : Z)
    (heuristics : bool) :=
  basenet_inference 0%Z Z.add Z.leb nat encoder true decoder log_softmax
    src beam_width max_tgt_sz heuristics.

Definition shallow (src : list Token) (beam_width max_tgt_sz : Z) :=
  shallow_fuse_inference 0%Z Z.add Z.leb encoder true decoder (Some lm)
    log_softmax src beam_width max_tgt_sz.

Definition deep_fuse (src : list Token) (beam_width max_tgt_sz : Z) :=
  deep_fuse_inference 0%Z Z.add Z.leb encoder true decoder_get_hidden
    (Some lm) (Some deep) Z.of_nat Z.of_nat Z.mul Z.add log_softmax
    src beam_width max_tgt_sz.

(** One step of each decoder on the encoder output [[0; 1; 2; 3]]. *)
Definition enc_output : list Token := [0; 1; 2; 3]%Z.

Definition basenet_step (beam_width : Z) (end_tok : Token)
    (top : list (PTup Z (option nat))) :=
  step Z.leb beam_width end_tok
    (basenet_expand Z.add Z.leb nat decoder log_softmax beam_width enc_output)
    top.

Definition shallow_step (beam_width : Z) (end_tok : Token)
    (top : list (PTup Z (FState nat nat))) :=
  step Z.leb beam_width end_tok
    (shallow_expand Z.add Z.leb decoder log_softmax lm beam_width enc_output)
    top.

Definition deep_step (beam_width : Z) (end_tok : Token)
    (top : list (PTup Z (FState nat nat))) :=
  step Z.leb beam_width end_tok
    (deep_expand Z.add Z.leb decoder_get_hidden (Some lm) (Some deep)
       Z.of_nat Z.of_nat Z.mul Z.add log_softmax beam_width enc_output)
    top.

(** A beam with one terminated and one live hypothesis; the best
    continuation of the live one ties with the terminated one. *)
Definition beam : list (PTup Z (option nat)) :=
  [ {| score := (-2)%Z; sequence := [0; 1; 3]%Z; state := Some 2%nat |};
    {| score := (-1)%Z; sequence := [0; 2]%Z; state := Some 1%nat |} ].

Definition fused_beam : list (PTup Z (FState nat nat)) :=
  [ {| score := (-6)%Z; sequence := [0; 1; 3]%Z;
       state := (Some 2%nat, Some 2%nat) |};
    {| score := (-6)%Z; sequence := [0; 2]%Z;
       state := (Some 1%nat, Some 1%nat) |} ].
End Toy.


(** ** Real-valued tensors

    The attention step and the LM replay need [exp], [tanh] and division;
    they are modelled over the real numbers (the idealisation of the float
    tensors), for a batch of one: the batch axis is dropped, a tensor of
    shape (rows, 1, dim) is a list of rows. *)

Local Open Scope R_scope.

Definition Vector : Type := list R.

Definition rsum (v : Vector) : R := fold_right Rplus 0 v.

Definition vadd (a b : Vector) : Vector :=
  map (fun p => fst p + snd p) (combine a b).

Definition vscale (w : R) (v : Vector) : Vector := map (Rmult w) v.

Definition dot (a b : Vector) : R :=
  rsum (map (fun p => fst p * snd p) (combine a b)).

(** [torch.sum(t, axis=0)] of a tensor of shape (rows, dim). *)
Definition sum_axis0 (dim : nat) (rows : list Vector) : Vector :=
  fold_right vadd (repeat 0 dim) rows.

(** [torch.softmax] along the axis the list runs over. *)
Definition softmax (logits : list R) : list R :=
  map (fun x => exp x / rsum (map exp logits)) logits.

(** [nn.functional.log_softmax] on a row. *)
Definition log_softmax (row : list R) : list R :=
  map (fun x => x - ln (rsum (map exp row))) row.

(** [nn.Linear]: [y = W x + b], one row of [weight] per output. *)
Record Linear : Type := {
  weight : list Vector;
  bias : Vector
}.

Definition linear (l : Linear) (x : Vector) : Vector :=
  map (fun wb => dot (fst wb) x + snd wb) (combine (weight l) (bias l)).

(** The single output of a layer with [out_features = 1]. *)
Definition linear1 (l : Linear) (x : Vector) : R := hd 0 (linear l x).

(** ** [Decoder] *)

Inductive RnnType : Type := GRU | LSTM.

(** A recurrent state: one tensor indexed by layer for a GRU, the pair
    [(h_n, c_n)] for an LSTM. *)
Inductive Hidden : Type :=
| Single (h : list Vector)
| Pair (h_n c_n : list Vector).

Record Decoder : Type := {
  dec_rnn_type : RnnType;
  dec_layers : nat;
  dec_hidden_dim : nat;
  enc_outstate_dim : nat;
  use_attention : bool;
  embedding : Token -> Vector;
  W1 : Linear;
  W2 : Linear;
  V : Linear;
  (** [nn.GRU] / [nn.LSTM] on one input vector: output and new state. *)
  dec_rnn : Vector -> option Hidden -> Vector * Hidden;
  fc : Vector -> Vector
}.

Section DecoderStep.
Variable self : Decoder.

(** [Decoder.attention]: returns [attend_out, attention_weights]. *)
Definition attention (x : Vector) (hidden : list Vector)
    (enc_output : list Vector) : Vector * list R :=
  let hidden_with_time_axis := sum_axis0 (dec_hidden_dim self) hidden in
  let score :=
    map (fun enc_i =>
           map tanh (vadd (linear (W1 self) enc_i)
                          (linear (W2 self) hidden_with_time_axis)))
        enc_output in
  let attention_weights := softmax (map (linear1 (V self)) score) in
  let context_vector :=
    sum_axis0 (enc_outstate_dim self)
      (map (fun we => vscale (fst we) (snd we))
         (combine attention_weights enc_output)) in
  (context_vector ++ x, attention_weights).

(** [torch.zeros((dec_layers, 1, dec_hidden_dim))]. *)
Definition zero_hidden : list Vector :=
  repeat (repeat 0 (dec_hidden_dim self)) (dec_layers self).

(** [hid_for_att] of [forward]: [hidden[1]] for an LSTM.  A state that is
    not of the cell's kind (the docstring gives [(h_n, c_n)] for an LSTM
    and one tensor otherwise) makes the call raise. *)
Definition hid_for_att_forward (hidden : option Hidden)
    : Res (list Vector) :=
  match hidden with
  | None => Ok zero_hidden
  | Some s =>
      match dec_rnn_type self, s with
      | LSTM, Pair h_n c_n => Ok c_n
      | GRU, Single h => Ok h
      | _, _ => Raise RuntimeError
      end
  end.

(** [hid_for_att] of [get_hidden]: [hidden[0]] for an LSTM. *)
Definition hid_for_att_get_hidden (hidden : option Hidden)
    : Res (list Vector) :=
  match hidden with
  | None => Ok zero_hidden
  | Some s =>
      match dec_rnn_type self, s with
      | LSTM, Pair h_n c_n => Ok h_n
      | GRU, Single h => Ok h
      | _, _ => Raise RuntimeError
      end
  end.

Definition is_None (A : Type) (o : option A) : bool :=
  match o with
  | None => true
  | Some _ => false
  end.

(** [Decoder.forward]: returns [output, hidden, aw]; [aw] is [None] for
    the integer [0] the source leaves there without attention. *)
Definition forward (x : Token) (hidden : option Hidden)
    (enc_output : list Vector)
    : Res (Vector * Hidden * option (list R)) :=
  if is_None hidden && negb (use_attention self) then Raise Exception_
  else
    match hid_for_att_forward hidden with
    | Raise e => Raise e
    | Ok hid_for_att =>
        let x := embedding self x in
        let xa :=
          if use_attention self
          then (fst (attention x hid_for_att enc_output),
                Some (snd (attention x hid_for_att enc_output)))
          else (x, None) in
        let oh := dec_rnn self (fst xa) hidden in
        let output := fc self (fst oh) in
        Ok (output, snd oh, snd xa)
    end.

(** [Decoder.get_hidden]: returns the new state only. *)
Definition decoder_get_hidden (x : Token) (hidden : option Hidden)
    (enc_output : list Vector) : Res Hidden :=
  match hid_for_att_get_hidden hidden with
  | Raise e => Raise e
  | Ok hid_for_att =>
      let x := embedding self x in
      let xa :=
        if use_attention self
        then (fst (attention x hid_for_att enc_output),
              Some (snd (attention x hid_for_att enc_output)))
        else (x, None) in
      let oh := dec_rnn self (fst xa) hidden in
      Ok (snd oh)
  end.
End DecoderStep.

(** ** The attention step as the specification words it

    The state is collapsed to one vector by summing across its layers;
    [score_i = tanh(W1 enc_i + W2 hidden_summed)], a scalar per position
    through [V], a softmax over the positions, and the context as the sum
    of the encoder outputs weighted by it. *)

Definition spec_hidden_summed (dim : nat) (hidden : list Vector) : Vector :=
  map (fun j => rsum (map (fun layer => nth j layer 0) hidden)) (seq 0 dim).

Definition spec_position_score (self : Decoder)
    (hidden_summed enc_i : Vector) : R :=
  linear1 (V self)
    (map tanh (vadd (linear (W1 self) enc_i)
                    (linear (W2 self) hidden_summed))).

Definition spec_attention_weights (self : Decoder) (hidden_summed : Vector)
    (enc_output : list Vector) : list R :=
  let scores := map (spec_position_score self hidden_summed) enc_output in
  map (fun s => exp s / rsum (map exp scores)) scores.

Definition spec_context (dim : nat) (weights : list R)
    (enc_output : list Vector) : Vector :=
  map (fun j => rsum (map (fun we => fst we * nth j (snd we) 0)
                        (combine weights enc_output)))
      (seq 0 dim).

(** ** [Seq2SeqLMFusion.lm_heuristics] *)

(** [row[i]] for a Python integer [i]: a negative index counts from the
    end, an index out of range raises. *)
Definition py_index (A : Type) (row : list A) (i : Z) : Res A :=
  let n := Z.of_nat (length row) in
  let j := if (i <? 0)%Z then (n + i)%Z else i in
  if ((j <? 0) || (n <=? j))%Z then Raise IndexError
  else match nth_error row (Z.to_nat j) with
       | Some a => Ok a
       | None => Raise IndexError
       end.

Section LmHeuristics.
Variable LmState : Type.
(** [self.lm_decoder.decoding(dec_input, dec_hidden)]. *)
Variable lm_decoding : Token -> option LmState -> list R * LmState.

(** One logged LM step: its input token and state. *)
Definition LmStep : Type := (Token * option LmState)%type.

(** [for t in range(1, max_tgt_sz)] with [rest = src[t:]]: one LM step per
    remaining token, until the token just scored is [end_tok]. *)
Fixpoint replay (end_tok : Token) (rest : list Token) (dec_input : Token)
    (dec_hidden : option LmState) (log_probs : list R)
    : M LmStep (list R) :=
  match rest with
  | [] => ret log_probs
  | src_t :: rest' =>
      out <- tell (dec_input, dec_hidden)
               (Ok (lm_decoding dec_input dec_hidden)) ;;
      let dec_output := log_softmax (fst out) in
      lp <- lift (py_index dec_output src_t) ;;
      let log_probs := log_probs ++ [lp] in
      if Z.eqb src_t end_tok then ret log_probs
      else replay end_tok rest' src_t (Some (snd out)) log_probs
  end.

(** [sum(log_probs) / len(log_probs)]. *)
Definition mean (log_probs : list R) : Res R :=
  match log_probs with
  | [] => Raise ZeroDivisionError
  | _ => Ok (fold_left Rplus log_probs 0 / INR (length log_probs))
  end.

(** The [max_tgt_sz] argument is overwritten by [len(src)] before its
    first use, so the loop [range(1, max_tgt_sz)] runs over [src[1:]]. *)
Definition lm_heuristics (src : list Token) (max_tgt_sz : Z)
    : M LmStep R :=
  start_tok <- lift (first_tok src) ;;
  end_tok <- lift (last_tok src) ;;
  let max_tgt_sz := Z.of_nat (length src) in
  log_probs <-
    replay end_tok (firstn (Z.to_nat (max_tgt_sz - 1)) (tl src))
      start_tok None [] ;;
  lift (mean log_probs).
End LmHeuristics.

(** ** The LM score as the specification words it

    Section 4.5 of the specification, written with list functions instead of
    the loop: the tokens scored, the LM steps taken on the tokens before
    them, the log-probability each step gives to the token that follows, and
    the mean of these.  The replay of the source is compared with it below. *)

Section LmScoreSpec.
Variable LmState : Type.
Variable lm_decoding : Token -> option LmState -> list R * LmState.

(** The supplied next tokens, up to and including the first End. *)
Fixpoint up_to_end (end_tok : Token) (rest : list Token) : list Token :=
  match rest with
  | [] => []
  | t :: rest' =>
      if Z.eqb t end_tok then [t] else t :: up_to_end end_tok rest'
  end.

(** The LM run on [inputs], token by token, from the state [hidden]: each
    step with the state the previous one returned. *)
Fixpoint lm_steps (inputs : list Token) (hidden : option LmState)
    : list (LmStep LmState) :=
  match inputs with
  | [] => []
  | x :: inputs' =>
      (x, hidden) :: lm_steps inputs' (Some (snd (lm_decoding x hidden)))
  end.

(** [log_softmax(LMStep logits)[actual_next_token]]. *)
Definition spec_log_prob (step : LmStep LmState) (next : Token) : R :=
  nth (Z.to_nat next)
    (log_softmax (fst (lm_decoding (fst step) (snd step)))) 0.

Definition spec_scored (src : list Token) : list Token :=
  match src with
  | [] => []
  | start_tok :: rest => up_to_end (last rest start_tok) rest
  end.

Definition spec_steps (src : list Token) : list (LmStep LmState) :=
  lm_steps (firstn (length (spec_scored src)) src) None.

Definition spec_log_probs (src : list Token) : list R :=
  map (fun sn => spec_log_prob (fst sn) (snd sn))
    (combine (spec_steps src) (spec_scored src)).

(** The mean log-probability across steps. *)
Definition spec_mean_log_prob (src : list Token) : R :=
  rsum (spec_log_probs src) / INR (length (spec_log_probs src)).
End LmScoreSpec.

(** ** A small real-valued decoder and language model *)

Module ToyR.
(** A row of logits that is its own log-softmax: the probabilities
    [1 - 2/e], [1/e], [1/e] of tokens 0, 1 and 2. *)
Definition lm_row : list R := [ln (1 - 2 * exp (-1)); -1; -1].

Definition lm_decoding (x : Token) (hidden : option nat) : list R * nat :=
  (lm_row, Toy.next_state hidden).

(** A one-layer LSTM-style decoder with attention, all dimensions 1. *)
Definition decoder : Decoder :=
  {| dec_rnn_type := LSTM;
     dec_layers := 1;
     dec_hidden_dim := 1;
     enc_outstate_dim := 1;
     use_attention := true;
     embedding := fun x => [IZR x];
     W1 := {| weight := [[1]]; bias := [0] |};
     W2 := {| weight := [[1]]; bias := [0] |};
     V := {| weight := [[1]]; bias := [0] |};
     dec_rnn := fun x hidden => (x, Pair [x] [x]);
     fc := fun v => v |}.
End ToyR.

Local Close Scope R_scope.

(** ** The score of a sequence, replayed

    What the decoder alone gives for a token sequence, read off the loop
    body of [basenet_inference]: starting from [hidden] with the token [x],
    each token of [rest] adds its entry of the log-softmaxed decoder output
    to [acc] and is fed next, with the state the decoder returned.  [None]
    when the decoder raises or a token indexes no entry. *)

Section ReplayPath.
Variables (Score DecState EncOut : Type).
Variable s_add : Score -> Score -> Score.
Variable decoder :
  Token -> option DecState -> EncOut -> Res (list Score * DecState).
Variable log_softmax : list Score -> list Score.
Variable enc_output : EncOut.

Fixpoint replay_path (x : Token) (hidden : option DecState) (acc : Score)
    (rest : list Token) : option (Score * option DecState) :=
  match rest with
  | [] => Some (acc, hidden)
  | t :: rest' =>
      match decoder x hidden enc_output with
      | Raise _ => None
      | Ok out =>
          if (t <? 0)%Z then None
          else match nth_error (log_softmax (fst out)) (Z.to_nat t) with
               | None => None
               | Some v =>
                   replay_path t (Some (snd out)) (s_add acc v) rest'
               end
      end
  end.
End ReplayPath.

(** ** The training-time forward passes

    [basenet_forward], [LMDecoder.forward] and [deep_fuse_forward], for a
    batch of one sequence.  [pred_vecs] is the list of its columns
    [pred_vecs[0, :, t]].  The values [random.random()] returns, call after
    call, are the values [draw 0], [draw 1], ... *)

Section Training.
Variable Score : Type.
Variable s_zero s_one : Score.
Variable s_leb : Score -> Score -> bool.
Variables DecState LmState EncOut Vec : Type.
Variable encoder : list Token -> EncOut * DecState.
Variable pass_enc2dec_hid : bool.
Variable decoder :
  Token -> option DecState -> EncOut -> Res (list Score * DecState).
Variable decoder_get_hidden : Token -> option DecState -> EncOut -> DecState.
Variable lm_decoder : option (LMDecoder Score LmState).
Variable deep_fusion : option (DeepFusion Score Vec).
Variable dec_last_hidden : DecState -> Vec.
Variable lm_last_hidden : LmState -> Vec.
Variable vec_mul : Vec -> Vec -> Vec.
Variable vec_cat : Vec -> Vec -> Vec.
(** [output_dim] of the decoder (or of the LM, in [LMDecoder.forward]). *)
Variable output_dim : nat.
Variable draw : nat -> Score.

(** [torch.argmax(row, dim=1)]: the index of the first maximal entry; it
    raises on an empty row. *)
Fixpoint argmax_from (best : Score) (best_i i : nat) (row : list Score)
    : nat :=
  match row with
  | [] => best_i
  | v :: row' =>
      if s_leb v best then argmax_from best best_i (S i) row'
      else argmax_from v i (S i) row'
  end.

Definition argmax (row : list Score) : Res Token :=
  match row with
  | [] => Raise RuntimeError
  | v :: row' => Ok (Z.of_nat (argmax_from v 0 1 row'))
  end.

(** [random.random() < teacher_forcing_ratio], at the [k]-th draw. *)
Definition teacher_forced (teacher_forcing_ratio : Score) (k : nat) : bool :=
  negb (s_leb teacher_forcing_ratio (draw k)).

(** The column [pred_vecs[:, :, 0]] after [pred_vecs[:,1,0] = 1]. *)
Definition start_column : Res (list Score) :=
  if (output_dim <? 2)%nat then Raise IndexError
  else Ok (s_zero :: s_one :: repeat s_zero (output_dim - 2)).

(** [pred_vecs[:,:,t] = dec_output]: the row must have [output_dim]
    entries, or one entry, which is broadcast. *)
Definition store_column (dec_output : list Score) : Res (list Score) :=
  if Nat.eqb (length dec_output) output_dim then Ok dec_output
  else match dec_output with
       | [v] => Ok (repeat v output_dim)
       | _ => Raise RuntimeError
       end.

Section TeacherLoop.
Variable St : Type.
(** One model step on [dec_input]: the output row and the new state. *)
Variable model_step : Token -> St -> Py DecState LmState (list Score * St).

(** [for t in range(1, tgt.size(1))], with [rest = tgt[t:]] and [k] draws
    made so far. *)
Fixpoint teacher_loop (teacher_forcing_ratio : Score) (k : nat)
    (rest : list Token) (dec_input : Token) (hidden : St)
    (pred_vecs : list (list Score))
    : Py DecState LmState (list (list Score)) :=
  match rest with
  | [] => ret pred_vecs
  | tgt_t :: rest' =>
      out <- model_step dec_input hidden ;;
      col <- lift (store_column (fst out)) ;;
      next <- lift (if teacher_forced teacher_forcing_ratio k
                    then Ok tgt_t
                    else argmax (fst out)) ;;
      teacher_loop teacher_forcing_ratio (S k) rest' next (snd out)
        (pred_vecs ++ [col])
  end.
End TeacherLoop.

(** [Seq2SeqLMFusion.basenet_forward]. *)
Definition basenet_step (enc_output : EncOut) (x : Token)
    (hidden : option DecState)
    : Py DecState LmState (list Score * option DecState) :=
  out <- tell (DecoderCall x hidden) (decoder x hidden enc_output) ;;
  ret (fst out, Some (snd out)).

Definition basenet_forward (src tgt : list Token)
    (teacher_forcing_ratio : Score)
    : Py DecState LmState (list (list Score)) :=
  enc <- tell (EncoderCall src) (Ok (encoder src)) ;;
  let enc_output := fst enc in
  let dec_hidden := if pass_enc2dec_hid then Some (snd enc) else None in
  dec_input <- lift (first_tok tgt) ;;
  col0 <- lift start_column ;;
  teacher_loop (basenet_step enc_output) teacher_forcing_ratio 0 (tl tgt)
    dec_input dec_hidden [col0].

(** [LMDecoder.forward]: the loop runs over [src]; [tgt] and [src_sz] are
    not read. *)
Definition lm_step (lm : LMDecoder Score LmState) (x : Token)
    (hidden : option LmState)
    : Py DecState LmState (list Score * option LmState) :=
  out <- tell (LmCall x hidden) (Ok (decoding lm x hidden)) ;;
  ret (fst out, Some (snd out)).

Definition lm_forward (lm : LMDecoder Score LmState) (src tgt : list Token)
    (teacher_forcing_ratio : Score)
    : Py DecState LmState (list (list Score)) :=
  dec_input <- lift (first_tok src) ;;
  col0 <- lift start_column ;;
  teacher_loop (lm_step lm) teacher_forcing_ratio 0 (tl src)
    dec_input None [col0].

(** [Seq2SeqLMFusion.deep_fuse_forward]. *)
Definition deep_step (enc_output : EncOut) (x : Token)
    (hidden : option DecState * option LmState)
    : Py DecState LmState
        (list Score * (option DecState * option LmState)) :=
  dec_hidden <- tell (DecoderHiddenCall x (fst hidden))
                  (Ok (decoder_get_hidden x (fst hidden) enc_output)) ;;
  lm <- lift (match lm_decoder with
              | Some lm => Ok lm
              | None => Raise AttributeError
              end) ;;
  lm_hidden <- tell (LmHiddenCall x (snd hidden))
                 (Ok (get_hidden lm x (snd hidden))) ;;
  df <- lift (match deep_fusion with
              | Some df => Ok df
              | None => Raise AttributeError
              end) ;;
  let lm_gated_hidden :=
    vec_mul (lm_ctrl df (lm_last_hidden lm_hidden))
      (lm_last_hidden lm_hidden) in
  let fused_hidden := vec_cat (dec_last_hidden dec_hidden) lm_gated_hidden in
  ret (dffc df fused_hidden, (Some dec_hidden, Some lm_hidden)).

Definition deep_fuse_forward (src tgt : list Token)
    (teacher_forcing_ratio : Score)
    : Py DecState LmState (list (list Score)) :=
  enc <- tell (EncoderCall src) (Ok (encoder src)) ;;
  let enc_output := fst enc in
  let dec_hidden := if pass_enc2dec_hid then Some (snd enc) else None in
  dec_input <- lift (first_tok tgt) ;;
  col0 <- lift start_column ;;
  teacher_loop (deep_step enc_output) teacher_forcing_ratio 0 (tl tgt)
    dec_input (dec_hidden, None) [col0].
End Training.

(** The training passes on the small network, with draws that alternate
    between 0 and 1/2 (counted in halves: 0 and 1) and four output
    classes. *)
Module ToyTrain.
Definition draw (k : nat) : Z := if Nat.even k then 0%Z else 1%Z.

Definition basenet (src tgt : list Token) (teacher_forcing_ratio : Z) :=
  basenet_forward 0%Z 1%Z Z.leb nat Toy.encoder true Toy.decoder 4 draw
    src tgt teacher_forcing_ratio.

Definition lm (src tgt : list Token) (teacher_forcing_ratio : Z) :=
  lm_forward 0%Z 1%Z Z.leb nat 4 draw Toy.lm src tgt
    teacher_forcing_ratio.
End ToyTrain.

(** ** Construction of the networks

    The checks of [Decoder.__init__] and [Seq2SeqLMFusion.__init__] on the
    sizes and switches of the parts, and the decoder step as the decoders of
    [Seq2SeqLMFusion] call it. *)

Local Open Scope R_scope.

(** [Encoder]: the sizes [Seq2SeqLMFusion.__init__] reads;
    [enc_directions = 2 if bidirectional else 1]. *)
Record EncoderDims : Type := {
  enc_hidden_dim : nat;
  bidirectional : bool
}.

Definition enc_directions (enc : EncoderDims) : nat :=
  if bidirectional enc then 2%nat else 1%nat.

(** [self.enc_outstate_dim] as [Decoder.__init__] sets it from its
    [enc_outstate_dim] argument ([None] or [0] fall back to [hidden_dim]). *)
Definition init_enc_outstate_dim (use_attention : bool)
    (enc_outstate_dim : option nat) (hidden_dim : nat) : nat :=
  if use_attention then
    match enc_outstate_dim with
    | Some (S n) => S n
    | _ => hidden_dim
    end
  else 0%nat.

(** A constructed [Seq2SeqLMFusion]. *)
Record Seq2Seq : Type := {
  s_encoder : EncoderDims;
  s_decoder : Decoder;
  s_pass_enc2dec_hid : bool;
  s_has_lm_decoder : bool;
  s_for_deep_fusion : bool
}.

(** [Seq2SeqLMFusion.__init__]: the three assertions, then the access to
    [self.lm_decoder.dec_hidden_dim] under [for_deep_fusion]. *)
Definition seq2seq_init (encoder : EncoderDims) (decoder : Decoder)
    (pass_enc2dec_hid has_lm_decoder for_deep_fusion : bool) : Res Seq2Seq :=
  if pass_enc2dec_hid
     && negb (Nat.eqb (dec_hidden_dim decoder) (enc_hidden_dim encoder))
  then Raise AssertionError
  else if use_attention decoder
          && negb (Nat.eqb (enc_outstate_dim decoder)
                     (enc_directions encoder * enc_hidden_dim encoder))
  then Raise AssertionError
  else if negb (pass_enc2dec_hid || use_attention decoder)
  then Raise AssertionError
  else if for_deep_fusion && negb has_lm_decoder
  then Raise AttributeError
  else Ok {| s_encoder := encoder;
             s_decoder := decoder;
             s_pass_enc2dec_hid := pass_enc2dec_hid;
             s_has_lm_decoder := has_lm_decoder;
             s_for_deep_fusion := for_deep_fusion |}.

(** [dec_output, dec_hidden, _ = self.decoder(x, hidden, enc_output)]. *)
Definition decoder_of (self : Decoder) (x : Token) (hidden : option Hidden)
    (enc_output : list Vector) : Res (list R * Hidden) :=
  match forward self x hidden enc_output with
  | Ok (output, hidden', _) => Ok (output, hidden')
  | Raise e => Raise e
  end.

(** The order of float scores, as a boolean. *)
Definition Rleb (a b : R) : bool := if Rle_dec a b then true else false.

(** [basenet_inference] of a constructed model, over the reals. *)
Definition model_basenet_inference (self : Seq2Seq) (LmState : Type)
    (encoder : list Token -> list Vector * Hidden) (src : list Token)
    (beam_width max_tgt_sz : Z) (heuristics : bool) :=
  basenet_inference 0 Rplus Rleb LmState encoder (s_pass_enc2dec_hid self)
    (decoder_of (s_decoder self)) log_softmax src beam_width max_tgt_sz
    heuristics.

(** ** The training script

    [loss_estimator] and the teacher-forcing schedule of the epoch loop of
    [tasks/lm_fusion_runner.py]. *)

(** [truth.ge(1)] as floats, on the flattened target tensor. *)
Definition pad_mask (truth : list Z) : list R :=
  map (fun t => if (1 <=? t)%Z then 1 else 0) truth.

(** [loss_estimator]: [criterion(pred, truth)] is the scalar mean
    cross-entropy [ce]; it is multiplied by the mask and the mean of the
    products is returned. *)
Definition loss_estimator (ce : R) (truth : list Z) : R :=
  rsum (map (fun m => ce * m) (pad_mask truth)) / INR (length truth).

Local Close Scope R_scope.

(** The value of [teacher_forcing] in epoch [epoch], from its value in the
    epoch before (the settings of the script are integers). *)
Definition teacher_forcing_step (teach_force_till teach_decay_pereph : Z)
    (epoch teacher_forcing : Z) : Z :=
  if (teach_force_till <=? epoch)%Z then 0%Z
  else Z.max 0 (teacher_forcing - teach_decay_pereph).

(** [teacher_forcing] after the updates of epochs [first], ...,
    [first + n - 1]. *)
Fixpoint teacher_forcing_after (teach_force_till teach_decay_pereph : Z)
    (n : nat) (first teacher_forcing : Z) : Z :=
  match n with
  | O => teacher_forcing
  | S n' =>
      teacher_forcing_after teach_force_till teach_decay_pereph n'
        (first + 1)
        (teacher_forcing_step teach_force_till teach_decay_pereph first
           teacher_forcing)
  end.

(** ** More small instances *)

Module ToyMore.
(** A language model that prefers the low ids: with it the best tokens of
    the fused row are not the best tokens of the decoder row. *)
Definition lm_skewed : LMDecoder Z nat :=
  {| decoding := fun x hidden => ([-1; -2; -3; -3]%Z, Toy.next_state hidden);
     get_hidden := fun x hidden => Toy.next_state hidden |}.

(** A beam whose hypotheses all end in End (token 3). *)
Definition finished_beam : list (PTup Z (option nat)) :=
  [ {| score := (-2)%Z; sequence := [0; 1; 3]%Z; state := Some 2%nat |};
    {| score := (-5)%Z; sequence := [0; 2; 1; 3]%Z; state := Some 3%nat |} ].

(** The decoders of [Toy] without a language model. *)
Definition shallow_no_lm (src : list Token) (beam_width max_tgt_sz : Z) :=
  shallow_fuse_inference 0%Z Z.add Z.leb Toy.encoder true Toy.decoder
    (None : option (LMDecoder Z nat)) Toy.log_softmax
    src beam_width max_tgt_sz.

Definition deep_no_lm (src : list Token) (beam_width max_tgt_sz : Z) :=
  deep_fuse_inference 0%Z Z.add Z.leb Toy.encoder true Toy.decoder_get_hidden
    (None : option (LMDecoder Z nat)) (Some Toy.deep) Z.of_nat Z.of_nat Z.mul
    Z.add Toy.log_softmax src beam_width max_tgt_sz.

(** A one-layer GRU-style decoder without attention. *)
Definition gru_decoder : Decoder :=
  {| dec_rnn_type := GRU;
     dec_layers := 1;
     dec_hidden_dim := 1;
     enc_outstate_dim := 0;
     use_attention := false;
     embedding := fun x => [IZR x];
     W1 := {| weight := []; bias := [] |};
     W2 := {| weight := []; bias := [] |};
     V := {| weight := []; bias := [] |};
     dec_rnn := fun x hidden => (x, Single [x]);
     fc := fun v => v |}.

(** A unidirectional encoder of hidden size 1 and what it returns. *)
Definition enc_dims : EncoderDims :=
  {| enc_hidden_dim := 1; bidirectional := false |}.

Definition encoder (src : list Token) : list Vector * Hidden :=
  ([[1%R]], Pair [[1%R]] [[1%R]]).
End ToyMore.

(** * Properties *)

Unset Implicit Arguments.

(** ** The monad *)

Lemma bind_Ok (L A B : Type) (m : M L A) (f : A -> M L B) (b : B) :
  fst (bind m f) = Ok b -> exists a, fst m = Ok a /\ fst (f a) = Ok b.
Proof.
  unfold bind. destruct (fst m) as [a|e]; simpl; intros H.
  - exists a. auto.
  - discriminate.
Qed.

Lemma bind_eq (L A B : Type) (m : M L A) (f : A -> M L B) (a : A) :
  fst m = Ok a -> bind m f = (fst (f a), snd m ++ snd (f a)).
Proof. unfold bind. intros ->. reflexivity. Qed.

Lemma bind_Raise (L A B : Type) (m : M L A) (f : A -> M L B) (e : PyError) :
  fst m = Raise e -> bind m f = (Raise e, snd m).
Proof. unfold bind. intros ->. reflexivity. Qed.

Lemma bind_log_prefix (L A B : Type) (m : M L A) (f : A -> M L B) :
  exists rest, snd (bind m f) = snd m ++ rest.
Proof.
  unfold bind. destruct (fst m) as [a|e]; simpl.
  - eauto.
  - exists []. now rewrite app_nil_r.
Qed.

(** Splits a successful [bind] into its two successful halves. *)
Ltac bind_inv H a Ha :=
  apply bind_Ok in H; destruct H as (a & Ha & H).

(** ** Slices *)

Lemma slice_to_length (A : Type) (l : list A) (n : Z) :
  (0 <= n)%Z -> (Z.of_nat (length (slice_to l n)) <= n)%Z.
Proof.
  intros Hn. unfold slice_to.
  destruct (0 <=? n)%Z eqn:E; [|apply Z.leb_gt in E; lia].
  rewrite length_firstn. lia.
Qed.

Lemma slice_to_prefix (A : Type) (l : list A) (n : Z) :
  exists rest, l = slice_to l n ++ rest.
Proof.
  unfold slice_to. destruct (0 <=? n)%Z.
  - exists (skipn (Z.to_nat n) l). now rewrite firstn_skipn.
  - exists (skipn (length l - Z.to_nat (- n)) l). now rewrite firstn_skipn.
Qed.

Lemma slice_to_Forall (A : Type) (P : A -> Prop) (l : list A) (n : Z) :
  Forall P l -> Forall P (slice_to l n).
Proof.
  intros H. destruct (slice_to_prefix _ l n) as [rest E].
  rewrite E in H. now apply Forall_app in H.
Qed.

(** ** The stable descending sort *)

Section SortFacts.
Variables (A K : Type).
Variable key : A -> K.
Variable leb : K -> K -> bool.

Lemma insert_desc_perm (x : A) (l : list A) :
  Permutation (insert_desc key leb x l) (x :: l).
Proof.
  induction l as [|y l IH]; simpl; auto.
  destruct (leb (key y) (key x)); auto.
  rewrite IH. apply perm_swap.
Qed.

Lemma sort_desc_perm (l : list A) : Permutation (sort_desc key leb l) l.
Proof.
  induction l as [|x l IH]; simpl; auto.
  rewrite insert_desc_perm. now constructor.
Qed.

Lemma sort_desc_Forall (P : A -> Prop) (l : list A) :
  Forall P l -> Forall P (sort_desc key leb l).
Proof.
  intros H. eapply Permutation_Forall; [|exact H].
  symmetry. apply sort_desc_perm.
Qed.

Lemma sort_desc_length (l : list A) :
  length (sort_desc key leb l) = length l.
Proof. apply Permutation_length, sort_desc_perm. Qed.

Hypothesis leb_total : forall a b, leb a b = true \/ leb b a = true.
Hypothesis leb_trans :
  forall a b c, leb a b = true -> leb b c = true -> leb a c = true.

Lemma insert_desc_sorted (x : A) (l : list A) :
  StronglySorted (desc key leb) l -> StronglySorted (desc key leb) (insert_desc key leb x l).
Proof.
  induction l as [|y l IH]; simpl; intros Hs.
  - repeat constructor.
  - destruct (leb (key y) (key x)) eqn:E.
    + constructor; [assumption|].
      constructor; [exact E|].
      apply StronglySorted_inv in Hs. destruct Hs as [_ Hy].
      eapply Forall_impl; [|exact Hy].
      intros a Ha. unfold desc in *. eauto.
    + apply StronglySorted_inv in Hs. destruct Hs as [Hl Hy].
      constructor; [now apply IH|].
      eapply Permutation_Forall;
        [symmetry; apply insert_desc_perm|].
      constructor; [|assumption].
      unfold desc. destruct (leb_total (key y) (key x)); congruence.
Qed.

Lemma sort_desc_sorted (l : list A) :
  StronglySorted (desc key leb) (sort_desc key leb l).
Proof.
  induction l as [|x l IH]; simpl.
  - constructor.
  - now apply insert_desc_sorted.
Qed.

Lemma insert_desc_stable (k : K) (x : A) (l : list A) :
  filter (tie key leb k) (insert_desc key leb x l) = filter (tie key leb k) (x :: l).
Proof.
  induction l as [|y l IH]; simpl; [reflexivity|].
  destruct (leb (key y) (key x)) eqn:E; [reflexivity|].
  simpl in *. rewrite IH.
  destruct (tie key leb k x) eqn:Ex, (tie key leb k y) eqn:Ey; try reflexivity.
  unfold tie in Ex, Ey.
  apply andb_true_iff in Ex, Ey. destruct Ex as [Hkx _], Ey as [_ Hyk].
  rewrite (leb_trans _ _ _ Hyk Hkx) in E. discriminate.
Qed.

Lemma sort_desc_stable (k : K) (l : list A) :
  filter (tie key leb k) (sort_desc key leb l) = filter (tie key leb k) l.
Proof.
  induction l as [|x l IH]; simpl; [reflexivity|].
  rewrite insert_desc_stable. simpl. now rewrite IH.
Qed.
End SortFacts.

Lemma StronglySorted_app_l (A : Type) (R : A -> A -> Prop) (l1 l2 : list A) :
  StronglySorted R (l1 ++ l2) -> StronglySorted R l1.
Proof.
  induction l1 as [|a l1 IH]; simpl; intros H.
  - constructor.
  - apply StronglySorted_inv in H. destruct H as [H1 H2].
    constructor; [now apply IH|].
    now apply Forall_app in H2.
Qed.

Lemma filter_prefix (A : Type) (f : A -> bool) (l1 l2 : list A) :
  filter f l1 = firstn (length (filter f l1)) (filter f (l1 ++ l2)).
Proof.
  rewrite filter_app, firstn_app, Nat.sub_diag, firstn_all. simpl.
  now rewrite app_nil_r.
Qed.

(** ** Invariants of the search loop *)

Section SearchFacts.
Variables (Score DecState LmState St : Type).
Variable s_add : Score -> Score -> Score.
Variable s_leb : Score -> Score -> bool.
Variable beam_width : Z.
Variable end_tok : Token.
Variable expand : PTup Score St -> Py DecState LmState (list (PTup Score St)).

Local Abbreviation collect' := (collect end_tok expand).
Local Abbreviation step' := (step s_leb beam_width end_tok expand).
Local Abbreviation search' := (search s_leb beam_width end_tok expand).

(** What the inner loop appends and which calls it makes, hypothesis by
    hypothesis. *)
Lemma collect_trace (top cur cur' : list (PTup Score St)) :
  fst (collect' top cur) = Ok cur' ->
  cur' = cur ++ flat_map (fun p =>
                   if ends_with (sequence p) end_tok then [p]
                   else match fst (expand p) with
                        | Ok new => new
                        | Raise _ => []
                        end) top
  /\ snd (collect' top cur)
     = flat_map (fun p =>
                   if ends_with (sequence p) end_tok then []
                   else snd (expand p)) top.
Proof.
  revert cur. induction top as [|p rest IH]; simpl; intros cur H.
  - inversion H. now rewrite app_nil_r.
  - destruct (ends_with (sequence p) end_tok).
    + destruct (IH _ H) as [-> ->]. now rewrite <- app_assoc.
    + pose proof H as H'. bind_inv H' new Hnew.
      rewrite (bind_eq _ _ _ _ _ _ Hnew) in *. simpl in *.
      rewrite Hnew.
      destruct (IH _ H) as [-> ->]. now rewrite <- app_assoc.
Qed.

Section Invariant.
Variable P : PTup Score St -> Prop.
Hypothesis expand_P :
  forall p new, P p -> fst (expand p) = Ok new -> Forall P new.

Lemma collect_Forall (top cur cur' : list (PTup Score St)) :
  Forall P top -> Forall P cur ->
  fst (collect' top cur) = Ok cur' -> Forall P cur'.
Proof.
  revert cur. induction top as [|p rest IH]; simpl; intros cur Ht Hc H.
  - now inversion H; subst.
  - apply Forall_cons_iff in Ht. destruct Ht as [Hp Hrest].
    destruct (ends_with (sequence p) end_tok).
    + eapply IH; [exact Hrest| |exact H]. apply Forall_app; auto.
    + bind_inv H new Hnew.
      eapply IH; [exact Hrest| |exact H]. apply Forall_app; eauto.
Qed.

Lemma step_Forall (top : list (PTup Score St)) r :
  Forall P top -> fst (step' top) = Ok r -> Forall P (fst r).
Proof.
  unfold step. intros Ht H. bind_inv H cur Hcur.
  inversion H; subst; simpl.
  apply slice_to_Forall, sort_desc_Forall.
  eapply collect_Forall; [exact Ht|constructor|exact Hcur].
Qed.

Lemma search_Forall (n : nat) (top r : list (PTup Score St)) :
  Forall P top -> fst (search' n top) = Ok r -> Forall P r.
Proof.
  revert top. induction n as [|n IH]; simpl; intros top Ht H.
  - now inversion H; subst.
  - bind_inv H st Hst.
    pose proof (step_Forall _ _ Ht Hst) as Hs.
    destruct (snd st).
    + now inversion H; subst.
    + eauto.
Qed.
End Invariant.

Lemma step_length (top : list (PTup Score St)) r :
  (0 <= beam_width)%Z -> fst (step' top) = Ok r ->
  (Z.of_nat (length (fst r)) <= beam_width)%Z.
Proof.
  unfold step. intros Hb H. bind_inv H cur Hcur.
  inversion H; subst; simpl. now apply slice_to_length.
Qed.

Lemma search_length (n : nat) (top r : list (PTup Score St)) :
  (0 <= beam_width)%Z ->
  (0 < n)%nat \/ (Z.of_nat (length top) <= beam_width)%Z ->
  fst (search' n top) = Ok r ->
  (Z.of_nat (length r) <= beam_width)%Z.
Proof.
  intros Hb. revert top. induction n as [|n IH]; simpl; intros top Hn H.
  - inversion H; subst. destruct Hn; [lia|assumption].
  - bind_inv H st Hst.
    pose proof (step_length _ _ Hb Hst) as Hs.
    destruct (snd st).
    + now inversion H; subst.
    + eapply IH; eauto.
Qed.

(** A sequence that starts with [start_tok] still does after [extend]. *)
Lemma extend_first (start_tok : Token) (p : PTup Score St)
    (pred_topk : list (Score * Token)) (st : St) :
  first_tok (sequence p) = Ok start_tok ->
  Forall (fun q => first_tok (sequence q) = Ok start_tok)
    (extend s_add p pred_topk st).
Proof.
  intros Hp. unfold extend. apply Forall_map, Forall_forall.
  intros vi _. simpl. destruct (sequence p); [discriminate|exact Hp].
Qed.
End SearchFacts.

(** ** [topk] and the row sum *)

Lemma indexed_from (A : Type) (row : list A) (s : nat) :
  Forall (fun vi => exists i, snd vi = Z.of_nat (s + i)
                              /\ nth_error row i = Some (fst vi))
    (combine row (map Z.of_nat (seq s (length row)))).
Proof.
  revert s. induction row as [|a row IH]; simpl; intros s; constructor.
  - exists 0%nat. simpl. split; [f_equal; lia|reflexivity].
  - eapply Forall_impl; [|apply (IH (S s))].
    intros vi (i & Hi & Hn). exists (S i).
    split; [rewrite Hi; f_equal; lia|exact Hn].
Qed.

Lemma topk_entries (Score : Type) (s_leb : Score -> Score -> bool)
    (row : list Score) (k : Z) (l : list (Score * Token)) :
  topk s_leb row k = Ok l ->
  Z.of_nat (length l) = k
  /\ Forall (fun vi => (0 <= snd vi)%Z
                       /\ nth_error row (Z.to_nat (snd vi)) = Some (fst vi)) l.
Proof.
  unfold topk. intros H.
  destruct ((k <? 0) || (Z.of_nat (length row) <? k))%Z eqn:E;
    [discriminate|].
  apply orb_false_iff in E. destruct E as [E1 E2].
  apply Z.ltb_ge in E1, E2.
  inversion H; subst; clear H. split.
  - rewrite length_firstn, sort_desc_length. unfold indexed.
    rewrite length_combine, length_map, length_seq. lia.
  - assert (Hall : Forall (fun vi : Score * Token =>
              (0 <= snd vi)%Z
              /\ nth_error row (Z.to_nat (snd vi)) = Some (fst vi))
              (sort_desc fst s_leb (indexed row))).
    { apply sort_desc_Forall. unfold indexed.
      eapply Forall_impl; [|apply (indexed_from _ row 0)].
      intros vi (i & Hi & Hn). simpl in Hi. unfold Token in *. rewrite Hi.
      split; [lia|]. now rewrite Nat2Z.id. }
    rewrite <- (firstn_skipn (Z.to_nat k)) in Hall.
    now apply Forall_app in Hall.
Qed.

Lemma topk_zero (Score : Type) (s_leb : Score -> Score -> bool)
    (row : list Score) :
  topk s_leb row 0 = Ok [].
Proof.
  unfold topk.
  replace (Z.of_nat (length row) <? 0)%Z with false
    by (symmetry; apply Z.ltb_ge; lia).
  reflexivity.
Qed.

Lemma indexed_in (A : Type) (row : list A) (s i : nat) (v : A) :
  nth_error row i = Some v ->
  In (v, Z.of_nat (s + i)) (combine row (map Z.of_nat (seq s (length row)))).
Proof.
  revert s i. induction row as [|a row IH]; intros s [|i] H; simpl in *;
    try discriminate.
  - inversion H; subst. left. now rewrite Nat.add_0_r.
  - right. replace (s + S i)%nat with (S s + i)%nat by lia. now apply IH.
Qed.

Lemma indexed_snd (A : Type) (row : list A) (s : nat) :
  map snd (combine row (map Z.of_nat (seq s (length row))))
  = map Z.of_nat (seq s (length row)).
Proof.
  revert s. induction row as [|a row IH]; simpl; intros s; [reflexivity|].
  f_equal. apply IH.
Qed.

Lemma NoDup_map_of_nat (l : list nat) : NoDup l -> NoDup (map Z.of_nat l).
Proof.
  induction 1 as [|a l Ha _ IH]; simpl; constructor; [|exact IH].
  intros Hin. apply in_map_iff in Hin. destruct Hin as (b & Hb & Hin).
  apply Nat2Z.inj in Hb. now subst.
Qed.

Lemma StronglySorted_app_cross (A : Type) (R : A -> A -> Prop)
    (l1 l2 : list A) :
  StronglySorted R (l1 ++ l2) ->
  forall a b, In a l1 -> In b l2 -> R a b.
Proof.
  induction l1 as [|x l1 IH]; simpl; intros H a b Ha Hb; [contradiction|].
  apply StronglySorted_inv in H. destruct H as [H1 H2].
  destruct Ha as [->|Ha].
  - rewrite Forall_forall in H2. apply H2, in_or_app. now right.
  - now apply IH.
Qed.

(** The indices [topk] returns are pairwise different. *)
Lemma topk_NoDup (Score : Type) (s_leb : Score -> Score -> bool)
    (row : list Score) (k : Z) (l : list (Score * Token)) :
  topk s_leb row k = Ok l -> NoDup (map snd l).
Proof.
  unfold topk.
  destruct ((k <? 0) || (Z.of_nat (length row) <? k))%Z; [discriminate|].
  intros H. inversion H; subst; clear H.
  assert (Hnd : NoDup (map snd (sort_desc fst s_leb (indexed row)))).
  { eapply Permutation_NoDup;
      [apply Permutation_map; symmetry; apply sort_desc_perm|].
    unfold indexed. rewrite indexed_snd.
    apply NoDup_map_of_nat, seq_NoDup. }
  rewrite <- (firstn_skipn (Z.to_nat k) (sort_desc fst s_leb (indexed row)))
    in Hnd.
  rewrite map_app in Hnd.
  now apply NoDup_app_remove_r in Hnd.
Qed.

(** No entry [topk] leaves out is above an entry it returns. *)
Lemma topk_largest (Score : Type) (s_leb : Score -> Score -> bool)
    (leb_total : forall a b, s_leb a b = true \/ s_leb b a = true)
    (leb_trans : forall a b c,
        s_leb a b = true -> s_leb b c = true -> s_leb a c = true)
    (row : list Score) (k : Z) (l : list (Score * Token)) :
  topk s_leb row k = Ok l ->
  forall v tok w j,
    In (v, tok) l -> ~ In j (map snd l) -> (0 <= j)%Z ->
    nth_error row (Z.to_nat j) = Some w -> s_leb w v = true.
Proof.
  unfold topk.
  destruct ((k <? 0) || (Z.of_nat (length row) <? k))%Z; [discriminate|].
  intros H. inversion H; subst; clear H.
  intros v tok w j Hin Hnot Hj Hw.
  pose proof (sort_desc_sorted _ _ fst s_leb leb_total leb_trans (indexed row))
    as HS.
  assert (Hj' : In (w, j) (sort_desc fst s_leb (indexed row))).
  { eapply Permutation_in; [symmetry; apply sort_desc_perm|].
    unfold indexed. pose proof (indexed_in _ row 0 _ _ Hw) as Hi.
    simpl in Hi. now rewrite Z2Nat.id in Hi by lia. }
  rewrite <- (firstn_skipn (Z.to_nat k) (sort_desc fst s_leb (indexed row)))
    in HS, Hj'.
  apply in_app_or in Hj'. destruct Hj' as [Hj'|Hj'].
  - exfalso. apply Hnot. apply in_map_iff. now exists (w, j).
  - exact (StronglySorted_app_cross _ _ _ _ HS _ _ Hin Hj').
Qed.

Lemma row_add_nth (Score : Type) (s_add : Score -> Score -> Score)
    (a b c : list Score) :
  length a = length b -> row_add s_add a b = Ok c ->
  forall i x y, nth_error a i = Some x -> nth_error b i = Some y ->
                nth_error c i = Some (s_add x y).
Proof.
  intros Hlen H i x y Hx Hy.
  assert (Hc : c = map (fun p => s_add (fst p) (snd p)) (combine a b)).
  { unfold row_add in H.
    destruct a as [|a0 [|a1 a]], b as [|b0 [|b1 b]];
      try discriminate Hlen; try (inversion H; reflexivity).
    rewrite Hlen, Nat.eqb_refl in H. now inversion H. }
  subst c. rewrite nth_error_map.
  assert (Hn : nth_error (combine a b) i = Some (x, y)).
  { clear H Hlen. revert b i Hx Hy.
    induction a as [|a0 a IH]; intros [|b0 b] [|i] Hx Hy;
      simpl in *; try discriminate.
    - now inversion Hx; inversion Hy.
    - now apply IH. }
  now rewrite Hn.
Qed.

(** ** The three decoders *)

Section DecodeFacts.
Variable Score : Type.
Variable s_zero : Score.
Variable s_add : Score -> Score -> Score.
Variable s_leb : Score -> Score -> bool.
Variables DecState LmState EncOut Vec : Type.
Variable encoder : list Token -> EncOut * DecState.
Variable pass_enc2dec_hid : bool.
Variable decoder :
  Token -> option DecState -> EncOut -> Res (list Score * DecState).
Variable decoder_get_hidden : Token -> option DecState -> EncOut -> DecState.
Variable lm_decoder : option (LMDecoder Score LmState).
Variable deep_fusion : option (DeepFusion Score Vec).
Variable dec_last_hidden : DecState -> Vec.
Variable lm_last_hidden : LmState -> Vec.
Variable vec_mul : Vec -> Vec -> Vec.
Variable vec_cat : Vec -> Vec -> Vec.
Variable log_softmax : list Score -> list Score.

Local Abbreviation basenet :=
  (basenet_inference s_zero s_add s_leb LmState encoder pass_enc2dec_hid
     decoder log_softmax).
Local Abbreviation shallow :=
  (shallow_fuse_inference s_zero s_add s_leb encoder pass_enc2dec_hid
     decoder lm_decoder log_softmax).
Local Abbreviation deep :=
  (deep_fuse_inference s_zero s_add s_leb encoder pass_enc2dec_hid
     decoder_get_hidden lm_decoder deep_fusion dec_last_hidden
     lm_last_hidden vec_mul vec_cat log_softmax).
Local Abbreviation basenet_expand' :=
  (basenet_expand s_add s_leb LmState decoder log_softmax).
Local Abbreviation shallow_expand' :=
  (shallow_expand s_add s_leb decoder log_softmax).
Local Abbreviation deep_expand' :=
  (deep_expand s_add s_leb decoder_get_hidden lm_decoder deep_fusion
     dec_last_hidden lm_last_hidden vec_mul vec_cat log_softmax).

(** The sequences a [basenet_inference] result holds. *)
Local Abbreviation sequences_of d :=
  (match d with
   | Sequences l => l
   | Tuples l => map (@sequence Score (option DecState)) l
   end).

Lemma basenet_expand_first (start_tok : Token) (bw : Z) (enc : EncOut)
    (p : PTup Score (option DecState)) new :
  first_tok (sequence p) = Ok start_tok ->
  fst (basenet_expand' bw enc p) = Ok new ->
  Forall (fun q => first_tok (sequence q) = Ok start_tok) new.
Proof.
  unfold basenet_expand. intros Hp H.
  bind_inv H out Hout. bind_inv H pred_topk Htopk.
  inversion H; subst. now apply extend_first.
Qed.

Lemma shallow_expand_first (start_tok : Token) lm (bw : Z) (enc : EncOut)
    (p : PTup Score (FState DecState LmState)) new :
  first_tok (sequence p) = Ok start_tok ->
  fst (shallow_expand' lm bw enc p) = Ok new ->
  Forall (fun q => first_tok (sequence q) = Ok start_tok) new.
Proof.
  unfold shallow_expand. intros Hp H.
  bind_inv H out Hout. bind_inv H lm_out Hlm.
  bind_inv H shl Hshl. bind_inv H pred_topk Htopk.
  inversion H; subst. now apply extend_first.
Qed.

Lemma deep_expand_first (start_tok : Token) (bw : Z) (enc : EncOut)
    (p : PTup Score (FState DecState LmState)) new :
  first_tok (sequence p) = Ok start_tok ->
  fst (deep_expand' bw enc p) = Ok new ->
  Forall (fun q => first_tok (sequence q) = Ok start_tok) new.
Proof.
  unfold deep_expand. intros Hp H.
  bind_inv H dec_hidden Hdec. bind_inv H lm Hlm.
  bind_inv H lm_hidden Hlmh. bind_inv H df Hdf.
  bind_inv H pred_topk Htopk.
  inversion H; subst. now apply extend_first.
Qed.

(** The beam a decode ends with, for any [expand] that keeps first tokens. *)
Lemma search_beam (St : Type) (bw : Z) (end_tok start_tok : Token)
    (expand : PTup Score St -> Py DecState LmState (list (PTup Score St)))
    (n : nat) (st : St) top :
  (1 <= bw)%Z ->
  (forall p new, first_tok (sequence p) = Ok start_tok ->
                 fst (expand p) = Ok new ->
                 Forall (fun q => first_tok (sequence q) = Ok start_tok) new) ->
  fst (search s_leb bw end_tok expand n
         [ {| score := s_zero; sequence := [start_tok]; state := st |} ])
  = Ok top ->
  (Z.of_nat (length (map (@sequence Score St) top)) <= bw)%Z
  /\ Forall (fun s => first_tok s = Ok start_tok) (map (@sequence Score St) top).
Proof.
  intros Hbw Hexp H. split.
  - rewrite length_map.
    eapply search_length; [lia| |exact H]. right. simpl. lia.
  - apply Forall_map.
    eapply search_Forall; [exact Hexp| |exact H].
    constructor; [reflexivity|constructor].
Qed.

(** C1.  With [beam_width >= 1] and [max_tgt_sz >= 1], whatever list of
    sequences [basenet_inference], [shallow_fuse_inference] or
    [deep_fuse_inference] returns has at most [beam_width] entries, and each
    of them starts with the first token of the input. *)
Theorem decode_returns_beam_of_start_sequences
    (src : list Token) (beam_width max_tgt_sz : Z) :
  (1 <= beam_width)%Z -> (1 <= max_tgt_sz)%Z ->
  (forall heuristics d,
      fst (basenet src beam_width max_tgt_sz heuristics) = Ok d ->
      exists start_tok, first_tok src = Ok start_tok
        /\ (Z.of_nat (length (sequences_of d)) <= beam_width)%Z
        /\ Forall (fun s => first_tok s = Ok start_tok) (sequences_of d))
  /\ (forall seqs,
      fst (shallow src beam_width max_tgt_sz) = Ok seqs ->
      exists start_tok, first_tok src = Ok start_tok
        /\ (Z.of_nat (length seqs) <= beam_width)%Z
        /\ Forall (fun s => first_tok s = Ok start_tok) seqs)
  /\ (forall seqs,
      fst (deep src beam_width max_tgt_sz) = Ok seqs ->
      exists start_tok, first_tok src = Ok start_tok
        /\ (Z.of_nat (length seqs) <= beam_width)%Z
        /\ Forall (fun s => first_tok s = Ok start_tok) seqs).
Proof.
  intros Hbw Hmax. split; [|split].
  - intros heuristics d H. unfold basenet_inference in H.
    bind_inv H start_tok Hstart. bind_inv H end_tok Hend.
    bind_inv H enc Henc. bind_inv H top Htop.
    exists start_tok. split; [exact Hstart|].
    apply search_beam in Htop;
      [|exact Hbw|intros p new; apply basenet_expand_first].
    destruct heuristics; inversion H; subst; exact Htop.
  - intros seqs H. unfold shallow_fuse_inference in H.
    destruct lm_decoder as [lm|]; [|discriminate].
    bind_inv H start_tok Hstart. bind_inv H end_tok Hend.
    bind_inv H enc Henc. bind_inv H top Htop.
    exists start_tok. split; [exact Hstart|].
    apply search_beam in Htop;
      [|exact Hbw|intros p new; apply shallow_expand_first].
    inversion H; subst; exact Htop.
  - intros seqs H. unfold deep_fuse_inference in H.
    bind_inv H start_tok Hstart. bind_inv H end_tok Hend.
    bind_inv H enc Henc. bind_inv H top Htop.
    exists start_tok. split; [exact Hstart|].
    apply search_beam in Htop;
      [|exact Hbw|intros p new; apply deep_expand_first].
    inversion H; subst; exact Htop.
Qed.
(** *** Shallow fusion *)

(** C3.  A successful shallow-fusion expansion of a hypothesis calls the
    decoder on the hypothesis' decoder state and the LM on its LM state, once
    each; every candidate appends one token [tok], adds to the score the sum
    [log_softmax(dec_output)[tok] + log_softmax(lm_output)[tok]] (the two
    rows having the vocabulary's length), and carries the decoder's new state
    and the LM's new state side by side.  This sum is also the score the
    top-k expansion ranks by: the candidates append [beam_width] pairwise
    different tokens, and no token left out has a sum above the sum of a
    token taken (for a comparison that is a total preorder). *)
Theorem shallow_step_score_is_sum_of_log_softmax
    (lm : LMDecoder Score LmState) (bw : Z) (enc : EncOut)
    (p : PTup Score (FState DecState LmState)) new :
  fst (shallow_expand' lm bw enc p) = Ok new ->
  exists out,
    decoder (x_of p) (fst (state p)) enc = Ok out
    /\ snd (shallow_expand' lm bw enc p)
       = [DecoderCall (x_of p) (fst (state p));
          LmCall (x_of p) (snd (state p))]
    /\ (length (log_softmax (fst out))
        = length (log_softmax (fst (decoding lm (x_of p) (snd (state p))))) ->
        Forall (fun q => exists tok d l,
                  (0 <= tok)%Z
                  /\ nth_error (log_softmax (fst out)) (Z.to_nat tok) = Some d
                  /\ nth_error
                       (log_softmax
                          (fst (decoding lm (x_of p) (snd (state p)))))
                       (Z.to_nat tok) = Some l
                  /\ score q = s_add (score p) (s_add d l)
                  /\ sequence q = sequence p ++ [tok]
                  /\ state q
                     = (Some (snd out),
                        Some (snd (decoding lm (x_of p) (snd (state p))))))
          new)
    /\ (length (log_softmax (fst out))
        = length (log_softmax (fst (decoding lm (x_of p) (snd (state p))))) ->
        (forall a b, s_leb a b = true \/ s_leb b a = true) ->
        (forall a b c,
            s_leb a b = true -> s_leb b c = true -> s_leb a c = true) ->
        exists toks,
          map (@sequence _ _) new = map (fun tok => sequence p ++ [tok]) toks
          /\ Z.of_nat (length toks) = bw
          /\ NoDup toks
          /\ forall tok j v w,
               In tok toks -> ~ In j toks ->
               spec_shallow_score s_add log_softmax (fst out)
                 (fst (decoding lm (x_of p) (snd (state p)))) tok = Some v ->
               spec_shallow_score s_add log_softmax (fst out)
                 (fst (decoding lm (x_of p) (snd (state p)))) j = Some w ->
               s_leb w v = true).
Proof.
  unfold shallow_expand, call_decoder, tell, lift, ret, bind. simpl.
  destruct (decoder (x_of p) (fst (state p)) enc) as [out|e] eqn:Hout;
    simpl; [|discriminate].
  set (lm_out := decoding lm (x_of p) (snd (state p))).
  destruct (row_add s_add (log_softmax (fst out)) (log_softmax (fst lm_out)))
    as [shl|e] eqn:Hshl; simpl; [|discriminate].
  destruct (topk s_leb shl bw) as [pred_topk|e] eqn:Htopk; simpl;
    [|discriminate].
  intros H. inversion H; subst; clear H.
  exists out. split; [reflexivity|]. split; [reflexivity|].
  pose proof (topk_entries _ _ _ _ _ Htopk) as [Hk Hall].
  split.
  { intros Hlen. unfold extend. apply Forall_map.
    eapply Forall_impl; [|exact Hall].
    intros [v tok] [Htok Hv]. simpl in *.
    destruct (nth_error (log_softmax (fst out)) (Z.to_nat tok))
      as [d|] eqn:Hd.
    - destruct (nth_error (log_softmax (fst lm_out)) (Z.to_nat tok))
        as [l|] eqn:Hl.
      + exists tok, d, l.
        rewrite (row_add_nth _ s_add _ _ _ Hlen Hshl _ _ _ Hd Hl) in Hv.
        inversion Hv; subst. repeat split; auto.
      + apply nth_error_None in Hl. rewrite <- Hlen in Hl.
        apply nth_error_None in Hl. congruence.
    - exfalso. apply nth_error_None in Hd.
      assert (Hs : length shl = length (log_softmax (fst out))).
      { clear - Hshl Hlen. unfold row_add in Hshl.
        destruct (log_softmax (fst out)) as [|a0 [|a1 a]],
                 (log_softmax (fst lm_out)) as [|b0 [|b1 b]];
          try discriminate Hlen; try (inversion Hshl; reflexivity).
        rewrite Hlen, Nat.eqb_refl in Hshl. inversion Hshl.
        simpl in *. rewrite length_map, length_combine. lia. }
      rewrite <- Hs in Hd. apply nth_error_None in Hd. congruence. }
  intros Hlen Htot Htrans.
  exists (map snd pred_topk).
  split; [unfold extend; now rewrite !map_map|].
  split; [now rewrite length_map|].
  split; [exact (topk_NoDup _ _ _ _ _ Htopk)|].
  intros tok j v w Htok Hj Hv Hw.
  apply in_map_iff in Htok. destruct Htok as ([v' tok'] & Heq & Hin).
  simpl in Heq. subst tok'.
  assert (Hspec : forall t u,
             spec_shallow_score s_add log_softmax (fst out) (fst lm_out) t
             = Some u ->
             (0 <= t)%Z /\ nth_error shl (Z.to_nat t) = Some u).
  { intros t u. unfold spec_shallow_score.
    destruct (t <? 0)%Z eqn:E; [discriminate|]. apply Z.ltb_ge in E.
    destruct (nth_error (log_softmax (fst out)) (Z.to_nat t))
      as [d|] eqn:Hd; [|discriminate].
    destruct (nth_error (log_softmax (fst lm_out)) (Z.to_nat t))
      as [l0|] eqn:Hl; [|discriminate].
    intros H. inversion H; subst. split; [exact E|].
    exact (row_add_nth _ s_add _ _ _ Hlen Hshl _ _ _ Hd Hl). }
  destruct (Hspec _ _ Hv) as [_ Hv']. destruct (Hspec _ _ Hw) as [Hj0 Hw'].
  rewrite Forall_forall in Hall. destruct (Hall _ Hin) as [_ Hvt].
  simpl in Hvt. rewrite Hv' in Hvt. inversion Hvt; subst v'.
  exact (topk_largest _ s_leb Htot Htrans _ _ _ Htopk _ _ _ _ Hin Hj Hj0
           Hw').
Qed.

(** *** Terminated hypotheses *)

Lemma collect_calls (St : Type) (end_tok : Token)
    (expand : PTup Score St -> Py DecState LmState (list (PTup Score St)))
    (calls : PTup Score St -> list (Call DecState LmState))
    (top cur cur' : list (PTup Score St)) :
  (forall p new, fst (expand p) = Ok new -> snd (expand p) = calls p) ->
  fst (collect end_tok expand top cur) = Ok cur' ->
  snd (collect end_tok expand top cur)
  = flat_map calls
      (filter (fun p => negb (ends_with (sequence p) end_tok)) top)
  /\ (forall p, In p cur -> In p cur')
  /\ (forall p, In p top -> ends_with (sequence p) end_tok = true ->
                In p cur').
Proof.
  intros Hcalls. revert cur.
  induction top as [|q rest IH]; simpl; intros cur H.
  - inversion H; subst. repeat split; auto. intros p [].
  - destruct (ends_with (sequence q) end_tok) eqn:Eq; simpl.
    + destruct (IH _ H) as (Hlog & Hcur & Hend).
      split; [exact Hlog|]. split.
      * intros p Hp. apply Hcur, in_or_app. now left.
      * intros p [->|Hp] Hp'; [|now apply Hend].
        apply Hcur, in_or_app. right. now left.
    + pose proof H as H'. bind_inv H' new Hnew.
      rewrite (bind_eq _ _ _ _ _ _ Hnew) in *. simpl in *.
      destruct (IH _ H) as (Hlog & Hcur & Hend).
      rewrite Hlog, (Hcalls _ _ Hnew).
      split; [reflexivity|]. split.
      * intros p Hp. apply Hcur, in_or_app. now left.
      * intros p [->|Hp] Hp'; [congruence|now apply Hend].
Qed.

Lemma step_calls (St : Type) (bw : Z) (end_tok : Token)
    (expand : PTup Score St -> Py DecState LmState (list (PTup Score St)))
    (calls : PTup Score St -> list (Call DecState LmState))
    (top : list (PTup Score St)) r :
  (forall p new, fst (expand p) = Ok new -> snd (expand p) = calls p) ->
  fst (step s_leb bw end_tok expand top) = Ok r ->
  exists cur,
    fst (collect end_tok expand top []) = Ok cur
    /\ fst r = prune s_leb bw cur
    /\ (forall p, In p top -> ends_with (sequence p) end_tok = true ->
                  In p cur)
    /\ snd (step s_leb bw end_tok expand top)
       = flat_map calls
           (filter (fun p => negb (ends_with (sequence p) end_tok)) top).
Proof.
  intros Hcalls H. unfold step in *.
  pose proof H as H'. bind_inv H' cur Hcur.
  rewrite (bind_eq _ _ _ _ _ _ Hcur). simpl. rewrite app_nil_r.
  destruct (collect_calls _ _ _ _ _ _ _ Hcalls Hcur) as (Hlog & _ & Hend).
  exists cur. inversion H'; subst; simpl. auto.
Qed.

Lemma basenet_expand_log (bw : Z) (enc : EncOut)
    (p : PTup Score (option DecState)) new :
  fst (basenet_expand' bw enc p) = Ok new ->
  snd (basenet_expand' bw enc p) = [DecoderCall (x_of p) (state p)].
Proof.
  unfold basenet_expand, call_decoder, tell, lift, ret, bind. simpl.
  destruct (decoder (x_of p) (state p) enc) as [out|e]; simpl;
    [|discriminate].
  destruct (topk s_leb (log_softmax (fst out)) bw); simpl;
    [reflexivity|discriminate].
Qed.

Lemma shallow_expand_log (lm : LMDecoder Score LmState) (bw : Z)
    (enc : EncOut) (p : PTup Score (FState DecState LmState)) new :
  fst (shallow_expand' lm bw enc p) = Ok new ->
  snd (shallow_expand' lm bw enc p)
  = [DecoderCall (x_of p) (fst (state p)); LmCall (x_of p) (snd (state p))].
Proof.
  unfold shallow_expand, call_decoder, tell, lift, ret, bind. simpl.
  destruct (decoder (x_of p) (fst (state p)) enc) as [out|e]; simpl;
    [|discriminate].
  destruct (row_add s_add _ _); simpl; [|discriminate].
  destruct (topk s_leb _ bw); simpl; [reflexivity|discriminate].
Qed.

Lemma deep_expand_log (bw : Z) (enc : EncOut)
    (p : PTup Score (FState DecState LmState)) new :
  fst (deep_expand' bw enc p) = Ok new ->
  snd (deep_expand' bw enc p)
  = [DecoderHiddenCall (x_of p) (fst (state p));
     LmHiddenCall (x_of p) (snd (state p))].
Proof.
  unfold deep_expand, tell, lift, ret, bind. simpl.
  destruct lm_decoder as [lm|]; simpl; [|discriminate].
  destruct deep_fusion as [df|]; simpl; [|discriminate].
  destruct (topk s_leb _ bw); simpl; [reflexivity|discriminate].
Qed.

(** C4.  In a step of each decoder, a hypothesis of the beam whose last
    token is [end_tok] is appended to the candidates as it is (same score,
    sequence and states), and the network calls of the step are exactly
    those made for the other hypotheses: one decoder call (and one LM call
    under fusion) per hypothesis that does not end in [end_tok]. *)
Theorem terminated_hypothesis_carried_not_expanded
    (bw : Z) (end_tok : Token) (enc : EncOut) :
  (forall top r,
      fst (step s_leb bw end_tok (basenet_expand' bw enc) top) = Ok r ->
      exists cur,
        fst (collect end_tok (basenet_expand' bw enc) top []) = Ok cur
        /\ fst r = prune s_leb bw cur
        /\ (forall p, In p top -> ends_with (sequence p) end_tok = true ->
                      In p cur)
        /\ snd (step s_leb bw end_tok (basenet_expand' bw enc) top)
           = flat_map (fun p => [DecoderCall (LmState := LmState)
                                   (x_of p) (state p)])
               (filter (fun p => negb (ends_with (sequence p) end_tok)) top))
  /\ (forall lm top r,
      fst (step s_leb bw end_tok (shallow_expand' lm bw enc) top) = Ok r ->
      exists cur,
        fst (collect end_tok (shallow_expand' lm bw enc) top []) = Ok cur
        /\ fst r = prune s_leb bw cur
        /\ (forall p, In p top -> ends_with (sequence p) end_tok = true ->
                      In p cur)
        /\ snd (step s_leb bw end_tok (shallow_expand' lm bw enc) top)
           = flat_map (fun p => [DecoderCall (LmState := LmState)
                                   (x_of p) (fst (state p));
                                 LmCall (x_of p) (snd (state p))])
               (filter (fun p => negb (ends_with (sequence p) end_tok)) top))
  /\ (forall top r,
      fst (step s_leb bw end_tok (deep_expand' bw enc) top) = Ok r ->
      exists cur,
        fst (collect end_tok (deep_expand' bw enc) top []) = Ok cur
        /\ fst r = prune s_leb bw cur
        /\ (forall p, In p top -> ends_with (sequence p) end_tok = true ->
                      In p cur)
        /\ snd (step s_leb bw end_tok (deep_expand' bw enc) top)
           = flat_map (fun p => [DecoderHiddenCall (LmState := LmState)
                                   (x_of p) (fst (state p));
                                 LmHiddenCall (x_of p) (snd (state p))])
               (filter (fun p => negb (ends_with (sequence p) end_tok)) top)).
Proof.
  split; [|split].
  - intros top r. apply step_calls. apply basenet_expand_log.
  - intros lm top r. apply step_calls. apply shallow_expand_log.
  - intros top r. apply step_calls. apply deep_expand_log.
Qed.
(** *** The search returns *)

Lemma collect_returns (St : Type) (end_tok : Token)
    (expand : PTup Score St -> Py DecState LmState (list (PTup Score St)))
    (top cur : list (PTup Score St)) :
  (forall p, exists new, fst (expand p) = Ok new) ->
  exists cur', fst (collect end_tok expand top cur) = Ok cur'.
Proof.
  intros Hexp. revert cur. induction top as [|p rest IH]; simpl; intros cur.
  - eexists. reflexivity.
  - destruct (ends_with (sequence p) end_tok); [apply IH|].
    destruct (Hexp p) as [new Hnew].
    rewrite (bind_eq _ _ _ _ _ _ Hnew). simpl. apply IH.
Qed.

Lemma search_returns (St : Type) (bw : Z) (end_tok : Token)
    (expand : PTup Score St -> Py DecState LmState (list (PTup Score St)))
    (n : nat) (top : list (PTup Score St)) :
  (forall p, exists new, fst (expand p) = Ok new) ->
  exists r, fst (search s_leb bw end_tok expand n top) = Ok r.
Proof.
  intros Hexp. revert top. induction n as [|n IH]; simpl; intros top.
  - eexists. reflexivity.
  - unfold step.
    destruct (collect_returns St end_tok expand top [] Hexp) as [cur Hcur].
    rewrite (bind_eq _ _ _ _ _ _ Hcur). unfold bind. simpl.
    destruct (bw =? _)%Z; simpl; [eexists; reflexivity|apply IH].
Qed.

(** With a decoder step that never raises and a beam no wider than the
    rows it returns, [basenet_inference] returns on every non-empty input. *)
Lemma basenet_inference_returns (src : list Token)
    (beam_width max_tgt_sz : Z) (heuristics : bool) :
  src <> [] -> (0 <= beam_width)%Z ->
  (forall x hidden, exists out,
      decoder x hidden (fst (encoder src)) = Ok out
      /\ (beam_width <= Z.of_nat (length (log_softmax (fst out))))%Z) ->
  exists d, fst (basenet src beam_width max_tgt_sz heuristics) = Ok d.
Proof.
  intros Hsrc Hbw Hdec.
  destruct src as [|start_tok rest]; [congruence|].
  unfold basenet_inference.
  rewrite (bind_eq _ _ _ (lift (first_tok (start_tok :: rest))) _
             start_tok eq_refl).
  rewrite (bind_eq _ _ _ (lift (last_tok (start_tok :: rest))) _
             (last rest start_tok) eq_refl).
  rewrite (bind_eq _ _ _ (tell (EncoderCall (start_tok :: rest))
                            (Ok (encoder (start_tok :: rest)))) _
             (encoder (start_tok :: rest)) eq_refl).
  simpl fst.
  match goal with
  | |- context [search s_leb ?bw ?e ?f ?n ?t] =>
      destruct (search_returns _ bw e f n t) as [top Htop]
  end.
  - intros p. unfold basenet_expand, call_decoder, tell, lift, ret, bind.
    simpl.
    destruct (Hdec (x_of p) (state p)) as (out & Hout & Hk).
    rewrite Hout. simpl. unfold topk.
    replace (beam_width <? 0)%Z with false
      by (symmetry; apply Z.ltb_ge; lia).
    replace (Z.of_nat (length (log_softmax (fst out))) <? beam_width)%Z
      with false by (symmetry; apply Z.ltb_ge; lia).
    simpl. eexists. reflexivity.
  - rewrite (bind_eq _ _ _ _ _ _ Htop). simpl.
    destruct heuristics; eexists; reflexivity.
Qed.

(** *** Inputs and configurations at the edge *)

Lemma bind_log_starts (L A B : Type) (m : M L A) (f : A -> M L B)
    (l : list L) :
  (exists rest, snd m = l ++ rest) -> exists rest, snd (bind m f) = l ++ rest.
Proof.
  intros [r Hr]. destruct (bind_log_prefix _ _ _ m f) as [r' Hr'].
  exists (r ++ r'). now rewrite Hr', Hr, app_assoc.
Qed.

Lemma extend_length (St : Type) (p : PTup Score St)
    (pred_topk : list (Score * Token)) (st : St) :
  Forall (fun q => length (sequence q) = S (length (sequence p)))
    (extend s_add p pred_topk st).
Proof.
  unfold extend. apply Forall_map, Forall_forall. intros vi _. simpl.
  rewrite length_app. simpl. lia.
Qed.

Lemma basenet_expand_length (bw : Z) (enc : EncOut)
    (p : PTup Score (option DecState)) new :
  fst (basenet_expand' bw enc p) = Ok new ->
  Forall (fun q => length (sequence q) = S (length (sequence p))) new.
Proof.
  unfold basenet_expand. intros H.
  bind_inv H out Hout. bind_inv H pred_topk Htopk.
  inversion H; subst. apply extend_length.
Qed.

(** A beam that holds one terminated hypothesis stays as it is, and no
    network is called. *)
Lemma search_terminated_singleton (St : Type) (bw : Z) (end_tok : Token)
    (expand : PTup Score St -> Py DecState LmState (list (PTup Score St)))
    (n : nat) (p : PTup Score St) :
  (1 <= bw)%Z -> ends_with (sequence p) end_tok = true ->
  search s_leb bw end_tok expand n [p] = (Ok [p], []).
Proof.
  intros Hbw Hp.
  assert (Hslice : slice_to [p] bw = [p]).
  { unfold slice_to.
    destruct (0 <=? bw)%Z eqn:E; [|apply Z.leb_gt in E; lia].
    destruct (Z.to_nat bw) as [|k] eqn:Ek; [lia|].
    simpl. now rewrite firstn_nil. }
  assert (Hstep : step s_leb bw end_tok expand [p]
                  = (Ok ([p], Z.eqb bw 1), [])).
  { unfold step. simpl collect. rewrite Hp. simpl collect.
    unfold bind, ret. simpl fst. simpl snd.
    unfold prune. simpl sort_desc. rewrite Hslice.
    unfold end_count. simpl. now rewrite Hp. }
  induction n as [|n IH]; [reflexivity|].
  simpl search. rewrite Hstep. unfold bind. simpl.
  destruct (bw =? 1)%Z; [reflexivity|].
  now rewrite IH.
Qed.

(** The two cases of the Start-only hypothesis in [basenet_inference]:
    live when the first and last input tokens differ, terminated when they
    are equal. *)
Lemma start_end_input_cases
    (src : list Token) (start_tok end_tok : Token)
    (beam_width max_tgt_sz : Z) (heuristics : bool) :
  first_tok src = Ok start_tok -> last_tok src = Ok end_tok ->
  (start_tok <> end_tok -> (1 <= max_tgt_sz)%Z ->
   (exists rest,
       snd (basenet src beam_width max_tgt_sz heuristics)
       = [EncoderCall src;
          DecoderCall start_tok (init_hidden pass_enc2dec_hid
                                   (snd (encoder src)))] ++ rest)
   /\ forall d,
       fst (basenet src beam_width max_tgt_sz heuristics) = Ok d ->
       Forall (fun s => (2 <= length s)%nat) (sequences_of d))
  /\ (start_tok = end_tok -> (1 <= beam_width)%Z ->
      basenet src beam_width max_tgt_sz heuristics
      = (Ok (if heuristics
             then Tuples [ {| score := s_zero; sequence := [start_tok];
                              state := init_hidden pass_enc2dec_hid
                                         (snd (encoder src)) |} ]
             else Sequences [[start_tok]]),
         [EncoderCall src])).
Proof.
  intros Hstart Hend. split.
  - intros Hne Hmax.
    assert (Hnot : ends_with [start_tok] end_tok = false).
    { unfold ends_with. simpl. now apply Z.eqb_neq. }
    destruct (Z.to_nat max_tgt_sz) as [|n] eqn:En; [lia|].
    unfold basenet_inference. rewrite En.
    rewrite (bind_eq _ _ _ (lift (first_tok src)) _ start_tok Hstart).
    rewrite (bind_eq _ _ _ (lift (last_tok src)) _ end_tok Hend).
    rewrite (bind_eq _ _ _ (tell (EncoderCall src) (Ok (encoder src))) _
               (encoder src) eq_refl).
    simpl fst. simpl snd. split.
    + simpl app. apply (f_equal (cons _)) || idtac.
      match goal with
      | |- exists rest, ?c :: snd ?m = ?c :: ?d :: rest =>
          assert (Hs : exists rest, snd m = [d] ++ rest)
      end.
      { apply bind_log_starts. simpl search. apply bind_log_starts.
        unfold step. apply bind_log_starts.
        simpl collect. rewrite Hnot. apply bind_log_starts.
        unfold basenet_expand. apply bind_log_starts.
        exists []. reflexivity. }
      destruct Hs as [rest Hs]. exists rest. now rewrite Hs.
    + intros d H. bind_inv H top Htop.
      assert (Hall : Forall (fun q : PTup Score (option DecState) =>
                               (2 <= length (sequence q))%nat) top).
      { simpl search in Htop. bind_inv Htop r Hr.
        assert (Hr2 : Forall (fun q : PTup Score (option DecState) =>
                                (2 <= length (sequence q))%nat) (fst r)).
        { unfold step in Hr. bind_inv Hr cur Hcur.
          inversion Hr; subst; simpl.
          apply slice_to_Forall, sort_desc_Forall.
          simpl collect in Hcur. rewrite Hnot in Hcur.
          bind_inv Hcur new Hnew. inversion Hcur; subst. simpl.
          apply basenet_expand_length in Hnew.
          eapply Forall_impl; [|exact Hnew]. simpl. intros q ->. lia. }
        destruct (snd r).
        - now inversion Htop; subst.
        - eapply search_Forall; [|exact Hr2|exact Htop].
          intros p new Hp Hnew. apply basenet_expand_length in Hnew.
          eapply Forall_impl; [|exact Hnew]. simpl. intros q ->. lia. }
      destruct heuristics; inversion H; subst; simpl.
      * now apply Forall_map.
      * now apply Forall_map.
  - intros Heq Hbw.
    unfold basenet_inference.
    rewrite (bind_eq _ _ _ (lift (first_tok src)) _ start_tok Hstart).
    rewrite (bind_eq _ _ _ (lift (last_tok src)) _ end_tok Hend).
    rewrite (bind_eq _ _ _ (tell (EncoderCall src) (Ok (encoder src))) _
               (encoder src) eq_refl).
    rewrite search_terminated_singleton;
      [|exact Hbw|unfold ends_with; simpl; now apply Z.eqb_eq].
    destruct heuristics; reflexivity.
Qed.

(** C7 (as the code has it).  [basenet_inference] has no shortcut for the
    input [[Start, End]]: when the first and last input tokens differ, the
    search starts (for [max_tgt_sz >= 1]) with a decoder call on the
    Start-only hypothesis, and every sequence returned has at least two
    tokens.  When the first and last tokens are equal (a one-token input,
    for one) the Start-only hypothesis is taken as terminated: for
    [beam_width >= 1] the call returns it alone, and no decoder call is
    made.  For [max_tgt_sz >= 1] and [beam_width >= 1] the call makes no
    decoder call exactly when the first and last tokens are equal. *)
Theorem start_end_input_is_expanded
    (src : list Token) (start_tok end_tok : Token)
    (beam_width max_tgt_sz : Z) (heuristics : bool) :
  first_tok src = Ok start_tok -> last_tok src = Ok end_tok ->
  (start_tok <> end_tok -> (1 <= max_tgt_sz)%Z ->
   (exists rest,
       snd (basenet src beam_width max_tgt_sz heuristics)
       = [EncoderCall src;
          DecoderCall start_tok (init_hidden pass_enc2dec_hid
                                   (snd (encoder src)))] ++ rest)
   /\ forall d,
       fst (basenet src beam_width max_tgt_sz heuristics) = Ok d ->
       Forall (fun s => (2 <= length s)%nat) (sequences_of d))
  /\ (start_tok = end_tok -> (1 <= beam_width)%Z ->
      basenet src beam_width max_tgt_sz heuristics
      = (Ok (if heuristics
             then Tuples [ {| score := s_zero; sequence := [start_tok];
                              state := init_hidden pass_enc2dec_hid
                                         (snd (encoder src)) |} ]
             else Sequences [[start_tok]]),
         [EncoderCall src]))
  /\ ((1 <= max_tgt_sz)%Z -> (1 <= beam_width)%Z ->
      (snd (basenet src beam_width max_tgt_sz heuristics) = [EncoderCall src]
       <-> start_tok = end_tok)).
Proof.
  intros Hstart Hend.
  destruct (start_end_input_cases src start_tok end_tok beam_width
              max_tgt_sz heuristics Hstart Hend) as [Hlive Hdone].
  split; [exact Hlive|]. split; [exact Hdone|].
  intros Hmax Hbw. split.
  - intros Hlog.
    destruct (Z.eq_dec start_tok end_tok) as [Heq|Hne]; [exact Heq|].
    destruct (Hlive Hne Hmax) as [[rest Hrest] _].
    rewrite Hrest in Hlog. discriminate Hlog.
  - intros Heq. now rewrite (Hdone Heq Hbw).
Qed.

(** C8 (as the code has it).  The decoders check neither [beam_width] nor
    [max_tgt_sz]: with [max_tgt_sz < 1] the loop body never runs and each of
    the three calls returns the Start-only hypothesis, with no decoder call;
    with [beam_width = 0] (and a decoder step that succeeds) the first
    iteration of [basenet_inference] empties the beam and the call returns an
    empty list. *)
Theorem unchecked_configuration_returns
    (src : list Token) (start_tok end_tok : Token)
    (beam_width max_tgt_sz : Z) (heuristics : bool) :
  first_tok src = Ok start_tok -> last_tok src = Ok end_tok ->
  ((max_tgt_sz < 1)%Z ->
   basenet src beam_width max_tgt_sz heuristics
   = (Ok (if heuristics
          then Tuples [ {| score := s_zero; sequence := [start_tok];
                           state := init_hidden pass_enc2dec_hid
                                      (snd (encoder src)) |} ]
          else Sequences [[start_tok]]),
      [EncoderCall src])
   /\ (forall lm, lm_decoder = Some lm ->
       shallow src beam_width max_tgt_sz
       = (Ok [[start_tok]], [EncoderCall src]))
   /\ deep src beam_width max_tgt_sz = (Ok [[start_tok]], [EncoderCall src]))
  /\ ((1 <= max_tgt_sz)%Z ->
      (start_tok = end_tok
       \/ exists out,
            decoder start_tok (init_hidden pass_enc2dec_hid
                                 (snd (encoder src)))
              (fst (encoder src)) = Ok out) ->
      fst (basenet src 0 max_tgt_sz heuristics)
      = Ok (if heuristics then Tuples [] else Sequences [])).
Proof.
  intros Hstart Hend. split.
  - intros Hmax. split; [|split].
    + unfold basenet_inference.
      rewrite (bind_eq _ _ _ (lift (first_tok src)) _ start_tok Hstart).
      rewrite (bind_eq _ _ _ (lift (last_tok src)) _ end_tok Hend).
      rewrite (bind_eq _ _ _ (tell (EncoderCall src) (Ok (encoder src))) _
                 (encoder src) eq_refl).
      replace (Z.to_nat max_tgt_sz) with 0%nat by lia.
      destruct heuristics; reflexivity.
    + intros lm Hlm. unfold shallow_fuse_inference. rewrite Hlm.
      rewrite (bind_eq _ _ _ (lift (first_tok src)) _ start_tok Hstart).
      rewrite (bind_eq _ _ _ (lift (last_tok src)) _ end_tok Hend).
      rewrite (bind_eq _ _ _ (tell (EncoderCall src) (Ok (encoder src))) _
                 (encoder src) eq_refl).
      replace (Z.to_nat max_tgt_sz) with 0%nat by lia.
      reflexivity.
    + unfold deep_fuse_inference.
      rewrite (bind_eq _ _ _ (lift (first_tok src)) _ start_tok Hstart).
      rewrite (bind_eq _ _ _ (lift (last_tok src)) _ end_tok Hend).
      rewrite (bind_eq _ _ _ (tell (EncoderCall src) (Ok (encoder src))) _
                 (encoder src) eq_refl).
      replace (Z.to_nat max_tgt_sz) with 0%nat by lia.
      reflexivity.
  - intros Hmax Hdec. unfold basenet_inference.
    rewrite (bind_eq _ _ _ (lift (first_tok src)) _ start_tok Hstart).
    rewrite (bind_eq _ _ _ (lift (last_tok src)) _ end_tok Hend).
    rewrite (bind_eq _ _ _ (tell (EncoderCall src) (Ok (encoder src))) _
               (encoder src) eq_refl).
    destruct (Z.to_nat max_tgt_sz) as [|n] eqn:En; [lia|].
    simpl search. unfold step. simpl collect.
    destruct (ends_with [start_tok] end_tok) eqn:Eends.
    + unfold bind, ret. simpl. destruct heuristics; reflexivity.
    + destruct Hdec as [Heq|[out Hout]].
      * unfold ends_with in Eends. simpl in Eends.
        apply Z.eqb_neq in Eends. contradiction.
      * unfold basenet_expand, call_decoder, tell, lift, x_of. simpl.
        unfold bind, ret. simpl. rewrite Hout. simpl.
        rewrite topk_zero. simpl.
        destruct heuristics; reflexivity.
Qed.
End DecodeFacts.

(** ** Order of the beam *)

Section PruneFacts.
Variables (Score DecState LmState St : Type).
Variable s_leb : Score -> Score -> bool.
Variable beam_width : Z.
Variable end_tok : Token.
Variable expand : PTup Score St -> Py DecState LmState (list (PTup Score St)).

Hypothesis s_leb_total : forall a b, s_leb a b = true \/ s_leb b a = true.
Hypothesis s_leb_trans :
  forall a b c, s_leb a b = true -> s_leb b c = true -> s_leb a c = true.

Lemma prune_sorted (cur : list (PTup Score St)) :
  StronglySorted (desc (@score Score St) s_leb) (prune s_leb beam_width cur).
Proof.
  unfold prune.
  destruct (slice_to_prefix _ (sort_desc (@score _ _) s_leb cur) beam_width)
    as [rest E].
  pose proof (sort_desc_sorted _ _ (@score Score St) s_leb
                s_leb_total s_leb_trans cur) as Hs.
  rewrite E in Hs. now apply StronglySorted_app_l in Hs.
Qed.

Lemma prune_stable (k : Score) (cur : list (PTup Score St)) :
  exists m,
    filter (tie (@score Score St) s_leb k) (prune s_leb beam_width cur)
    = firstn m (filter (tie (@score Score St) s_leb k) cur).
Proof.
  unfold prune.
  destruct (slice_to_prefix _ (sort_desc (@score _ _) s_leb cur) beam_width)
    as [rest E].
  eexists.
  rewrite <- (sort_desc_stable _ _ (@score Score St) s_leb s_leb_trans k cur).
  rewrite E at 2. apply filter_prefix.
Qed.

(** C2.  Each iteration of the search loop leaves a beam that is sorted by
    score in descending order; hypotheses whose scores tie appear in the
    order in which they were appended to [cur_pred_list] (those kept are a
    prefix of the tying candidates).  The loop of every decoder is [search],
    which only runs [step], so this covers every step of every decode. *)
Theorem beam_sorted_descending_stable (top : list (PTup Score St)) r :
  fst (step s_leb beam_width end_tok expand top) = Ok r ->
  exists cur,
    fst (collect end_tok expand top []) = Ok cur
    /\ fst r = slice_to (sort_desc (@score Score St) s_leb cur) beam_width
    /\ StronglySorted (desc (@score Score St) s_leb) (fst r)
    /\ forall k, exists m,
         filter (tie (@score Score St) s_leb k) (fst r)
         = firstn m (filter (tie (@score Score St) s_leb k) cur).
Proof.
  unfold step. intros H. bind_inv H cur Hcur.
  exists cur. inversion H; subst; simpl.
  split; [exact Hcur|]. split; [reflexivity|].
  split; [apply prune_sorted|intros k; apply prune_stable].
Qed.

(** The beam a search of at least one iteration ends with is sorted. *)
Lemma search_sorted (n : nat) (top r : list (PTup Score St)) :
  (0 < n)%nat \/ StronglySorted (desc (@score Score St) s_leb) top ->
  fst (search s_leb beam_width end_tok expand n top) = Ok r ->
  StronglySorted (desc (@score Score St) s_leb) r.
Proof.
  revert top. induction n as [|n IH]; simpl; intros top Hn H.
  - inversion H; subst. destruct Hn; [lia|assumption].
  - bind_inv H st Hst.
    assert (Hs : StronglySorted (desc (@score Score St) s_leb) (fst st)).
    { unfold step in Hst. bind_inv Hst cur Hcur.
      inversion Hst; subst; simpl. apply prune_sorted. }
    destruct (snd st).
    + now inversion H; subst.
    + eapply IH; eauto.
Qed.
End PruneFacts.

Lemma Zleb_total (a b : Z) : Z.leb a b = true \/ Z.leb b a = true.
Proof. destruct (Z.leb_spec a b); [left; reflexivity|right; apply Z.leb_le; lia]. Qed.

Lemma Zleb_trans (a b c : Z) :
  Z.leb a b = true -> Z.leb b c = true -> Z.leb a c = true.
Proof. rewrite !Z.leb_le. lia. Qed.

(** ** Runs of the decoders on the small network *)

(** The scenario of the specification: input [[Start, a, b, End]], beam
    width 2, at most 5 steps. *)
Example toy_basenet_run :
  Toy.basenet [0; 1; 2; 3]%Z 2 5 false
  = (Ok (Sequences [[0; 1; 3]; [0; 1; 2; 1; 3]]%Z),
     [EncoderCall [0; 1; 2; 3]%Z; DecoderCall 0%Z (Some 0%nat);
      DecoderCall 1%Z (Some 1%nat); DecoderCall 2%Z (Some 1%nat);
      DecoderCall 2%Z (Some 2%nat); DecoderCall 1%Z (Some 3%nat)]).
Proof. reflexivity. Qed.

Example toy_shallow_run :
  fst (Toy.shallow [0; 1; 2; 3]%Z 2 5) = Ok [[0; 1; 3]; [0; 1; 2; 1; 3]]%Z.
Proof. reflexivity. Qed.

Example toy_shallow_step_run :
  Toy.shallow_step 2%Z 3%Z Toy.fused_beam
  = (Ok ([ {| score := (-6)%Z; sequence := [0; 1; 3]%Z;
              state := (Some 2%nat, Some 2%nat) |};
           {| score := (-9)%Z; sequence := [0; 2; 1]%Z;
              state := (Some 2%nat, Some 2%nat) |} ], false),
     [DecoderCall 2%Z (Some 1%nat); LmCall 2%Z (Some 1%nat)]).
Proof. reflexivity. Qed.

Example toy_deep_step_run :
  Toy.deep_step 2%Z 3%Z Toy.fused_beam
  = (Ok ([ {| score := (-6)%Z; sequence := [0; 1; 3]%Z;
              state := (Some 2%nat, Some 2%nat) |};
           {| score := (-7)%Z; sequence := [0; 2; 3]%Z;
              state := (Some 2%nat, Some 2%nat) |} ], true),
     [DecoderHiddenCall 2%Z (Some 1%nat); LmHiddenCall 2%Z (Some 1%nat)]).
Proof. reflexivity. Qed.

Lemma decode_returns_beam_witness :
  (1 <= 2)%Z /\ (1 <= 5)%Z
  /\ fst (Toy.basenet [0; 1; 2; 3]%Z 2 5 false)
     = Ok (Sequences [[0; 1; 3]; [0; 1; 2; 1; 3]]%Z)
  /\ exists start_tok,
       first_tok [0; 1; 2; 3]%Z = Ok start_tok
       /\ (Z.of_nat (length [[0; 1; 3]; [0; 1; 2; 1; 3]]%Z) <= 2)%Z
       /\ Forall (fun s => first_tok s = Ok start_tok)
            [[0; 1; 3]; [0; 1; 2; 1; 3]]%Z.
Proof.
  split; [lia|]. split; [lia|]. split; [reflexivity|].
  exact (proj1
           (decode_returns_beam_of_start_sequences
              Z 0%Z Z.add Z.leb nat nat (list Token) Z Toy.encoder true
              Toy.decoder Toy.decoder_get_hidden (Some Toy.lm)
              (Some Toy.deep) Z.of_nat Z.of_nat Z.mul Z.add Toy.log_softmax
              [0; 1; 2; 3]%Z 2%Z 5%Z ltac:(lia) ltac:(lia))
           false (Sequences [[0; 1; 3]; [0; 1; 2; 1; 3]]%Z) eq_refl).
Defined.

Lemma beam_sorted_witness :
  (forall a b, Z.leb a b = true \/ Z.leb b a = true)
  /\ (forall a b c, Z.leb a b = true -> Z.leb b c = true -> Z.leb a c = true)
  /\ fst (Toy.basenet_step 2%Z 3%Z Toy.beam)
     = Ok ([ {| score := (-2)%Z; sequence := [0; 1; 3]%Z;
                state := Some 2%nat |};
             {| score := (-2)%Z; sequence := [0; 2; 1]%Z;
                state := Some 2%nat |} ], false)
  /\ exists cur,
       fst (collect 3%Z
              (basenet_expand Z.add Z.leb nat Toy.decoder Toy.log_softmax
                 2%Z Toy.enc_output) Toy.beam []) = Ok cur
       /\ [ {| score := (-2)%Z; sequence := [0; 1; 3]%Z;
               state := Some 2%nat |};
            {| score := (-2)%Z; sequence := [0; 2; 1]%Z;
               state := Some 2%nat |} ]
          = slice_to (sort_desc (@score Z (option nat)) Z.leb cur) 2
       /\ StronglySorted (desc (@score Z (option nat)) Z.leb)
            [ {| score := (-2)%Z; sequence := [0; 1; 3]%Z;
                 state := Some 2%nat |};
              {| score := (-2)%Z; sequence := [0; 2; 1]%Z;
                 state := Some 2%nat |} ]
       /\ forall k, exists m,
            filter (tie (@score Z (option nat)) Z.leb k)
              [ {| score := (-2)%Z; sequence := [0; 1; 3]%Z;
                   state := Some 2%nat |};
                {| score := (-2)%Z; sequence := [0; 2; 1]%Z;
                   state := Some 2%nat |} ]
            = firstn m (filter (tie (@score Z (option nat)) Z.leb k) cur).
Proof.
  split; [exact Zleb_total|]. split; [exact Zleb_trans|].
  split; [reflexivity|].
  exact (beam_sorted_descending_stable Z nat nat (option nat) Z.leb 2%Z 3%Z
           (basenet_expand Z.add Z.leb nat Toy.decoder Toy.log_softmax
              2%Z Toy.enc_output)
           Zleb_total Zleb_trans Toy.beam _ eq_refl).
Defined.

Lemma shallow_step_score_witness :
  fst (shallow_expand Z.add Z.leb Toy.decoder Toy.log_softmax
         ToyMore.lm_skewed 2%Z Toy.enc_output
         {| score := 0%Z; sequence := [0%Z]; state := (Some 0%nat, None) |})
  = Ok [ {| score := (-3)%Z; sequence := [0; 1]%Z;
            state := (Some 1%nat, Some 1%nat) |};
         {| score := (-4)%Z; sequence := [0; 0]%Z;
            state := (Some 1%nat, Some 1%nat) |} ]
  /\ (forall a b, Z.leb a b = true \/ Z.leb b a = true)
  /\ (forall a b c, Z.leb a b = true -> Z.leb b c = true -> Z.leb a c = true)
  /\ exists out,
       Toy.decoder 0%Z (Some 0%nat) Toy.enc_output = Ok out
       /\ length (Toy.log_softmax (fst out))
          = length (Toy.log_softmax
                      (fst (decoding ToyMore.lm_skewed 0%Z None)))
       /\ snd (shallow_expand Z.add Z.leb Toy.decoder Toy.log_softmax
                 ToyMore.lm_skewed 2%Z Toy.enc_output
                 {| score := 0%Z; sequence := [0%Z];
                    state := (Some 0%nat, None) |})
          = [DecoderCall 0%Z (Some 0%nat); LmCall 0%Z None]
       /\ Forall (fun q => exists tok d l,
                    (0 <= tok)%Z
                    /\ nth_error (Toy.log_softmax (fst out)) (Z.to_nat tok)
                       = Some d
                    /\ nth_error
                         (Toy.log_softmax
                            (fst (decoding ToyMore.lm_skewed 0%Z None)))
                         (Z.to_nat tok) = Some l
                    /\ score q = (0 + (d + l))%Z
                    /\ sequence q = [0%Z] ++ [tok]
                    /\ state q
                       = (Some (snd out),
                          Some (snd (decoding ToyMore.lm_skewed 0%Z None))))
            [ {| score := (-3)%Z; sequence := [0; 1]%Z;
                 state := (Some 1%nat, Some 1%nat) |};
              {| score := (-4)%Z; sequence := [0; 0]%Z;
                 state := (Some 1%nat, Some 1%nat) |} ]
       /\ exists toks,
            [[0; 1]; [0; 0]]%Z = map (fun tok => [0%Z] ++ [tok]) toks
            /\ Z.of_nat (length toks) = 2%Z
            /\ NoDup toks
            /\ forall tok j v w,
                 In tok toks -> ~ In j toks ->
                 spec_shallow_score Z.add Toy.log_softmax (fst out)
                   (fst (decoding ToyMore.lm_skewed 0%Z None)) tok = Some v ->
                 spec_shallow_score Z.add Toy.log_softmax (fst out)
                   (fst (decoding ToyMore.lm_skewed 0%Z None)) j = Some w ->
                 Z.leb w v = true.
Proof.
  split; [reflexivity|]. split; [exact Zleb_total|].
  split; [exact Zleb_trans|].
  destruct (shallow_step_score_is_sum_of_log_softmax Z Z.add Z.leb nat nat
              (list Token) Toy.decoder Toy.log_softmax ToyMore.lm_skewed 2%Z
              Toy.enc_output
              {| score := 0%Z; sequence := [0%Z];
                 state := (Some 0%nat, None) |}
              _ eq_refl) as (out & Hout & Hlog & Hsum & Htop).
  assert (Hlen : length (Toy.log_softmax (fst out))
                 = length (Toy.log_softmax
                             (fst (decoding ToyMore.lm_skewed 0%Z None)))).
  { injection Hout as <-. reflexivity. }
  exists out. split; [exact Hout|]. split; [exact Hlen|].
  split; [exact Hlog|].
  split; [exact (Hsum Hlen)|exact (Htop Hlen Zleb_total Zleb_trans)].
Defined.

Lemma terminated_hypothesis_witness :
  fst (Toy.basenet_step 2%Z 3%Z Toy.beam)
  = Ok ([ {| score := (-2)%Z; sequence := [0; 1; 3]%Z;
             state := Some 2%nat |};
          {| score := (-2)%Z; sequence := [0; 2; 1]%Z;
             state := Some 2%nat |} ], false)
  /\ exists cur,
       fst (collect 3%Z
              (basenet_expand Z.add Z.leb nat Toy.decoder Toy.log_softmax
                 2%Z Toy.enc_output) Toy.beam []) = Ok cur
       /\ [ {| score := (-2)%Z; sequence := [0; 1; 3]%Z;
               state := Some 2%nat |};
            {| score := (-2)%Z; sequence := [0; 2; 1]%Z;
               state := Some 2%nat |} ]
          = prune Z.leb 2 cur
       /\ (forall p, In p Toy.beam -> ends_with (sequence p) 3%Z = true ->
                     In p cur)
       /\ snd (Toy.basenet_step 2%Z 3%Z Toy.beam)
          = [DecoderCall 2%Z (Some 1%nat)].
Proof.
  split; [reflexivity|].
  exact (proj1
           (terminated_hypothesis_carried_not_expanded
              Z Z.add Z.leb nat nat (list Token) Z Toy.decoder
              Toy.decoder_get_hidden (Some Toy.lm) (Some Toy.deep)
              Z.of_nat Z.of_nat Z.mul Z.add Toy.log_softmax
              2%Z 3%Z Toy.enc_output)
           Toy.beam _ eq_refl).
Defined.

(** C7, refuted as stated: on the input [[Start, End] = [0; 3]] the call
    does not return the one-token sequence, and the decoder is called on
    Start. *)
Lemma degenerate_input_counterexample :
  ~ (exists log,
        Toy.basenet [0; 3]%Z 2 5 false = (Ok (Sequences [[0%Z]]), log)
        /\ forall x hidden, ~ In (DecoderCall x hidden) log).
Proof.
  intros (log & H & _). vm_compute in H. discriminate H.
Qed.

Lemma start_end_input_witness :
  (first_tok [0; 3]%Z = Ok 0%Z /\ last_tok [0; 3]%Z = Ok 3%Z
   /\ 0%Z <> 3%Z /\ (1 <= 5)%Z
   /\ (exists rest,
          snd (Toy.basenet [0; 3]%Z 2 5 false)
          = [EncoderCall [0; 3]%Z; DecoderCall 0%Z (Some 0%nat)] ++ rest)
   /\ forall d,
       fst (Toy.basenet [0; 3]%Z 2 5 false) = Ok d ->
       Forall (fun s => (2 <= length s)%nat)
         match d with
         | Sequences l => l
         | Tuples l => map (@sequence Z (option nat)) l
         end)
  /\ (first_tok [0%Z] = Ok 0%Z /\ last_tok [0%Z] = Ok 0%Z
      /\ 0%Z = 0%Z /\ (1 <= 2)%Z
      /\ Toy.basenet [0%Z] 2 5 false
         = (Ok (Sequences [[0%Z]]), [EncoderCall [0%Z]]))
  /\ ((1 <= 5)%Z /\ (1 <= 2)%Z
      /\ (snd (Toy.basenet [0; 3]%Z 2 5 false) = [EncoderCall [0; 3]%Z]
          <-> 0%Z = 3%Z)).
Proof.
  split; [|split].
  - split; [reflexivity|]. split; [reflexivity|].
    split; [discriminate|]. split; [lia|].
    exact (proj1
             (start_end_input_is_expanded Z 0%Z Z.add Z.leb nat nat
                (list Token) Toy.encoder true Toy.decoder Toy.log_softmax
                [0; 3]%Z 0%Z 3%Z 2%Z 5%Z false eq_refl eq_refl)
             ltac:(discriminate) ltac:(lia)).
  - split; [reflexivity|]. split; [reflexivity|].
    split; [reflexivity|]. split; [lia|].
    exact (proj1
             (proj2
                (start_end_input_is_expanded Z 0%Z Z.add Z.leb nat nat
                   (list Token) Toy.encoder true Toy.decoder Toy.log_softmax
                   [0%Z] 0%Z 0%Z 2%Z 5%Z false eq_refl eq_refl))
             eq_refl ltac:(lia)).
  - split; [lia|]. split; [lia|].
    exact (proj2
             (proj2
                (start_end_input_is_expanded Z 0%Z Z.add Z.leb nat nat
                   (list Token) Toy.encoder true Toy.decoder Toy.log_softmax
                   [0; 3]%Z 0%Z 3%Z 2%Z 5%Z false eq_refl eq_refl))
             ltac:(lia) ltac:(lia)).
Defined.

(** C8, refuted as stated: with [max_tgt_sz = 0] and with [beam_width = 0]
    the call returns a result. *)
Lemma unchecked_configuration_counterexample :
  Toy.basenet [0; 3]%Z 2 0 false = (Ok (Sequences [[0%Z]]), [EncoderCall [0; 3]%Z])
  /\ Toy.basenet [0; 3]%Z 0 5 false
     = (Ok (Sequences []),
        [EncoderCall [0; 3]%Z; DecoderCall 0%Z (Some 0%nat)]).
Proof. split; reflexivity. Qed.

Lemma unchecked_configuration_witness :
  first_tok [0; 3]%Z = Ok 0%Z /\ last_tok [0; 3]%Z = Ok 3%Z
  /\ ((0 < 1)%Z
      /\ Toy.basenet [0; 3]%Z 2 0 false
         = (Ok (Sequences [[0%Z]]), [EncoderCall [0; 3]%Z])
      /\ Toy.shallow [0; 3]%Z 2 0 = (Ok [[0%Z]], [EncoderCall [0; 3]%Z])
      /\ Toy.deep_fuse [0; 3]%Z 2 0 = (Ok [[0%Z]], [EncoderCall [0; 3]%Z]))
  /\ ((1 <= 5)%Z
      /\ (exists out, Toy.decoder 0%Z (Some 0%nat) [0; 3]%Z = Ok out)
      /\ fst (Toy.basenet [0; 3]%Z 0 5 false) = Ok (Sequences [])).
Proof.
  split; [reflexivity|]. split; [reflexivity|]. split.
  - split; [lia|].
    pose proof (proj1
                  (unchecked_configuration_returns
                     Z 0%Z Z.add Z.leb nat nat (list Token) Z Toy.encoder
                     true Toy.decoder Toy.decoder_get_hidden (Some Toy.lm)
                     (Some Toy.deep) Z.of_nat Z.of_nat Z.mul Z.add
                     Toy.log_softmax [0; 3]%Z 0%Z 3%Z 2%Z 0%Z false
                     eq_refl eq_refl)
                  ltac:(lia)) as (Hb & Hs & Hd).
    split; [exact Hb|]. split; [exact (Hs Toy.lm eq_refl)|exact Hd].
  - split; [lia|]. split; [eexists; reflexivity|].
    exact (proj2
             (unchecked_configuration_returns
                Z 0%Z Z.add Z.leb nat nat (list Token) Z Toy.encoder
                true Toy.decoder Toy.decoder_get_hidden (Some Toy.lm)
                (Some Toy.deep) Z.of_nat Z.of_nat Z.mul Z.add
                Toy.log_softmax [0; 3]%Z 0%Z 3%Z 0%Z 5%Z false
                eq_refl eq_refl)
             ltac:(lia)
             (or_intror (ex_intro _ _ eq_refl))).
Defined.

(** ** The attention step *)

Section AttentionFacts.
Local Open Scope R_scope.

Lemma rsum_exp_nonneg (l : list R) : 0 <= rsum (map exp l).
Proof.
  induction l as [|a l IH]; simpl; [lra|].
  pose proof (exp_pos a). lra.
Qed.

Lemma rsum_exp_pos (l : list R) : l <> [] -> 0 < rsum (map exp l).
Proof.
  destruct l as [|a l]; [congruence|]. intros _. simpl.
  pose proof (exp_pos a). pose proof (rsum_exp_nonneg l). lra.
Qed.

Lemma rsum_map_div (A : Type) (f : A -> R) (c : R) (l : list A) :
  rsum (map (fun x => f x / c) l) = rsum (map f l) / c.
Proof.
  induction l as [|a l IH]; simpl.
  - unfold Rdiv. ring.
  - rewrite IH. unfold Rdiv. ring.
Qed.

Lemma softmax_length (l : list R) : length (softmax l) = length l.
Proof. unfold softmax. apply length_map. Qed.

Lemma softmax_nonneg (l : list R) : Forall (fun w => 0 <= w) (softmax l).
Proof.
  unfold softmax. apply Forall_map, Forall_forall. intros x Hx.
  assert (Hl : l <> []) by (intros ->; contradiction).
  apply Rlt_le, Rdiv_lt_0_compat; [apply exp_pos|now apply rsum_exp_pos].
Qed.

Lemma softmax_sum (l : list R) : l <> [] -> rsum (softmax l) = 1.
Proof.
  intros Hl. unfold softmax. rewrite (rsum_map_div R exp).
  pose proof (rsum_exp_pos l Hl). field. lra.
Qed.

Lemma vadd_length (a b : Vector) :
  length a = length b -> length (vadd a b) = length a.
Proof.
  intros H. unfold vadd. rewrite length_map, length_combine. lia.
Qed.

Lemma vadd_nth (a b : Vector) (j : nat) :
  length a = length b -> nth j (vadd a b) 0 = nth j a 0 + nth j b 0.
Proof.
  revert b j. induction a as [|x a IH]; intros [|y b] j H;
    try discriminate H.
  - destruct j; simpl; lra.
  - destruct j as [|j]; simpl; [reflexivity|].
    apply IH. simpl in H. lia.
Qed.

Lemma vadd_zeros (v : Vector) : vadd v (repeat 0 (length v)) = v.
Proof.
  induction v as [|x v IH]; simpl; [reflexivity|].
  unfold vadd in *. simpl. rewrite IH. f_equal. lra.
Qed.

Lemma vscale_nth (w : R) (v : Vector) (j : nat) :
  nth j (vscale w v) 0 = w * nth j v 0.
Proof.
  revert j. induction v as [|x v IH]; intros [|j]; simpl; try lra.
  apply IH.
Qed.

Lemma sum_axis0_length (dim : nat) (rows : list Vector) :
  Forall (fun r => length r = dim) rows ->
  length (sum_axis0 dim rows) = dim.
Proof.
  induction 1 as [|r rows Hr _ IH]; simpl.
  - apply repeat_length.
  - rewrite vadd_length; congruence.
Qed.

(** [sum_axis0] adds the rows coordinate by coordinate. *)
Lemma sum_axis0_nth (dim : nat) (rows : list Vector) (j : nat) :
  Forall (fun r => length r = dim) rows ->
  nth j (sum_axis0 dim rows) 0 = rsum (map (fun r => nth j r 0) rows).
Proof.
  induction 1 as [|r rows Hr Hrows IH]; simpl.
  - apply nth_repeat.
  - rewrite vadd_nth, IH; [reflexivity|].
    rewrite sum_axis0_length; assumption.
Qed.

Lemma sum_axis0_single (dim : nat) (v : Vector) :
  length v = dim -> sum_axis0 dim [v] = v.
Proof. intros <-. simpl. apply vadd_zeros. Qed.

(** A vector is the table of its coordinates. *)
Lemma tabulate_ext (dim : nat) (v : Vector) (f : nat -> R) :
  length v = dim ->
  (forall j, (j < dim)%nat -> nth j v 0 = f j) ->
  v = map f (seq 0 dim).
Proof.
  intros Hlen Hf. apply (nth_ext _ _ 0 (f 0%nat)).
  - now rewrite length_map, length_seq.
  - intros j Hj. rewrite Hlen in Hj. rewrite map_nth, seq_nth by exact Hj.
    now apply Hf.
Qed.

Variable self : Decoder.

(** C5.  For a non-empty encoder output and a state of any number of
    layers, [attention] uses the state only through the sum of its layers
    (coordinate by coordinate; the call on the layers and the call on their
    sum as a one-layer state agree); the weights are a softmax over the
    positions: one per position, none negative, of sum 1; and the vector
    returned is the context, the weighted sum of the encoder vectors under
    these weights, followed by the embedded token.  The weights are those
    of the specification's algorithm on the layer sum,
    [softmax_i (V (tanh (W1 enc_i + W2 hidden_summed)))], and the context is
    its weighted sum of the encoder outputs. *)
Theorem attention_sums_layers_and_normalises
    (x : Vector) (hidden enc_output : list Vector) :
  enc_output <> [] ->
  Forall (fun e => length e = enc_outstate_dim self) enc_output ->
  Forall (fun h => length h = dec_hidden_dim self) hidden ->
  let hidden_sum := sum_axis0 (dec_hidden_dim self) hidden in
  let weights := snd (attention self x hidden enc_output) in
  (forall j, nth j hidden_sum 0 = rsum (map (fun h => nth j h 0) hidden))
  /\ attention self x hidden enc_output
     = attention self x [hidden_sum] enc_output
  /\ length weights = length enc_output
  /\ Forall (fun w => 0 <= w) weights
  /\ rsum weights = 1
  /\ exists context,
       fst (attention self x hidden enc_output) = context ++ x
       /\ length context = enc_outstate_dim self
       /\ (forall j, nth j context 0
                     = rsum (map (fun we => fst we * nth j (snd we) 0)
                               (combine weights enc_output)))
       /\ hidden_sum = spec_hidden_summed (dec_hidden_dim self) hidden
       /\ weights
          = spec_attention_weights self
              (spec_hidden_summed (dec_hidden_dim self) hidden) enc_output
       /\ context
          = spec_context (enc_outstate_dim self)
              (spec_attention_weights self
                 (spec_hidden_summed (dec_hidden_dim self) hidden)
                 enc_output)
              enc_output.
Proof.
  intros Hne Henc Hhid hidden_sum weights.
  assert (Hw : length weights = length enc_output).
  { unfold weights, attention. simpl.
    now rewrite softmax_length, !length_map. }
  split; [intros j; now apply sum_axis0_nth|].
  split.
  { unfold attention. fold hidden_sum.
    rewrite (sum_axis0_single (dec_hidden_dim self) hidden_sum);
      [reflexivity|now apply sum_axis0_length]. }
  split; [exact Hw|].
  split; [apply softmax_nonneg|].
  split.
  { apply softmax_sum. destruct enc_output; [congruence|discriminate]. }
  exists (sum_axis0 (enc_outstate_dim self)
            (map (fun we => vscale (fst we) (snd we))
               (combine weights enc_output))).
  assert (Hrows : Forall (fun r => length r = enc_outstate_dim self)
                    (map (fun we => vscale (fst we) (snd we))
                       (combine weights enc_output))).
  { apply Forall_map, Forall_forall. intros [w e] Hin. simpl.
    unfold vscale. rewrite length_map.
    apply in_combine_r in Hin.
    revert e Hin. now apply Forall_forall. }
  assert (Hnth : forall j,
             nth j (sum_axis0 (enc_outstate_dim self)
                      (map (fun we => vscale (fst we) (snd we))
                         (combine weights enc_output))) 0
             = rsum (map (fun we => fst we * nth j (snd we) 0)
                       (combine weights enc_output))).
  { intros j. rewrite sum_axis0_nth by exact Hrows.
    rewrite map_map. f_equal. apply map_ext.
    intros [w e]. simpl. apply vscale_nth. }
  assert (Hsum : hidden_sum = spec_hidden_summed (dec_hidden_dim self) hidden).
  { apply tabulate_ext.
    - now apply sum_axis0_length.
    - intros j _. now apply sum_axis0_nth. }
  assert (Hweights : weights
                     = spec_attention_weights self
                         (spec_hidden_summed (dec_hidden_dim self) hidden)
                         enc_output).
  { rewrite <- Hsum. unfold weights, attention, spec_attention_weights,
      spec_position_score, softmax. simpl. fold hidden_sum.
    now rewrite !map_map. }
  split; [reflexivity|]. split; [now apply sum_axis0_length|].
  split; [exact Hnth|]. split; [exact Hsum|]. split; [exact Hweights|].
  rewrite <- Hweights. apply tabulate_ext.
  - now apply sum_axis0_length.
  - intros j _. apply Hnth.
Qed.
End AttentionFacts.

(** ** The two paths of the decoder step *)

Section DecoderFacts.
Variable self : Decoder.

(** C9.  For an LSTM decoder with attention and a state [(h_n, c_n)],
    [forward] conditions the attention on [c_n] (index 1) and [get_hidden]
    on [h_n] (index 0), for every token, state and encoder output; both then
    embed the token, run the recurrent cell on the attended input and the
    whole state, and differ only in that [forward] also projects the output
    through [fc]: on a state whose two parts are equal they reach the same
    new state. *)
Theorem lstm_attention_state_asymmetry
    (x : Token) (h_n c_n : list Vector) (enc_output : list Vector) :
  dec_rnn_type self = LSTM -> use_attention self = true ->
  hid_for_att_forward self (Some (Pair h_n c_n)) = Ok c_n
  /\ hid_for_att_get_hidden self (Some (Pair h_n c_n)) = Ok h_n
  /\ forward self x (Some (Pair h_n c_n)) enc_output
     = (let a := attention self (embedding self x) c_n enc_output in
        let oh := dec_rnn self (fst a) (Some (Pair h_n c_n)) in
        Ok (fc self (fst oh), snd oh, Some (snd a)))
  /\ decoder_get_hidden self x (Some (Pair h_n c_n)) enc_output
     = (let a := attention self (embedding self x) h_n enc_output in
        let oh := dec_rnn self (fst a) (Some (Pair h_n c_n)) in
        Ok (snd oh))
  /\ (h_n = c_n ->
      exists output hidden' aw,
        forward self x (Some (Pair h_n c_n)) enc_output
        = Ok (output, hidden', aw)
        /\ decoder_get_hidden self x (Some (Pair h_n c_n)) enc_output
           = Ok hidden').
Proof.
  intros Hrnn Hatt.
  unfold forward, decoder_get_hidden, hid_for_att_forward,
    hid_for_att_get_hidden.
  rewrite Hrnn, Hatt. simpl.
  repeat split.
  intros ->.
  eexists. eexists. eexists. split; reflexivity.
Qed.
End DecoderFacts.

(** ** The LM replay *)

Section LmFacts.
Local Open Scope R_scope.
Variable LmState : Type.
Variable lm_decoding : Token -> option LmState -> list R * LmState.

(** Every token of [toks] indexes every row the LM returns. *)
Local Abbreviation in_vocabulary toks :=
  (forall x hidden tok, In tok toks ->
     (0 <= tok < Z.of_nat (length (fst (lm_decoding x hidden))))%Z).

Lemma log_softmax_length (row : list R) :
  length (log_softmax row) = length row.
Proof. unfold log_softmax. apply length_map. Qed.

Lemma py_index_valid (row : list R) (i : Z) :
  (0 <= i < Z.of_nat (length row))%Z ->
  py_index row i = Ok (nth (Z.to_nat i) row 0).
Proof.
  intros Hi. unfold py_index.
  replace (i <? 0)%Z with false by (symmetry; apply Z.ltb_ge; lia).
  replace (i <? 0)%Z with false by (symmetry; apply Z.ltb_ge; lia).
  replace (Z.of_nat (length row) <=? i)%Z with false
    by (symmetry; apply Z.leb_gt; lia).
  simpl. rewrite (nth_error_nth' row 0) by lia. reflexivity.
Qed.

Lemma fold_left_rsum (l : list R) : fold_left Rplus l 0 = rsum l.
Proof.
  unfold rsum. apply fold_symmetric; intros; ring.
Qed.

Lemma mean_nonempty (lps : list R) :
  lps <> [] -> mean lps = Ok (rsum lps / INR (length lps)).
Proof.
  destruct lps as [|a lps]; [congruence|]. intros _.
  unfold mean. now rewrite fold_left_rsum.
Qed.

Lemma up_to_end_length (end_tok : Token) (rest : list Token) :
  (length (up_to_end end_tok rest) <= length rest)%nat.
Proof.
  induction rest as [|t rest IH]; simpl; [lia|].
  destruct (Z.eqb t end_tok); simpl; lia.
Qed.

Lemma up_to_end_incl (end_tok : Token) (rest : list Token) (tok : Token) :
  In tok (up_to_end end_tok rest) -> In tok rest.
Proof.
  induction rest as [|t rest IH]; simpl; [auto|].
  destruct (Z.eqb t end_tok); simpl; intuition.
Qed.

Lemma up_to_end_nonempty (end_tok : Token) (rest : list Token) :
  rest <> [] -> up_to_end end_tok rest <> [].
Proof.
  destruct rest as [|t rest]; [congruence|]. intros _. simpl.
  destruct (Z.eqb t end_tok); discriminate.
Qed.

Lemma lm_steps_length (inputs : list Token) (hidden : option LmState) :
  length (lm_steps lm_decoding inputs hidden) = length inputs.
Proof.
  revert hidden. induction inputs as [|x inputs IH]; simpl; intros hidden;
    [reflexivity|].
  now rewrite IH.
Qed.

(** The loop of the source against the list functions of the
    specification. *)
Lemma replay_spec (end_tok : Token) (rest : list Token) (x : Token)
    (hidden : option LmState) (acc : list R) :
  in_vocabulary rest ->
  replay lm_decoding end_tok rest x hidden acc
  = (Ok (acc ++ map (fun sn => spec_log_prob lm_decoding (fst sn) (snd sn))
                  (combine
                     (lm_steps lm_decoding
                        (firstn (length (up_to_end end_tok rest)) (x :: rest))
                        hidden)
                     (up_to_end end_tok rest))),
     lm_steps lm_decoding
       (firstn (length (up_to_end end_tok rest)) (x :: rest)) hidden).
Proof.
  revert x hidden acc.
  induction rest as [|t rest IH]; intros x hidden acc Hvoc.
  - simpl. now rewrite app_nil_r.
  - assert (Hidx : py_index (log_softmax (fst (lm_decoding x hidden))) t
                   = Ok (spec_log_prob lm_decoding (x, hidden) t)).
    { apply py_index_valid. rewrite log_softmax_length.
      apply Hvoc. now left. }
    simpl replay. unfold bind, tell, lift. simpl fst. simpl snd.
    cbv beta iota. rewrite Hidx. cbv beta iota. simpl up_to_end.
    destruct (Z.eqb t end_tok) eqn:Et.
    + simpl. reflexivity.
    + rewrite IH by (intros y h tok Hin; apply Hvoc; now right).
      simpl. rewrite <- app_assoc. reflexivity.
Qed.

Lemma replay_log_length (end_tok : Token) (rest : list Token) (x : Token)
    (hidden : option LmState) (acc : list R) :
  (length (snd (replay lm_decoding end_tok rest x hidden acc))
   <= length rest)%nat.
Proof.
  revert x hidden acc.
  induction rest as [|t rest IH]; intros x hidden acc; simpl; [lia|].
  unfold bind, tell, lift. simpl.
  destruct (py_index (log_softmax (fst (lm_decoding x hidden))) t);
    simpl; [|lia].
  destruct (Z.eqb t end_tok); simpl; [lia|].
  specialize (IH t (Some (snd (lm_decoding x hidden))) (acc ++ [a])).
  lia.
Qed.

Lemma lm_heuristics_unfold (start_tok : Token) (rest : list Token)
    (max_tgt_sz : Z) :
  lm_heuristics lm_decoding (start_tok :: rest) max_tgt_sz
  = bind (replay lm_decoding (last rest start_tok) rest start_tok None [])
      (fun log_probs => lift (mean log_probs)).
Proof.
  unfold lm_heuristics.
  replace (Z.to_nat (Z.of_nat (length (start_tok :: rest)) - 1))
    with (length rest) by (simpl length; lia).
  simpl tl. rewrite firstn_all.
  rewrite (bind_eq _ _ _ (lift (first_tok (start_tok :: rest))) _
             start_tok eq_refl).
  rewrite (bind_eq _ _ _ (lift (last_tok (start_tok :: rest))) _
             (last rest start_tok) eq_refl).
  cbv beta. simpl snd. simpl app.
  match goal with
  | |- _ = ?m => destruct m; reflexivity
  end.
Qed.

Lemma rsum_const (c : R) (l : list R) :
  Forall (fun v => v = c) l -> rsum l = INR (length l) * c.
Proof.
  induction 1 as [|v l -> _ IH].
  - simpl. ring.
  - change (rsum (c :: l)) with (c + rsum l). rewrite IH.
    change (length (c :: l)) with (S (length l)). rewrite S_INR. ring.
Qed.

(** [lm_heuristics] against the specification's mean log-probability. *)
Lemma lm_heuristics_spec (src : list Token) (max_tgt_sz : Z) :
  (2 <= length src)%nat ->
  in_vocabulary (tl src) ->
  spec_log_probs lm_decoding src <> []
  /\ lm_heuristics lm_decoding src max_tgt_sz
     = (Ok (spec_mean_log_prob lm_decoding src), spec_steps lm_decoding src).
Proof.
  intros Hlen Hvoc.
  destruct src as [|start_tok rest]; [simpl in Hlen; lia|].
  assert (Hrest : rest <> [])
    by (destruct rest; [simpl in Hlen; lia|congruence]).
  simpl tl in *.
  assert (Hlps : length (spec_log_probs lm_decoding (start_tok :: rest))
                 = length (up_to_end (last rest start_tok) rest)).
  { unfold spec_log_probs, spec_steps, spec_scored.
    rewrite length_map, length_combine, lm_steps_length, length_firstn.
    pose proof (up_to_end_length (last rest start_tok) rest).
    simpl length. lia. }
  assert (Hne : spec_log_probs lm_decoding (start_tok :: rest) <> []).
  { intros E. rewrite E in Hlps. simpl in Hlps. symmetry in Hlps.
    apply length_zero_iff_nil in Hlps.
    now apply (up_to_end_nonempty (last rest start_tok) rest). }
  split; [exact Hne|].
  rewrite lm_heuristics_unfold, (replay_spec _ _ _ _ _ Hvoc).
  unfold bind, lift. simpl fst. simpl snd. simpl app.
  fold (spec_scored (start_tok :: rest)).
  fold (spec_steps lm_decoding (start_tok :: rest)).
  fold (spec_log_probs lm_decoding (start_tok :: rest)).
  cbv beta iota. rewrite (mean_nonempty _ Hne), app_nil_r. reflexivity.
Qed.

(** C6.  On a sequence of at least two in-vocabulary tokens,
    [lm_heuristics] returns the mean log-probability of the specification:
    the LM is replayed token by token from Start, each step scores the token
    actually supplied next under the log-softmax of its logits, the replay
    stops with the first supplied token equal to End, and the scores are
    summed and divided by their number.  In particular, when every supplied
    next token gets the log-probability [c] (as [-1] in the scenario
    [[Start, a, End]]), the value returned is [c]. *)
Theorem lm_heuristics_is_mean_log_prob (src : list Token) (max_tgt_sz : Z) :
  (2 <= length src)%nat ->
  in_vocabulary (tl src) ->
  lm_heuristics lm_decoding src max_tgt_sz
  = (Ok (spec_mean_log_prob lm_decoding src), spec_steps lm_decoding src)
  /\ forall c,
       (forall x hidden tok, In tok (tl src) ->
          py_index (log_softmax (fst (lm_decoding x hidden))) tok = Ok c) ->
       fst (lm_heuristics lm_decoding src max_tgt_sz) = Ok c.
Proof.
  intros Hlen Hvoc.
  destruct (lm_heuristics_spec src max_tgt_sz Hlen Hvoc) as [Hne Heq].
  split; [exact Heq|].
  intros c Hc. rewrite Heq. simpl. f_equal.
  unfold spec_mean_log_prob.
  rewrite (rsum_const c).
  - assert (Hpos : INR (length (spec_log_probs lm_decoding src)) <> 0).
    { apply not_0_INR. intros E. apply length_zero_iff_nil in E.
      contradiction. }
    field. exact Hpos.
  - unfold spec_log_probs. apply Forall_map, Forall_forall.
    intros [[x hidden] tok] Hin. simpl.
    apply in_combine_r in Hin.
    assert (Hin' : In tok (tl src)).
    { destruct src as [|start_tok rest]; [contradiction|].
      unfold spec_scored in Hin. now apply up_to_end_incl in Hin. }
    specialize (Hc x hidden tok Hin').
    rewrite py_index_valid in Hc
      by (rewrite log_softmax_length; now apply Hvoc).
    now inversion Hc.
Qed.

(** C10.  [lm_heuristics] does not depend on its [max_tgt_sz] argument;
    it takes at most [len(src) - 1] LM steps; on a one-token input it takes
    none and the final division raises [ZeroDivisionError]; it returns a
    value only on inputs of at least two tokens, and on those (with tokens
    of the vocabulary) it does return one. *)
Theorem lm_heuristics_needs_two_tokens (src : list Token) (max_tgt_sz : Z) :
  (forall max_tgt_sz',
      lm_heuristics lm_decoding src max_tgt_sz'
      = lm_heuristics lm_decoding src max_tgt_sz)
  /\ (length (snd (lm_heuristics lm_decoding src max_tgt_sz))
      <= length src - 1)%nat
  /\ (length src = 1%nat ->
      lm_heuristics lm_decoding src max_tgt_sz
      = (Raise ZeroDivisionError, []))
  /\ (forall v, fst (lm_heuristics lm_decoding src max_tgt_sz) = Ok v ->
                (2 <= length src)%nat)
  /\ ((2 <= length src)%nat -> in_vocabulary (tl src) ->
      exists v, fst (lm_heuristics lm_decoding src max_tgt_sz) = Ok v).
Proof.
  split; [reflexivity|].
  assert (Hone : forall t, lm_heuristics lm_decoding [t] max_tgt_sz
                           = (Raise ZeroDivisionError, [])).
  { intros t. reflexivity. }
  split; [|split; [|split]].
  - destruct src as [|start_tok rest]; [simpl; lia|].
    rewrite lm_heuristics_unfold.
    destruct (bind_log_prefix _ _ _
                (replay lm_decoding (last rest start_tok) rest start_tok
                   None [])
                (fun log_probs => lift (mean log_probs))) as [tail Htail].
    pose proof (replay_log_length (last rest start_tok) rest start_tok
                  None []) as Hlog.
    unfold bind in *. simpl length.
    destruct (fst (replay lm_decoding (last rest start_tok) rest start_tok
                     None [])); simpl in *.
    + rewrite app_nil_r. lia.
    + lia.
  - destruct src as [|t [|t' rest]]; try discriminate. intros _. apply Hone.
  - intros v Hv. destruct src as [|t [|t' rest]].
    + discriminate Hv.
    + rewrite Hone in Hv. discriminate Hv.
    + simpl. lia.
  - intros Hlen Hvoc.
    destruct (lm_heuristics_spec src max_tgt_sz Hlen Hvoc) as [_ Heq].
    rewrite Heq. eexists. reflexivity.
Qed.
End LmFacts.

(** ** Runs on the small real-valued networks *)

Section ToyRFacts.
Local Open Scope R_scope.

Lemma exp_minus_one_below_half : exp (-1) < 1 / 2.
Proof.
  pose proof (exp_ineq1 1 ltac:(lra)) as He.
  pose proof (exp_pos (-1)) as Hi.
  assert (Hp : exp (-1) * exp 1 = 1).
  { rewrite <- exp_plus. replace (-1 + 1) with 0 by ring. apply exp_0. }
  nra.
Qed.

Lemma toy_lm_row_sum : rsum (map exp ToyR.lm_row) = 1.
Proof.
  unfold ToyR.lm_row. simpl.
  rewrite exp_ln by (pose proof exp_minus_one_below_half; lra).
  ring.
Qed.

(** The toy LM row is already a row of log-probabilities. *)
Lemma toy_lm_row_log_softmax : log_softmax ToyR.lm_row = ToyR.lm_row.
Proof.
  unfold log_softmax. rewrite toy_lm_row_sum, ln_1.
  unfold ToyR.lm_row. simpl. unfold Rminus. rewrite Ropp_0, !Rplus_0_r.
  reflexivity.
Qed.

Lemma toy_lm_in_vocabulary (x : Token) (hidden : option nat) (tok : Token) :
  In tok [1; 2]%Z ->
  (0 <= tok < Z.of_nat (length (fst (ToyR.lm_decoding x hidden))))%Z.
Proof. simpl. intros [<-|[<-|[]]]; lia. Qed.

Lemma toy_lm_scores_minus_one (x : Token) (hidden : option nat)
    (tok : Token) :
  In tok [1; 2]%Z ->
  py_index (log_softmax (fst (ToyR.lm_decoding x hidden))) tok = Ok (-1).
Proof.
  simpl fst. rewrite toy_lm_row_log_softmax.
  intros [<-|[<-|[]]]; reflexivity.
Qed.
End ToyRFacts.

Lemma attention_witness :
  ([[1]; [2]]%R <> [] :> list Vector)
  /\ Forall (fun e : Vector => length e = enc_outstate_dim ToyR.decoder)
       [[1]; [2]]%R
  /\ Forall (fun h : Vector => length h = dec_hidden_dim ToyR.decoder)
       [[1]; [3]]%R
  /\ attention ToyR.decoder [1%R] [[1]; [3]]%R [[1]; [2]]%R
     = attention ToyR.decoder [1%R]
         [sum_axis0 (dec_hidden_dim ToyR.decoder) [[1]; [3]]%R] [[1]; [2]]%R
  /\ length (snd (attention ToyR.decoder [1%R] [[1]; [3]]%R [[1]; [2]]%R))
     = 2%nat
  /\ rsum (snd (attention ToyR.decoder [1%R] [[1]; [3]]%R [[1]; [2]]%R))
     = 1%R
  /\ snd (attention ToyR.decoder [1%R] [[1]; [3]]%R [[1]; [2]]%R)
     = spec_attention_weights ToyR.decoder
         (spec_hidden_summed 1 [[1]; [3]]%R) [[1]; [2]]%R
  /\ fst (attention ToyR.decoder [1%R] [[1]; [3]]%R [[1]; [2]]%R)
     = spec_context 1
         (spec_attention_weights ToyR.decoder
            (spec_hidden_summed 1 [[1]; [3]]%R) [[1]; [2]]%R)
         [[1]; [2]]%R ++ [1%R].
Proof.
  assert (H1 : ([[1]; [2]]%R <> [] :> list Vector)) by discriminate.
  assert (H2 : Forall (fun e : Vector =>
                         length e = enc_outstate_dim ToyR.decoder)
                 [[1]; [2]]%R) by (repeat constructor).
  assert (H3 : Forall (fun h : Vector =>
                         length h = dec_hidden_dim ToyR.decoder)
                 [[1]; [3]]%R) by (repeat constructor).
  split; [exact H1|]. split; [exact H2|]. split; [exact H3|].
  pose proof (attention_sums_layers_and_normalises ToyR.decoder [1%R]
                [[1]; [3]]%R [[1]; [2]]%R H1 H2 H3) as H.
  cbv zeta in H.
  destruct H as (_ & Hsum & Hlen & _ & Hone & context & Hctx & _ & _ & _
                 & Hw & Hc).
  split; [exact Hsum|]. split; [exact Hlen|]. split; [exact Hone|].
  split; [exact Hw|].
  rewrite Hc in Hctx. exact Hctx.
Defined.

Lemma lstm_attention_state_witness :
  dec_rnn_type ToyR.decoder = LSTM
  /\ use_attention ToyR.decoder = true
  /\ hid_for_att_forward ToyR.decoder (Some (Pair [[1%R]] [[2%R]]))
     = Ok [[2%R]]
  /\ hid_for_att_get_hidden ToyR.decoder (Some (Pair [[1%R]] [[2%R]]))
     = Ok [[1%R]].
Proof.
  split; [reflexivity|]. split; [reflexivity|].
  pose proof (lstm_attention_state_asymmetry ToyR.decoder 1%Z
                [[1%R]] [[2%R]] [[1%R]; [2%R]] eq_refl eq_refl) as H.
  destruct H as (Hf & Hg & _).
  split; [exact Hf|exact Hg].
Defined.

Lemma lm_heuristics_mean_witness :
  (2 <= length [0; 1; 2]%Z)%nat
  /\ (forall x hidden tok, In tok (tl [0; 1; 2]%Z) ->
        (0 <= tok < Z.of_nat (length (fst (ToyR.lm_decoding x hidden))))%Z)
  /\ lm_heuristics ToyR.lm_decoding [0; 1; 2]%Z 50
     = (Ok (spec_mean_log_prob ToyR.lm_decoding [0; 1; 2]%Z),
        spec_steps ToyR.lm_decoding [0; 1; 2]%Z)
  /\ (forall x hidden tok, In tok (tl [0; 1; 2]%Z) ->
        py_index (log_softmax (fst (ToyR.lm_decoding x hidden))) tok
        = Ok (-1)%R)
  /\ fst (lm_heuristics ToyR.lm_decoding [0; 1; 2]%Z 50) = Ok (-1)%R.
Proof.
  assert (Hlen : (2 <= length [0; 1; 2]%Z)%nat) by (simpl; lia).
  split; [exact Hlen|]. split; [exact toy_lm_in_vocabulary|].
  pose proof (lm_heuristics_is_mean_log_prob nat ToyR.lm_decoding
                [0; 1; 2]%Z 50%Z Hlen toy_lm_in_vocabulary) as [Heq Hc].
  split; [exact Heq|]. split; [exact toy_lm_scores_minus_one|].
  exact (Hc (-1)%R toy_lm_scores_minus_one).
Defined.

Lemma lm_heuristics_two_tokens_witness :
  (length [0%Z] = 1%nat
   /\ lm_heuristics ToyR.lm_decoding [0%Z] 50 = (Raise ZeroDivisionError, []))
  /\ ((2 <= length [0; 1; 2]%Z)%nat
      /\ (forall x hidden tok, In tok (tl [0; 1; 2]%Z) ->
            (0 <= tok
             < Z.of_nat (length (fst (ToyR.lm_decoding x hidden))))%Z)
      /\ exists v, fst (lm_heuristics ToyR.lm_decoding [0; 1; 2]%Z 50) = Ok v).
Proof.
  split.
  - split; [reflexivity|].
    pose proof (lm_heuristics_needs_two_tokens nat ToyR.lm_decoding
                  [0%Z] 50%Z) as (_ & _ & Hone & _).
    exact (Hone eq_refl).
  - assert (Hlen : (2 <= length [0; 1; 2]%Z)%nat) by (simpl; lia).
    split; [exact Hlen|]. split; [exact toy_lm_in_vocabulary|].
    pose proof (lm_heuristics_needs_two_tokens nat ToyR.lm_decoding
                  [0; 1; 2]%Z 50%Z) as (_ & _ & _ & _ & Htot).
    exact (Htot Hlen toy_lm_in_vocabulary).
Defined.


(** * Further properties of the decoders *)

Lemma bind_log (L A B : Type) (m : M L A) (f : A -> M L B) :
  snd (bind m f)
  = snd m ++ match fst m with
             | Ok a => snd (f a)
             | Raise _ => []
             end.
Proof.
  unfold bind. destruct (fst m); simpl; [reflexivity|].
  now rewrite app_nil_r.
Qed.

Lemma last_cons (rest : list Token) (t d : Token) :
  last (t :: rest) d = last rest t.
Proof.
  revert t d. induction rest as [|u rest IH]; intros t d; [reflexivity|].
  change (last (t :: u :: rest) d) with (last (u :: rest) d).
  now rewrite !(IH u).
Qed.

Lemma last_tok_last (s : list Token) (d : Token) :
  s <> [] -> last_tok s = Ok (last s d).
Proof.
  destruct s as [|t rest]; [congruence|]. intros _. simpl last_tok.
  now rewrite last_cons.
Qed.

Lemma ends_with_false (s : list Token) (end_tok : Token) :
  s <> [] -> ends_with s end_tok = false -> last s 0%Z <> end_tok.
Proof.
  intros Hs. unfold ends_with. rewrite (last_tok_last s 0%Z Hs).
  apply Z.eqb_neq.
Qed.

Lemma ends_with_true (s : list Token) (end_tok : Token) :
  ends_with s end_tok = true -> s <> [] /\ last s 0%Z = end_tok.
Proof.
  destruct s as [|t rest]; [discriminate|]. intros H.
  split; [discriminate|].
  unfold ends_with in H. rewrite (last_tok_last (t :: rest) 0%Z) in H
    by discriminate.
  now apply Z.eqb_eq.
Qed.

Section SearchExtra.
Variables (Score DecState LmState St : Type).
Variable s_add : Score -> Score -> Score.
Variable s_leb : Score -> Score -> bool.
Variable beam_width : Z.
Variable end_tok : Token.
Variable expand : PTup Score St -> Py DecState LmState (list (PTup Score St)).

Local Abbreviation collect' := (collect end_tok expand).
Local Abbreviation step' := (step s_leb beam_width end_tok expand).
Local Abbreviation search' := (search s_leb beam_width end_tok expand).

Lemma prune_incl (cur : list (PTup Score St)) :
  incl (prune s_leb beam_width cur) cur.
Proof.
  unfold prune. intros p Hp.
  destruct (slice_to_prefix _ (sort_desc (@score _ _) s_leb cur) beam_width)
    as [rest E].
  eapply Permutation_in; [apply sort_desc_perm|].
  rewrite E. apply in_or_app. now left.
Qed.

(** An invariant indexed by the number of iterations run: what holds of a
    hypothesis at step [k] holds of it, and of what it expands to, at step
    [k + 1].  Only hypotheses that do not end in [end_tok] are expanded. *)
Section Indexed.
Variable P : nat -> PTup Score St -> Prop.
Hypothesis P_carried : forall k p, P k p -> P (S k) p.
Hypothesis P_expand :
  forall k p new, P k p -> ends_with (sequence p) end_tok = false ->
                  fst (expand p) = Ok new -> Forall (P (S k)) new.

Lemma collect_indexed (k : nat) (top cur cur' : list (PTup Score St)) :
  Forall (P k) top -> Forall (P (S k)) cur ->
  fst (collect' top cur) = Ok cur' -> Forall (P (S k)) cur'.
Proof.
  revert cur. induction top as [|p rest IH]; simpl; intros cur Ht Hc H.
  - now inversion H; subst.
  - apply Forall_cons_iff in Ht. destruct Ht as [Hp Hrest].
    destruct (ends_with (sequence p) end_tok) eqn:Ep.
    + eapply IH; [exact Hrest| |exact H]. apply Forall_app; auto.
    + bind_inv H new Hnew.
      eapply IH; [exact Hrest| |exact H]. apply Forall_app; eauto.
Qed.

Lemma search_indexed (n k : nat) (top r : list (PTup Score St)) :
  Forall (P k) top -> fst (search' n top) = Ok r ->
  exists j, (j <= n)%nat /\ Forall (P (k + j)) r.
Proof.
  revert k top. induction n as [|n IH]; simpl; intros k top Ht H.
  - inversion H; subst. exists 0%nat. now rewrite Nat.add_0_r.
  - bind_inv H st Hst.
    assert (Hs : Forall (P (S k)) (fst st)).
    { unfold step in Hst. bind_inv Hst cur Hcur.
      inversion Hst; subst; simpl.
      apply slice_to_Forall, sort_desc_Forall.
      eapply collect_indexed; [exact Ht|constructor|exact Hcur]. }
    destruct (snd st).
    + inversion H; subst. exists 1%nat.
      split; [lia|]. now rewrite Nat.add_1_r.
    + destruct (IH _ _ Hs H) as (j & Hj & Hr).
      exists (S j). split; [lia|].
      now rewrite Nat.add_succ_r.
Qed.
End Indexed.

(** The same for an invariant that does not depend on the step. *)
Lemma search_invariant_live (P : PTup Score St -> Prop)
    (n : nat) (top r : list (PTup Score St)) :
  (forall p new, P p -> ends_with (sequence p) end_tok = false ->
                 fst (expand p) = Ok new -> Forall P new) ->
  Forall P top -> fst (search' n top) = Ok r -> Forall P r.
Proof.
  intros Hexp Ht H.
  destruct (search_indexed (fun _ => P) (fun _ p Hp => Hp)
              (fun _ => Hexp) n 0 top r Ht H) as (j & _ & Hr).
  exact Hr.
Qed.

(** A beam of terminated hypotheses: nothing is expanded. *)
Lemma collect_terminated (top cur : list (PTup Score St)) :
  Forall (fun p => ends_with (sequence p) end_tok = true) top ->
  collect' top cur = (Ok (cur ++ top), []).
Proof.
  revert cur. induction top as [|p rest IH]; simpl; intros cur Ht.
  - now rewrite app_nil_r.
  - apply Forall_cons_iff in Ht. destruct Ht as [Hp Hrest].
    rewrite Hp, (IH _ Hrest), <- app_assoc. reflexivity.
Qed.

(** The calls of a search that [f] selects, when each expansion makes at
    most [c] of them. *)
Section CallBound.
Variable f : Call DecState LmState -> bool.
Variable c : nat.
Hypothesis expand_calls : forall p, (count_calls f (snd (expand p)) <= c)%nat.

Lemma collect_calls_bound (top cur : list (PTup Score St)) :
  (count_calls f (snd (collect' top cur)) <= c * length top)%nat.
Proof.
  unfold count_calls in *.
  revert cur. induction top as [|p rest IH]; simpl; intros cur; [lia|].
  destruct (ends_with (sequence p) end_tok).
  - specialize (IH (cur ++ [p])). lia.
  - rewrite bind_log, filter_app, length_app.
    pose proof (expand_calls p).
    destruct (fst (expand p)) as [new|e]; simpl.
    + specialize (IH (cur ++ new)). lia.
    + lia.
Qed.

Lemma search_calls_bound (n : nat) (top : list (PTup Score St)) :
  (0 <= beam_width)%Z ->
  (count_calls f (snd (search' n top))
   <= c * (length top + (n - 1) * Z.to_nat beam_width))%nat.
Proof.
  intros Hbw. revert top. induction n as [|n IH]; intros top; simpl;
    [unfold count_calls; simpl; lia|].
  unfold count_calls in *.
  rewrite bind_log, filter_app, length_app.
  assert (Hstep : (length (filter f (snd (step' top))) <= c * length top)%nat).
  { unfold step. rewrite bind_log, filter_app, length_app.
    pose proof (collect_calls_bound top []) as Hc.
    unfold count_calls in Hc.
    destruct (fst (collect' top [])); simpl; lia. }
  destruct (fst (step' top)) as [st|e] eqn:Est; simpl; [|lia].
  destruct (snd st); simpl; [lia|].
  pose proof (step_length _ _ _ _ s_leb beam_width end_tok expand top st
                Hbw Est) as Hlen.
  specialize (IH (fst st)).
  destruct n as [|n]; simpl in *; [lia|].
  rewrite Nat.sub_0_r in IH. nia.
Qed.
End CallBound.
End SearchExtra.

Section BeamExtras.
Variable Score : Type.
Variable s_zero : Score.
Variable s_add : Score -> Score -> Score.
Variable s_leb : Score -> Score -> bool.
Variables DecState LmState EncOut Vec : Type.
Variable encoder : list Token -> EncOut * DecState.
Variable pass_enc2dec_hid : bool.
Variable decoder :
  Token -> option DecState -> EncOut -> Res (list Score * DecState).
Variable decoder_get_hidden : Token -> option DecState -> EncOut -> DecState.
Variable lm_decoder : option (LMDecoder Score LmState).
Variable deep_fusion : option (DeepFusion Score Vec).
Variable dec_last_hidden : DecState -> Vec.
Variable lm_last_hidden : LmState -> Vec.
Variable vec_mul : Vec -> Vec -> Vec.
Variable vec_cat : Vec -> Vec -> Vec.
Variable log_softmax : list Score -> list Score.

Local Abbreviation basenet :=
  (basenet_inference s_zero s_add s_leb LmState encoder pass_enc2dec_hid
     decoder log_softmax).
Local Abbreviation shallow :=
  (shallow_fuse_inference s_zero s_add s_leb encoder pass_enc2dec_hid
     decoder lm_decoder log_softmax).
Local Abbreviation deep :=
  (deep_fuse_inference s_zero s_add s_leb encoder pass_enc2dec_hid
     decoder_get_hidden lm_decoder deep_fusion dec_last_hidden
     lm_last_hidden vec_mul vec_cat log_softmax).
Local Abbreviation basenet_expand' :=
  (basenet_expand s_add s_leb LmState decoder log_softmax).
Local Abbreviation shallow_expand' :=
  (shallow_expand s_add s_leb decoder log_softmax).
Local Abbreviation deep_expand' :=
  (deep_expand s_add s_leb decoder_get_hidden lm_decoder deep_fusion
     dec_last_hidden lm_last_hidden vec_mul vec_cat log_softmax).
Local Abbreviation sequences_of d :=
  (match d with
   | Sequences l => l
   | Tuples l => map (@sequence Score (option DecState)) l
   end).
Local Abbreviation init_dec_hidden src :=
  (init_hidden pass_enc2dec_hid (snd (encoder src))).

(** Each expansion appends one token to the hypothesis it expands. *)
Lemma basenet_expand_extends (bw : Z) (enc : EncOut)
    (p : PTup Score (option DecState)) new :
  fst (basenet_expand' bw enc p) = Ok new ->
  exists pred_topk st, new = extend s_add p pred_topk st.
Proof.
  unfold basenet_expand. intros H.
  bind_inv H out Hout. bind_inv H pred_topk Htopk.
  inversion H; subst. eauto.
Qed.

Lemma shallow_expand_extends lm (bw : Z) (enc : EncOut)
    (p : PTup Score (FState DecState LmState)) new :
  fst (shallow_expand' lm bw enc p) = Ok new ->
  exists pred_topk st, new = extend s_add p pred_topk st.
Proof.
  unfold shallow_expand. intros H.
  bind_inv H out Hout. bind_inv H lm_out Hlm.
  bind_inv H shl Hshl. bind_inv H pred_topk Htopk.
  inversion H; subst. eauto.
Qed.

Lemma deep_expand_extends (bw : Z) (enc : EncOut)
    (p : PTup Score (FState DecState LmState)) new :
  fst (deep_expand' bw enc p) = Ok new ->
  exists pred_topk st, new = extend s_add p pred_topk st.
Proof.
  unfold deep_expand. intros H.
  bind_inv H dec_hidden Hdec. bind_inv H lm Hlm.
  bind_inv H lm_hidden Hlmh. bind_inv H df Hdf.
  bind_inv H pred_topk Htopk.
  inversion H; subst. eauto.
Qed.

(** A property of sequences, indexed by the number of iterations, that
    holds of [[start_tok]] at 0 and passes from a live sequence to each of
    its one-token extensions, holds of every sequence of the final beam. *)
Section SequenceInvariant.
Variable end_tok : Token.
Variable R : nat -> list Token -> Prop.
Hypothesis R_carried : forall k s, R k s -> R (S k) s.
Hypothesis R_extend :
  forall k s tok, R k s -> s <> [] -> last s 0%Z <> end_tok ->
                  R (S k) (s ++ [tok]).

Lemma search_sequences (St : Type) (bw : Z)
    (expand : PTup Score St -> Py DecState LmState (list (PTup Score St)))
    (n : nat) (start_tok : Token) (st : St) top :
  (forall p new, fst (expand p) = Ok new ->
                 exists pred_topk st', new = extend s_add p pred_topk st') ->
  R 0 [start_tok] ->
  fst (search s_leb bw end_tok expand n
         [ {| score := s_zero; sequence := [start_tok]; state := st |} ])
  = Ok top ->
  exists j, (j <= n)%nat
            /\ Forall (R j) (map (@sequence Score St) top).
Proof.
  intros Hext H0 H.
  destruct (search_indexed _ _ _ _ s_leb bw end_tok expand
              (fun k p => sequence p <> [] /\ R k (sequence p))) with
      (n := n) (k := 0%nat)
      (top := [ {| score := s_zero; sequence := [start_tok];
                   state := st |} ]) (r := top)
    as (j & Hj & Hr).
  - intros k p [Hne HR]. split; [exact Hne|now apply R_carried].
  - intros k p new [Hne HR] Hlive Hnew.
    destruct (Hext p new Hnew) as (pred_topk & st' & ->).
    unfold extend. apply Forall_map, Forall_forall. intros vi _. simpl.
    split; [now destruct (sequence p)|].
    apply R_extend; [exact HR|exact Hne|].
    now apply ends_with_false.
  - constructor; [|constructor]. simpl. split; [discriminate|exact H0].
  - exact H.
  - exists j. split; [exact Hj|].
    apply Forall_map. eapply Forall_impl; [|exact Hr].
    intros p [_ HR]. exact HR.
Qed.

Lemma decoders_sequences (src : list Token) (start_tok : Token)
    (beam_width max_tgt_sz : Z) :
  first_tok src = Ok start_tok -> last_tok src = Ok end_tok ->
  R 0 [start_tok] ->
  (forall heuristics d,
      fst (basenet src beam_width max_tgt_sz heuristics) = Ok d ->
      exists j, (j <= Z.to_nat max_tgt_sz)%nat
                /\ Forall (R j) (sequences_of d))
  /\ (forall seqs,
      fst (shallow src beam_width max_tgt_sz) = Ok seqs ->
      exists j, (j <= Z.to_nat max_tgt_sz)%nat /\ Forall (R j) seqs)
  /\ (forall seqs,
      fst (deep src beam_width max_tgt_sz) = Ok seqs ->
      exists j, (j <= Z.to_nat max_tgt_sz)%nat /\ Forall (R j) seqs).
Proof.
  intros Hstart Hend H0. split; [|split].
  - intros heuristics d H. unfold basenet_inference in H.
    bind_inv H s Hs. bind_inv H e He.
    simpl in Hs, He. rewrite Hstart in Hs. rewrite Hend in He.
    inversion Hs; inversion He; subst s e.
    bind_inv H enc Henc. bind_inv H top Htop.
    apply search_sequences in Htop;
      [|intros p new; apply basenet_expand_extends|exact H0].
    destruct heuristics; inversion H; subst; exact Htop.
  - intros seqs H. unfold shallow_fuse_inference in H.
    destruct lm_decoder as [lm|]; [|discriminate].
    bind_inv H s Hs. bind_inv H e He.
    simpl in Hs, He. rewrite Hstart in Hs. rewrite Hend in He.
    inversion Hs; inversion He; subst s e.
    bind_inv H enc Henc. bind_inv H top Htop.
    apply search_sequences in Htop;
      [|intros p new; apply shallow_expand_extends|exact H0].
    inversion H; subst; exact Htop.
  - intros seqs H. unfold deep_fuse_inference in H.
    bind_inv H s Hs. bind_inv H e He.
    simpl in Hs, He. rewrite Hstart in Hs. rewrite Hend in He.
    inversion Hs; inversion He; subst s e.
    bind_inv H enc Henc. bind_inv H top Htop.
    apply search_sequences in Htop;
      [|intros p new; apply deep_expand_extends|exact H0].
    inversion H; subst; exact Htop.
Qed.
End SequenceInvariant.

(** X1.  In every sequence a decoder returns, End can only be the last
    token: no token before the last equals the last token of the input. *)
Theorem decoded_end_token_only_last
    (src : list Token) (start_tok end_tok : Token)
    (beam_width max_tgt_sz : Z) :
  first_tok src = Ok start_tok -> last_tok src = Ok end_tok ->
  (forall heuristics d,
      fst (basenet src beam_width max_tgt_sz heuristics) = Ok d ->
      Forall (fun s => Forall (fun t => t <> end_tok) (removelast s))
        (sequences_of d))
  /\ (forall seqs,
      fst (shallow src beam_width max_tgt_sz) = Ok seqs ->
      Forall (fun s => Forall (fun t => t <> end_tok) (removelast s)) seqs)
  /\ (forall seqs,
      fst (deep src beam_width max_tgt_sz) = Ok seqs ->
      Forall (fun s => Forall (fun t => t <> end_tok) (removelast s)) seqs).
Proof.
  intros Hstart Hend.
  pose (R := fun (_ : nat) (s : list Token) =>
               Forall (fun t => t <> end_tok) (removelast s)).
  assert (Hcar : forall k s, R k s -> R (S k) s) by (intros k s H; exact H).
  assert (Hext : forall k s tok, R k s -> s <> [] -> last s 0%Z <> end_tok ->
                                 R (S k) (s ++ [tok])).
  { unfold R. intros k s tok Hs Hne Hlast. rewrite removelast_last.
    rewrite (app_removelast_last 0%Z Hne).
    apply Forall_app. split; [exact Hs|].
    constructor; [exact Hlast|constructor]. }
  assert (H0 : R 0%nat [start_tok]) by constructor.
  destruct (decoders_sequences end_tok R Hcar Hext src start_tok beam_width
              max_tgt_sz Hstart Hend H0) as (Hb & Hs & Hd).
  split; [|split].
  - intros h d H. destruct (Hb h d H) as (j & _ & Hj). exact Hj.
  - intros seqs H. destruct (Hs seqs H) as (j & _ & Hj). exact Hj.
  - intros seqs H. destruct (Hd seqs H) as (j & _ & Hj). exact Hj.
Qed.

(** X2.  A sequence a decoder returns has at least one token and at most
    [max(max_tgt_sz, 0) + 1]: one token is appended per iteration, and with
    [max_tgt_sz <= 0] no iteration runs, so that the sequence has exactly
    one token. *)
Theorem decoded_length_bound
    (src : list Token) (beam_width max_tgt_sz : Z) :
  (forall heuristics d,
      fst (basenet src beam_width max_tgt_sz heuristics) = Ok d ->
      Forall (fun s =>
                (1 <= Z.of_nat (length s) <= Z.max 0 max_tgt_sz + 1)%Z)
        (sequences_of d))
  /\ (forall seqs,
      fst (shallow src beam_width max_tgt_sz) = Ok seqs ->
      Forall (fun s =>
                (1 <= Z.of_nat (length s) <= Z.max 0 max_tgt_sz + 1)%Z) seqs)
  /\ (forall seqs,
      fst (deep src beam_width max_tgt_sz) = Ok seqs ->
      Forall (fun s =>
                (1 <= Z.of_nat (length s) <= Z.max 0 max_tgt_sz + 1)%Z) seqs).
Proof.
  assert (Hgen : forall start_tok end_tok,
             first_tok src = Ok start_tok -> last_tok src = Ok end_tok ->
             (forall heuristics d,
                 fst (basenet src beam_width max_tgt_sz heuristics) = Ok d ->
                 exists j, (j <= Z.to_nat max_tgt_sz)%nat
                   /\ Forall (fun s => (1 <= length s <= S j)%nat)
                        (sequences_of d))
             /\ (forall seqs,
                 fst (shallow src beam_width max_tgt_sz) = Ok seqs ->
                 exists j, (j <= Z.to_nat max_tgt_sz)%nat
                   /\ Forall (fun s => (1 <= length s <= S j)%nat) seqs)
             /\ (forall seqs,
                 fst (deep src beam_width max_tgt_sz) = Ok seqs ->
                 exists j, (j <= Z.to_nat max_tgt_sz)%nat
                   /\ Forall (fun s => (1 <= length s <= S j)%nat) seqs)).
  { intros start_tok end_tok Hstart Hend.
    apply (decoders_sequences end_tok
             (fun k s => (1 <= length s <= S k)%nat))
      with (start_tok := start_tok).
    - intros k s Hs. lia.
    - intros k s tok Hs _ _. rewrite length_app. simpl. lia.
    - exact Hstart.
    - exact Hend.
    - simpl. lia. }
  assert (Hweak : forall (seqs : list (list Token)),
             (exists j, (j <= Z.to_nat max_tgt_sz)%nat
                /\ Forall (fun s => (1 <= length s <= S j)%nat) seqs) ->
             Forall (fun s =>
                (1 <= Z.of_nat (length s) <= Z.max 0 max_tgt_sz + 1)%Z)
               seqs).
  { intros seqs (j & Hj & Hall). eapply Forall_impl; [|exact Hall].
    simpl. intros s Hs. lia. }
  destruct src as [|t rest].
  - split; [|split]; intros; try discriminate.
    unfold shallow_fuse_inference in H.
    destruct lm_decoder; discriminate.
  - destruct (Hgen t (last rest t) eq_refl eq_refl) as (Hb & Hs & Hd).
    split; [|split].
    + intros h d H. apply Hweak, (Hb h d H).
    + intros seqs H. apply Hweak, (Hs seqs H).
    + intros seqs H. apply Hweak, (Hd seqs H).
Qed.

(** X3.  A beam in which every hypothesis ends in End is final: whatever
    number of iterations is left, no network is called again and the beam
    returned holds only hypotheses of that beam. *)
Theorem terminated_beam_makes_no_calls (St : Type) (bw : Z)
    (end_tok : Token)
    (expand : PTup Score St -> Py DecState LmState (list (PTup Score St)))
    (n : nat) (top : list (PTup Score St)) :
  Forall (fun p => ends_with (sequence p) end_tok = true) top ->
  exists r, search s_leb bw end_tok expand n top = (Ok r, [])
            /\ incl r top.
Proof.
  revert top. induction n as [|n IH]; intros top Ht.
  - exists top. split; [reflexivity|apply incl_refl].
  - simpl search. unfold step.
    rewrite (collect_terminated _ _ _ _ end_tok expand top [] Ht).
    unfold bind, ret. simpl fst. simpl snd. cbv beta iota. simpl fst.
    simpl snd.
    assert (Hp : Forall (fun p => ends_with (sequence p) end_tok = true)
                   (prune s_leb bw top)).
    { apply Forall_forall. intros p Hp.
      apply (prune_incl _ _ s_leb bw) in Hp.
      revert p Hp. now apply Forall_forall. }
    destruct (bw =? end_count end_tok (prune s_leb bw top))%Z.
    + exists (prune s_leb bw top). split; [reflexivity|].
      apply prune_incl.
    + destruct (IH _ Hp) as (r & Hr & Hincl).
      exists r. rewrite Hr. split; [reflexivity|].
      intros p Hin. apply (prune_incl _ _ s_leb bw), Hincl, Hin.
Qed.

Lemma replay_path_app (enc : EncOut) (l : list Token) (t x : Token)
    (hidden : option DecState) (acc : Score) :
  replay_path s_add decoder log_softmax enc x hidden acc (l ++ [t])
  = match replay_path s_add decoder log_softmax enc x hidden acc l with
    | Some (acc', hidden') =>
        replay_path s_add decoder log_softmax enc (last l x) hidden' acc' [t]
    | None => None
    end.
Proof.
  revert x hidden acc. induction l as [|u l IH]; intros x hidden acc.
  - reflexivity.
  - rewrite last_cons. simpl app. simpl replay_path at 1 2.
    destruct (decoder x hidden enc) as [out|e]; [|reflexivity].
    destruct (u <? 0)%Z; [reflexivity|].
    destruct (nth_error (log_softmax (fst out)) (Z.to_nat u));
      [apply IH|reflexivity].
Qed.

(** X4.  The tuples [basenet_inference] returns under [heuristics] are
    consistent with their own sequence: replaying the decoder alone along
    the sequence of a tuple, from the initial state, ends in the state the
    tuple carries and sums the log-softmax entries of its tokens to the
    score the tuple carries (a plain sum, not divided by the length). *)
Theorem basenet_tuples_replay_their_sequence
    (src : list Token) (start_tok : Token) (beam_width max_tgt_sz : Z) top :
  first_tok src = Ok start_tok ->
  fst (basenet src beam_width max_tgt_sz true) = Ok (Tuples top) ->
  Forall (fun p =>
            exists rest,
              sequence p = start_tok :: rest
              /\ replay_path s_add decoder log_softmax (fst (encoder src))
                   start_tok (init_dec_hidden src) s_zero rest
                 = Some (score p, state p))
    top.
Proof.
  intros Hstart H. unfold basenet_inference in H.
  bind_inv H s Hs. simpl in Hs. rewrite Hstart in Hs. inversion Hs; subst s.
  bind_inv H e He. bind_inv H enc Henc.
  simpl in Henc. inversion Henc; subst enc. clear Henc.
  bind_inv H l Hl. inversion H; subst l. clear H.
  eapply search_Forall; [| |exact Hl].
  - intros p new (rest & Hseq & Hrep) Hnew.
    unfold basenet_expand in Hnew.
    bind_inv Hnew out Hout. bind_inv Hnew pred_topk Htopk.
    inversion Hnew; subst new. clear Hnew.
    simpl in Hout, Htopk.
    apply topk_entries in Htopk. destruct Htopk as [_ Hall].
    unfold extend. apply Forall_map.
    eapply Forall_impl; [|exact Hall].
    intros [v tok] [Htok Hv]. simpl in *.
    exists (rest ++ [tok]). rewrite Hseq. split; [reflexivity|].
    rewrite replay_path_app, Hrep. simpl.
    assert (Hx : x_of p = last rest start_tok).
    { unfold x_of. now rewrite Hseq. }
    rewrite <- Hx, Hout.
    replace (tok <? 0)%Z with false by (symmetry; apply Z.ltb_ge; lia).
    now rewrite Hv.
  - constructor; [|constructor]. exists []. split; reflexivity.
Qed.

(** What one expansion calls: the decoder once, the LM at most once in the
    fused decoders, and never the encoder. *)
Lemma basenet_expand_calls (bw : Z) (enc : EncOut)
    (p : PTup Score (option DecState)) :
  (count_calls is_encoder_call (snd (basenet_expand' bw enc p)) <= 0)%nat
  /\ (count_calls is_decoder_call (snd (basenet_expand' bw enc p)) <= 1)%nat
  /\ (count_calls is_lm_call (snd (basenet_expand' bw enc p)) <= 0)%nat.
Proof.
  unfold count_calls, basenet_expand, call_decoder, tell, lift, ret, bind.
  simpl.
  destruct (decoder (x_of p) (state p) enc) as [out|e]; simpl;
    [|repeat split; lia].
  destruct (topk s_leb (log_softmax (fst out)) bw); simpl; repeat split; lia.
Qed.

Lemma shallow_expand_calls (lm : LMDecoder Score LmState) (bw : Z)
    (enc : EncOut) (p : PTup Score (FState DecState LmState)) :
  (count_calls is_encoder_call (snd (shallow_expand' lm bw enc p)) <= 0)%nat
  /\ (count_calls is_decoder_call (snd (shallow_expand' lm bw enc p))
      <= 1)%nat
  /\ (count_calls is_lm_call (snd (shallow_expand' lm bw enc p)) <= 1)%nat.
Proof.
  unfold count_calls, shallow_expand, call_decoder, tell, lift, ret, bind.
  simpl.
  destruct (decoder (x_of p) (fst (state p)) enc) as [out|e]; simpl;
    [|repeat split; lia].
  destruct (row_add s_add _ _); simpl; [|repeat split; lia].
  destruct (topk s_leb _ bw); simpl; repeat split; lia.
Qed.

Lemma deep_expand_calls (bw : Z) (enc : EncOut)
    (p : PTup Score (FState DecState LmState)) :
  (count_calls is_encoder_call (snd (deep_expand' bw enc p)) <= 0)%nat
  /\ (count_calls is_decoder_call (snd (deep_expand' bw enc p)) <= 1)%nat
  /\ (count_calls is_lm_call (snd (deep_expand' bw enc p)) <= 1)%nat.
Proof.
  unfold count_calls, deep_expand, tell, lift, ret, bind. simpl.
  destruct lm_decoder as [lm|]; simpl; [|repeat split; lia].
  destruct deep_fusion as [df|]; simpl; [|repeat split; lia].
  destruct (topk s_leb _ bw); simpl; repeat split; lia.
Qed.

(** The calls of a whole decode that [f] selects: the encoder call, if [f]
    selects it, and those of the search. *)
Section DecodeCalls.
Variable f : Call DecState LmState -> bool.
Variable c : nat.
Variables (src : list Token) (beam_width max_tgt_sz : Z).
Hypothesis beam_width_nonneg : (0 <= beam_width)%Z.

Local Abbreviation calls_bound :=
  ((if f (EncoderCall src) then 1 else 0)
   + c * (1 + (Z.to_nat max_tgt_sz - 1) * Z.to_nat beam_width))%nat.

Lemma basenet_calls_count (heuristics : bool) :
  (forall bw enc p,
      (count_calls f (snd (basenet_expand' bw enc p)) <= c)%nat) ->
  (count_calls f (snd (basenet src beam_width max_tgt_sz heuristics))
   <= calls_bound)%nat.
Proof.
  intros Hexp. unfold count_calls.
  destruct src as [|t rest]; [apply Nat.le_0_l|].
  unfold basenet_inference.
  rewrite (bind_eq _ _ _ (lift (first_tok (t :: rest))) _ t eq_refl).
  rewrite (bind_eq _ _ _ (lift (last_tok (t :: rest))) _ (last rest t)
             eq_refl).
  rewrite (bind_eq _ _ _ (tell (EncoderCall (t :: rest))
                            (Ok (encoder (t :: rest)))) _
             (encoder (t :: rest)) eq_refl).
  simpl snd. simpl app. cbn [filter]. rewrite bind_log, filter_app.
  match goal with
  | |- context [search s_leb ?bw ?e ?g ?n ?top] =>
      pose proof (search_calls_bound _ _ _ _ s_leb bw e g f c
                    (Hexp bw _) n top beam_width_nonneg) as Hlog;
      unfold count_calls in Hlog;
      destruct (fst (search s_leb bw e g n top))
  end; simpl length in *;
    set (B := ((Z.to_nat max_tgt_sz - 1) * Z.to_nat beam_width)%nat) in *;
    clearbody B.
  - destruct heuristics; simpl; rewrite app_nil_r;
      destruct (f (EncoderCall (t :: rest))); simpl; lia.
  - rewrite app_nil_r. destruct (f (EncoderCall (t :: rest))); simpl; lia.
Qed.

Lemma shallow_calls_count :
  (forall lm bw enc p,
      (count_calls f (snd (shallow_expand' lm bw enc p)) <= c)%nat) ->
  (count_calls f (snd (shallow src beam_width max_tgt_sz))
   <= calls_bound)%nat.
Proof.
  intros Hexp. unfold count_calls.
  destruct src as [|t rest];
    [unfold shallow_fuse_inference; destruct lm_decoder; apply Nat.le_0_l|].
  unfold shallow_fuse_inference.
  destruct lm_decoder as [lm|]; [|apply Nat.le_0_l].
  rewrite (bind_eq _ _ _ (lift (first_tok (t :: rest))) _ t eq_refl).
  rewrite (bind_eq _ _ _ (lift (last_tok (t :: rest))) _ (last rest t)
             eq_refl).
  rewrite (bind_eq _ _ _ (tell (EncoderCall (t :: rest))
                            (Ok (encoder (t :: rest)))) _
             (encoder (t :: rest)) eq_refl).
  simpl snd. simpl app. cbn [filter]. rewrite bind_log, filter_app.
  match goal with
  | |- context [search s_leb ?bw ?e ?g ?n ?top] =>
      pose proof (search_calls_bound _ _ _ _ s_leb bw e g f c
                    (Hexp lm bw _) n top beam_width_nonneg) as Hlog;
      unfold count_calls in Hlog;
      destruct (fst (search s_leb bw e g n top))
  end; simpl length in *;
    set (B := ((Z.to_nat max_tgt_sz - 1) * Z.to_nat beam_width)%nat) in *;
    clearbody B; simpl; rewrite app_nil_r;
    destruct (f (EncoderCall (t :: rest))); simpl; lia.
Qed.

Lemma deep_calls_count :
  (forall bw enc p,
      (count_calls f (snd (deep_expand' bw enc p)) <= c)%nat) ->
  (count_calls f (snd (deep src beam_width max_tgt_sz)) <= calls_bound)%nat.
Proof.
  intros Hexp. unfold count_calls.
  destruct src as [|t rest]; [apply Nat.le_0_l|].
  unfold deep_fuse_inference.
  rewrite (bind_eq _ _ _ (lift (first_tok (t :: rest))) _ t eq_refl).
  rewrite (bind_eq _ _ _ (lift (last_tok (t :: rest))) _ (last rest t)
             eq_refl).
  rewrite (bind_eq _ _ _ (tell (EncoderCall (t :: rest))
                            (Ok (encoder (t :: rest)))) _
             (encoder (t :: rest)) eq_refl).
  simpl snd. simpl app. cbn [filter]. rewrite bind_log, filter_app.
  match goal with
  | |- context [search s_leb ?bw ?e ?g ?n ?top] =>
      pose proof (search_calls_bound _ _ _ _ s_leb bw e g f c
                    (Hexp bw _) n top beam_width_nonneg) as Hlog;
      unfold count_calls in Hlog;
      destruct (fst (search s_leb bw e g n top))
  end; simpl length in *;
    set (B := ((Z.to_nat max_tgt_sz - 1) * Z.to_nat beam_width)%nat) in *;
    clearbody B; simpl; rewrite app_nil_r;
    destruct (f (EncoderCall (t :: rest))); simpl; lia.
Qed.
End DecodeCalls.

Lemma calls_bound_Z (n : nat) (beam_width max_tgt_sz : Z) :
  (0 <= beam_width)%Z ->
  (n <= 1 * (1 + (Z.to_nat max_tgt_sz - 1) * Z.to_nat beam_width))%nat ->
  (Z.of_nat n <= 1 + Z.max 0 (max_tgt_sz - 1) * beam_width)%Z.
Proof.
  intros Hbw Hn.
  assert (E : (Z.max 0 (max_tgt_sz - 1) * beam_width
               = Z.of_nat ((Z.to_nat max_tgt_sz - 1) * Z.to_nat beam_width))%Z).
  { rewrite Nat2Z.inj_mul, Z2Nat.id by exact Hbw. f_equal. lia. }
  rewrite E. lia.
Qed.

(** X5.  The work of a decode is bounded by its configuration.  For
    [beam_width >= 0], whether the call returns or raises:
    [basenet_inference] calls the encoder at most once, the decoder at most
    [1 + max(max_tgt_sz - 1, 0) * beam_width] times and the LM never; the
    two fused decoders call the encoder at most once, and the decoder and
    the LM at most that many times each. *)
Theorem decode_calls_bounded
    (src : list Token) (beam_width max_tgt_sz : Z) (heuristics : bool) :
  (0 <= beam_width)%Z ->
  ((count_calls is_encoder_call
      (snd (basenet src beam_width max_tgt_sz heuristics)) <= 1)%nat
   /\ (Z.of_nat (count_calls is_decoder_call
                   (snd (basenet src beam_width max_tgt_sz heuristics)))
       <= 1 + Z.max 0 (max_tgt_sz - 1) * beam_width)%Z
   /\ count_calls is_lm_call
        (snd (basenet src beam_width max_tgt_sz heuristics)) = 0%nat)
  /\ ((count_calls is_encoder_call
         (snd (shallow src beam_width max_tgt_sz)) <= 1)%nat
      /\ (Z.of_nat (count_calls is_decoder_call
                      (snd (shallow src beam_width max_tgt_sz)))
          <= 1 + Z.max 0 (max_tgt_sz - 1) * beam_width)%Z
      /\ (Z.of_nat (count_calls is_lm_call
                      (snd (shallow src beam_width max_tgt_sz)))
          <= 1 + Z.max 0 (max_tgt_sz - 1) * beam_width)%Z)
  /\ ((count_calls is_encoder_call
         (snd (deep src beam_width max_tgt_sz)) <= 1)%nat
      /\ (Z.of_nat (count_calls is_decoder_call
                      (snd (deep src beam_width max_tgt_sz)))
          <= 1 + Z.max 0 (max_tgt_sz - 1) * beam_width)%Z
      /\ (Z.of_nat (count_calls is_lm_call
                      (snd (deep src beam_width max_tgt_sz)))
          <= 1 + Z.max 0 (max_tgt_sz - 1) * beam_width)%Z).
Proof.
  intros Hbw. split; [|split].
  - pose proof (basenet_calls_count is_encoder_call 0 src beam_width
                  max_tgt_sz Hbw heuristics
                  (fun bw enc p => proj1 (basenet_expand_calls bw enc p)))
      as He.
    pose proof (basenet_calls_count is_decoder_call 1 src beam_width
                  max_tgt_sz Hbw heuristics
                  (fun bw enc p =>
                     proj1 (proj2 (basenet_expand_calls bw enc p))))
      as Hd.
    pose proof (basenet_calls_count is_lm_call 0 src beam_width
                  max_tgt_sz Hbw heuristics
                  (fun bw enc p =>
                     proj2 (proj2 (basenet_expand_calls bw enc p))))
      as Hl.
    simpl in He, Hd, Hl.
    split; [exact He|]. split; [|lia].
    apply calls_bound_Z; [exact Hbw|]. simpl. lia.
  - pose proof (shallow_calls_count is_encoder_call 0 src beam_width
                  max_tgt_sz Hbw
                  (fun lm bw enc p =>
                     proj1 (shallow_expand_calls lm bw enc p)))
      as He.
    pose proof (shallow_calls_count is_decoder_call 1 src beam_width
                  max_tgt_sz Hbw
                  (fun lm bw enc p =>
                     proj1 (proj2 (shallow_expand_calls lm bw enc p))))
      as Hd.
    pose proof (shallow_calls_count is_lm_call 1 src beam_width
                  max_tgt_sz Hbw
                  (fun lm bw enc p =>
                     proj2 (proj2 (shallow_expand_calls lm bw enc p))))
      as Hl.
    simpl in He, Hd, Hl.
    split; [exact He|].
    split; (apply calls_bound_Z; [exact Hbw|]; simpl; lia).
  - pose proof (deep_calls_count is_encoder_call 0 src beam_width
                  max_tgt_sz Hbw
                  (fun bw enc p => proj1 (deep_expand_calls bw enc p)))
      as He.
    pose proof (deep_calls_count is_decoder_call 1 src beam_width
                  max_tgt_sz Hbw
                  (fun bw enc p =>
                     proj1 (proj2 (deep_expand_calls bw enc p))))
      as Hd.
    pose proof (deep_calls_count is_lm_call 1 src beam_width
                  max_tgt_sz Hbw
                  (fun bw enc p =>
                     proj2 (proj2 (deep_expand_calls bw enc p))))
      as Hl.
    simpl in He, Hd, Hl.
    split; [exact He|].
    split; (apply calls_bound_Z; [exact Hbw|]; simpl; lia).
Qed.

(** X6.  Without a language model, [shallow_fuse_inference] stops at its
    assertion before any network call, on every input; [deep_fuse_inference]
    has no such guard and fails only inside the first iteration, after the
    encoder and the decoder have run. *)
Theorem missing_lm_assertion_only_in_shallow
    (src : list Token) (start_tok end_tok : Token)
    (beam_width max_tgt_sz : Z) :
  lm_decoder = None ->
  shallow src beam_width max_tgt_sz = (Raise AssertionError, [])
  /\ (first_tok src = Ok start_tok -> last_tok src = Ok end_tok ->
      start_tok <> end_tok -> (1 <= max_tgt_sz)%Z ->
      deep src beam_width max_tgt_sz
      = (Raise AttributeError,
         [EncoderCall src;
          DecoderHiddenCall start_tok (init_dec_hidden src)])).
Proof.
  intros Hlm. split.
  - unfold shallow_fuse_inference. now rewrite Hlm.
  - intros Hstart Hend Hne Hmax. unfold deep_fuse_inference.
    rewrite (bind_eq _ _ _ (lift (first_tok src)) _ start_tok Hstart).
    rewrite (bind_eq _ _ _ (lift (last_tok src)) _ end_tok Hend).
    rewrite (bind_eq _ _ _ (tell (EncoderCall src) (Ok (encoder src))) _
               (encoder src) eq_refl).
    destruct (Z.to_nat max_tgt_sz) as [|n] eqn:En; [lia|].
    simpl search. unfold step. simpl collect.
    assert (Hnot : ends_with [start_tok] end_tok = false).
    { unfold ends_with. simpl. now apply Z.eqb_neq. }
    rewrite Hnot. unfold deep_expand. rewrite Hlm.
    unfold bind, tell, lift, x_of. simpl. reflexivity.
Qed.

(** X7.  A [beam_width] that [topk] cannot serve (negative, or larger than
    the decoder's output row) makes [basenet_inference] raise in its first
    iteration, after one decoder call. *)
Theorem beam_width_out_of_range_raises
    (src : list Token) (start_tok end_tok : Token)
    (beam_width max_tgt_sz : Z) (heuristics : bool) out :
  first_tok src = Ok start_tok -> last_tok src = Ok end_tok ->
  start_tok <> end_tok -> (1 <= max_tgt_sz)%Z ->
  decoder start_tok (init_dec_hidden src) (fst (encoder src)) = Ok out ->
  (beam_width < 0
   \/ Z.of_nat (length (log_softmax (fst out))) < beam_width)%Z ->
  basenet src beam_width max_tgt_sz heuristics
  = (Raise RuntimeError,
     [EncoderCall src; DecoderCall start_tok (init_dec_hidden src)]).
Proof.
  intros Hstart Hend Hne Hmax Hout Hbw. unfold basenet_inference.
  rewrite (bind_eq _ _ _ (lift (first_tok src)) _ start_tok Hstart).
  rewrite (bind_eq _ _ _ (lift (last_tok src)) _ end_tok Hend).
  rewrite (bind_eq _ _ _ (tell (EncoderCall src) (Ok (encoder src))) _
             (encoder src) eq_refl).
  destruct (Z.to_nat max_tgt_sz) as [|n] eqn:En; [lia|].
  simpl search. unfold step. simpl collect.
  assert (Hnot : ends_with [start_tok] end_tok = false).
  { unfold ends_with. simpl. now apply Z.eqb_neq. }
  rewrite Hnot. unfold basenet_expand, call_decoder, x_of. simpl.
  assert (Htopk : topk s_leb (log_softmax (fst out)) beam_width
                  = Raise RuntimeError).
  { unfold topk.
    replace ((beam_width <? 0)
             || (Z.of_nat (length (log_softmax (fst out))) <? beam_width))%Z
      with true; [reflexivity|].
    symmetry. apply orb_true_iff.
    destruct Hbw; [left|right]; now apply Z.ltb_lt. }
  unfold bind, tell, lift. simpl. rewrite Hout. simpl. rewrite Htopk.
  reflexivity.
Qed.
End BeamExtras.


(** * Further properties of the decoder step *)

Section DecoderExtras.
Local Open Scope R_scope.
Variable self : Decoder.

(** X8.  [forward] refuses exactly one situation, before computing
    anything: no state and no attention.  [get_hidden] has no such check and
    in that situation runs the recurrent cell on the embedded token alone. *)
Theorem forward_guard_no_state_no_attention
    (x : Token) (hidden : option Hidden) (enc_output : list Vector) :
  (forward self x hidden enc_output = Raise Exception_
   <-> hidden = None /\ use_attention self = false)
  /\ (use_attention self = false ->
      decoder_get_hidden self x None enc_output
      = Ok (snd (dec_rnn self (embedding self x) None))).
Proof.
  split.
  - unfold forward, hid_for_att_forward. split.
    + destruct hidden as [s|]; simpl.
      * destruct (dec_rnn_type self), s; discriminate.
      * destruct (use_attention self); simpl; [discriminate|auto].
    + intros [-> ->]. reflexivity.
  - intros Hatt. unfold decoder_get_hidden, hid_for_att_get_hidden.
    now rewrite Hatt.
Qed.

(** X9.  The two paths differ only for an LSTM with attention and a
    state: for a GRU, without attention, or from an absent state,
    [get_hidden] returns exactly the state that [forward] returns. *)
Theorem get_hidden_agrees_with_forward
    (x : Token) (hidden : option Hidden) (enc_output : list Vector)
    output hidden' aw :
  dec_rnn_type self = GRU \/ use_attention self = false \/ hidden = None ->
  forward self x hidden enc_output = Ok (output, hidden', aw) ->
  decoder_get_hidden self x hidden enc_output = Ok hidden'.
Proof.
  unfold forward, decoder_get_hidden, hid_for_att_forward,
    hid_for_att_get_hidden.
  intros Hcase.
  destruct (is_None hidden && negb (use_attention self)); [discriminate|].
  destruct hidden as [s|].
  - destruct Hcase as [Hgru|[Hatt|Hnone]]; [| |discriminate].
    + rewrite Hgru. destruct s; [|discriminate].
      intros H. inversion H; subst. reflexivity.
    + rewrite Hatt. destruct (dec_rnn_type self), s; try discriminate;
        intros H; inversion H; subst; reflexivity.
  - intros H. inversion H; subst. reflexivity.
Qed.

Lemma rsum_weighted_const (a : R) (w : list R) (enc : list Vector)
    (e : Vector) (j : nat) :
  length w = length enc -> Forall (fun e' => e' = e) enc ->
  rsum (map (fun we => nth j (vscale (fst we) (snd we)) 0) (combine w enc))
  = rsum w * nth j e 0.
Proof.
  revert enc. induction w as [|w0 w IH]; intros [|e0 enc] Hlen Hall;
    try discriminate Hlen; simpl.
  - ring.
  - apply Forall_cons_iff in Hall. destruct Hall as [-> Hall].
    rewrite vscale_nth, (IH enc); [ring| |exact Hall].
    simpl in Hlen. lia.
Qed.

(** X11.  When every encoder position holds the same vector (a one-position
    input, for one), the context is that vector, whatever the state and the
    attention parameters. *)
Theorem attention_on_equal_positions
    (x e : Vector) (hidden enc_output : list Vector) :
  enc_output <> [] ->
  length e = enc_outstate_dim self ->
  Forall (fun e' => e' = e) enc_output ->
  fst (attention self x hidden enc_output) = e ++ x.
Proof.
  intros Hne Hlen Hall. unfold attention. simpl fst. f_equal.
  set (w := softmax _).
  assert (Hw : length w = length enc_output).
  { unfold w. now rewrite softmax_length, !length_map. }
  assert (Hone : rsum w = 1).
  { unfold w. apply softmax_sum.
    destruct enc_output; [congruence|discriminate]. }
  assert (Hrows : Forall (fun r => length r = enc_outstate_dim self)
                    (map (fun we => vscale (fst we) (snd we))
                       (combine w enc_output))).
  { apply Forall_map, Forall_forall. intros [w0 e0] Hin. simpl.
    unfold vscale. rewrite length_map.
    apply in_combine_r in Hin.
    rewrite Forall_forall in Hall. now rewrite (Hall _ Hin). }
  apply (nth_ext _ _ 0 0).
  - rewrite sum_axis0_length by exact Hrows. now symmetry.
  - intros j _. rewrite sum_axis0_nth by exact Hrows.
    rewrite map_map.
    rewrite (rsum_weighted_const 0 w enc_output e j Hw Hall), Hone. ring.
Qed.
End DecoderExtras.

(** * Further properties of the LM replay *)

Section LmExtras.
Local Open Scope R_scope.
Variable LmState : Type.
Variable lm_decoding : Token -> option LmState -> list R * LmState.

Lemma replay_stops_at_end (end_tok : Token) (pre post : list Token)
    (x : Token) (hidden : option LmState) (acc : list R) :
  Forall (fun t => t <> end_tok) pre ->
  replay lm_decoding end_tok (pre ++ end_tok :: post) x hidden acc
  = replay lm_decoding end_tok (pre ++ [end_tok]) x hidden acc.
Proof.
  revert x hidden acc. induction pre as [|u pre IH]; intros x hidden acc Hpre.
  - simpl. unfold bind, tell, lift. simpl.
    destruct (py_index (log_softmax (fst (lm_decoding x hidden))) end_tok);
      simpl; [|reflexivity].
    now rewrite Z.eqb_refl.
  - apply Forall_cons_iff in Hpre. destruct Hpre as [Hu Hpre].
    apply Z.eqb_neq in Hu.
    simpl. unfold bind, tell, lift. simpl.
    destruct (py_index (log_softmax (fst (lm_decoding x hidden))) u);
      simpl; [|reflexivity].
    rewrite Hu. now rewrite IH.
Qed.

(** X12.  Whatever follows the first token equal to End is never read:
    the sequence cut after that token gives the same value and the same LM
    steps. *)
Theorem lm_heuristics_ignores_tokens_after_end
    (start_tok end_tok : Token) (pre post : list Token) (max_tgt_sz : Z) :
  Forall (fun t => t <> end_tok) pre ->
  lm_heuristics lm_decoding
    (start_tok :: pre ++ end_tok :: post ++ [end_tok]) max_tgt_sz
  = lm_heuristics lm_decoding (start_tok :: pre ++ [end_tok]) max_tgt_sz.
Proof.
  intros Hpre. rewrite !lm_heuristics_unfold.
  replace (last (pre ++ end_tok :: post ++ [end_tok]) start_tok)
    with end_tok.
  - rewrite last_last. now rewrite replay_stops_at_end.
  - replace (pre ++ end_tok :: post ++ [end_tok])
      with ((pre ++ end_tok :: post) ++ [end_tok])
      by (now rewrite <- app_assoc).
    now rewrite last_last.
Qed.

Lemma py_index_above (row : list R) (i : Z) :
  (Z.of_nat (length row) <= i)%Z -> py_index row i = Raise IndexError.
Proof.
  intros Hi. unfold py_index.
  replace (i <? 0)%Z with false by (symmetry; apply Z.ltb_ge; lia).
  replace (i <? 0)%Z with false by (symmetry; apply Z.ltb_ge; lia).
  replace (Z.of_nat (length row) <=? i)%Z with true
    by (symmetry; apply Z.leb_le; lia).
  reflexivity.
Qed.

Lemma replay_out_of_vocabulary (end_tok tok : Token) (pre post : list Token)
    (x : Token) (hidden : option LmState) (acc : list R) :
  (forall y h t, In t pre ->
     (0 <= t < Z.of_nat (length (fst (lm_decoding y h))))%Z) ->
  Forall (fun t => t <> end_tok) pre ->
  (forall y h, (Z.of_nat (length (fst (lm_decoding y h))) <= tok)%Z) ->
  replay lm_decoding end_tok (pre ++ tok :: post) x hidden acc
  = (Raise IndexError, lm_steps lm_decoding (x :: pre) hidden).
Proof.
  intros Hvoc Hpre Htok. revert x hidden acc.
  induction pre as [|u pre IH]; intros x hidden acc.
  - simpl. unfold bind, tell, lift. simpl fst. simpl snd. cbv beta iota.
    rewrite py_index_above by (rewrite log_softmax_length; apply Htok).
    reflexivity.
  - apply Forall_cons_iff in Hpre. destruct Hpre as [Hu Hpre].
    apply Z.eqb_neq in Hu.
    simpl app. simpl replay. unfold bind, tell, lift.
    simpl fst. simpl snd. cbv beta iota.
    rewrite py_index_valid
      by (rewrite log_softmax_length; apply Hvoc; now left).
    cbv beta iota. rewrite Hu.
    rewrite IH; [reflexivity| |exact Hpre].
    intros y h t Hin. apply Hvoc. now right.
Qed.

(** X13.  A supplied token outside the LM's vocabulary, met before any End,
    makes [lm_heuristics] raise [IndexError], after the LM has stepped on
    every token before it. *)
Theorem lm_heuristics_out_of_vocabulary
    (start_tok tok : Token) (pre post : list Token) (max_tgt_sz : Z) :
  (forall y h t, In t pre ->
     (0 <= t < Z.of_nat (length (fst (lm_decoding y h))))%Z) ->
  Forall (fun t => t <> last (pre ++ tok :: post) start_tok) pre ->
  (forall y h, (Z.of_nat (length (fst (lm_decoding y h))) <= tok)%Z) ->
  lm_heuristics lm_decoding (start_tok :: pre ++ tok :: post) max_tgt_sz
  = (Raise IndexError, lm_steps lm_decoding (start_tok :: pre) None).
Proof.
  intros Hvoc Hpre Htok. rewrite lm_heuristics_unfold.
  rewrite (replay_out_of_vocabulary _ tok pre post start_tok None []
             Hvoc Hpre Htok).
  reflexivity.
Qed.

Lemma log_softmax_nonpos (row : list R) (lp : R) :
  In lp (log_softmax row) -> lp <= 0.
Proof.
  unfold log_softmax. intros Hin. apply in_map_iff in Hin.
  destruct Hin as (x & <- & Hx).
  assert (Hle : exp x <= rsum (map exp row)).
  { clear - Hx. induction row as [|a row IH]; [contradiction|].
    simpl. pose proof (rsum_exp_nonneg row). pose proof (exp_pos a).
    destruct Hx as [->|Hx]; [lra|]. specialize (IH Hx). lra. }
  pose proof (exp_pos x) as Hpos.
  destruct Hle as [Hlt|Heq].
  - pose proof (ln_increasing _ _ Hpos Hlt) as H. rewrite ln_exp in H. lra.
  - rewrite <- Heq, ln_exp. lra.
Qed.

Lemma py_index_in (row : list R) (i : Z) (a : R) :
  py_index row i = Ok a -> In a row.
Proof.
  unfold py_index.
  destruct (_ || _)%bool; [discriminate|].
  destruct (nth_error row _) eqn:E; [|discriminate].
  intros H. inversion H; subst. eapply nth_error_In, E.
Qed.

Lemma replay_nonpos (end_tok : Token) (rest : list Token) (x : Token)
    (hidden : option LmState) (acc lps : list R) :
  Forall (fun lp => lp <= 0) acc ->
  fst (replay lm_decoding end_tok rest x hidden acc) = Ok lps ->
  Forall (fun lp => lp <= 0) lps.
Proof.
  revert x hidden acc.
  induction rest as [|t rest IH]; intros x hidden acc Hacc H.
  - simpl in H. now inversion H; subst.
  - simpl in H. bind_inv H lp Hlp. simpl in Hlp.
    assert (Hacc' : Forall (fun lp => lp <= 0) (acc ++ [lp])).
    { apply Forall_app. split; [exact Hacc|].
      constructor; [|constructor].
      apply (log_softmax_nonpos (fst (lm_decoding x hidden))).
      eapply py_index_in, Hlp. }
    destruct (Z.eqb t end_tok).
    + now inversion H; subst.
    + eapply IH; [exact Hacc'|exact H].
Qed.

Lemma rsum_nonpos (l : list R) : Forall (fun v => v <= 0) l -> rsum l <= 0.
Proof.
  induction 1 as [|v l Hv _ IH]; simpl; lra.
Qed.

(** X14.  The value [lm_heuristics] returns is never positive: it is a mean
    of logarithms of probabilities. *)
Theorem lm_heuristics_value_nonpositive
    (src : list Token) (max_tgt_sz : Z) (v : R) :
  fst (lm_heuristics lm_decoding src max_tgt_sz) = Ok v -> v <= 0.
Proof.
  destruct src as [|start_tok rest]; [discriminate|].
  rewrite lm_heuristics_unfold. intros H.
  bind_inv H lps Hlps. simpl in H.
  apply replay_nonpos in Hlps; [|constructor].
  destruct lps as [|lp lps]; [discriminate|].
  rewrite (mean_nonempty (lp :: lps)) in H by discriminate.
  inversion H; subst v.
  pose proof (rsum_nonpos _ Hlps) as Hs.
  assert (Hn : 0 < INR (length (lp :: lps))).
  { apply lt_0_INR. simpl. lia. }
  assert (Hmul : forall a b, a <= 0 -> 0 < b -> a * b <= 0)
    by (intros a b Ha Hb; nra).
  apply Hmul; [exact Hs|now apply Rinv_0_lt_compat].
Qed.
End LmExtras.

(** * Properties of the training-time forward passes *)

Section TrainingFacts.
Variable Score : Type.
Variable s_zero s_one : Score.
Variable s_leb : Score -> Score -> bool.
Variables DecState LmState EncOut Vec : Type.
Variable encoder : list Token -> EncOut * DecState.
Variable pass_enc2dec_hid : bool.
Variable decoder :
  Token -> option DecState -> EncOut -> Res (list Score * DecState).
Variable decoder_get_hidden : Token -> option DecState -> EncOut -> DecState.
Variable lm_decoder : option (LMDecoder Score LmState).
Variable deep_fusion : option (DeepFusion Score Vec).
Variable dec_last_hidden : DecState -> Vec.
Variable lm_last_hidden : LmState -> Vec.
Variable vec_mul : Vec -> Vec -> Vec.
Variable vec_cat : Vec -> Vec -> Vec.
Variable output_dim : nat.
Variable draw : nat -> Score.

Local Abbreviation loop St step :=
  (@teacher_loop Score s_leb DecState LmState output_dim draw St step).
Local Abbreviation basenet_forward' :=
  (basenet_forward s_zero s_one s_leb LmState encoder pass_enc2dec_hid
     decoder output_dim draw).
Local Abbreviation lm_forward' :=
  (lm_forward s_zero s_one s_leb DecState output_dim draw).
Local Abbreviation deep_fuse_forward' :=
  (deep_fuse_forward s_zero s_one s_leb encoder pass_enc2dec_hid
     decoder_get_hidden lm_decoder deep_fusion dec_last_hidden
     lm_last_hidden vec_mul vec_cat output_dim draw).

Lemma store_column_length (dec_output col : list Score) :
  store_column output_dim dec_output = Ok col -> length col = output_dim.
Proof.
  unfold store_column.
  destruct (Nat.eqb (length dec_output) output_dim) eqn:E.
  - intros H. inversion H; subst. now apply Nat.eqb_eq.
  - destruct dec_output as [|v [|w l]]; try discriminate.
    intros H. inversion H; subst. apply repeat_length.
Qed.

Section LoopFacts.
Variable St : Type.
Variable model_step : Token -> St -> Py DecState LmState (list Score * St).

(** Without teacher forcing the loop reads of [rest] only its length. *)
Lemma teacher_loop_unforced (ratio : Score) (k : nat)
    (rest rest' : list Token) (x : Token) (hidden : St)
    (cols : list (list Score)) :
  (forall j, teacher_forced s_leb draw ratio j = false) ->
  length rest = length rest' ->
  loop St model_step ratio k rest x hidden cols
  = loop St model_step ratio k rest' x hidden cols.
Proof.
  intros Hdraw. revert rest' k x hidden cols.
  induction rest as [|t rest IH]; intros [|t' rest'] k x hidden cols Hlen;
    try discriminate Hlen; [reflexivity|].
  simpl. unfold bind, lift. rewrite Hdraw.
  destruct (model_step x hidden) as [[out|e] l]; simpl; [|reflexivity].
  destruct (store_column output_dim (fst out)); simpl; [|reflexivity].
  destruct (argmax s_leb (fst out)); simpl; [|reflexivity].
  rewrite (IH rest'); [reflexivity|].
  simpl in Hlen. lia.
Qed.

(** What a successful loop adds: one column of [output_dim] entries per
    remaining target position. *)
Lemma teacher_loop_columns (ratio : Score) (k : nat) (rest : list Token)
    (x : Token) (hidden : St) (cols cols' : list (list Score)) :
  fst (loop St model_step ratio k rest x hidden cols) = Ok cols' ->
  exists new, cols' = cols ++ new /\ length new = length rest
              /\ Forall (fun col => length col = output_dim) new.
Proof.
  revert k x hidden cols.
  induction rest as [|t rest IH]; intros k x hidden cols H.
  - simpl in H. inversion H; subst. exists []. rewrite app_nil_r. auto.
  - simpl in H. bind_inv H out Hout. bind_inv H col Hcol.
    bind_inv H next Hnext.
    destruct (IH _ _ _ _ H) as (new & -> & Hlen & Hall).
    exists (col :: new). rewrite <- app_assoc. simpl.
    split; [reflexivity|]. split; [lia|].
    constructor; [|exact Hall].
    eapply store_column_length, Hcol.
Qed.
End LoopFacts.

(** X15.  With no draw below [teacher_forcing_ratio] (as with the default
    ratio 0), the forward passes never feed a target token after the first:
    [basenet_forward] and [deep_fuse_forward] depend on [tgt] only through
    its first token and its length, and [LMDecoder.forward], which does not
    read [tgt] at all, on [src] only through its first token and length. *)
Theorem forward_without_teacher_forcing_ignores_targets (ratio : Score) :
  (forall k, s_leb ratio (draw k) = true) ->
  (forall src tgt tgt',
      first_tok tgt = first_tok tgt' -> length tgt = length tgt' ->
      basenet_forward' src tgt ratio = basenet_forward' src tgt' ratio)
  /\ (forall src tgt tgt',
      first_tok tgt = first_tok tgt' -> length tgt = length tgt' ->
      deep_fuse_forward' src tgt ratio = deep_fuse_forward' src tgt' ratio)
  /\ (forall (lm : LMDecoder Score LmState) src src' tgt tgt',
      first_tok src = first_tok src' -> length src = length src' ->
      lm_forward' lm src tgt ratio = lm_forward' lm src' tgt' ratio).
Proof.
  intros Hdraw.
  assert (Hun : forall j, teacher_forced s_leb draw ratio j = false).
  { intros j. unfold teacher_forced. now rewrite Hdraw. }
  assert (Htl : forall a b : list Token, length a = length b ->
                                         length (tl a) = length (tl b)).
  { intros [|x a] [|y b] H; simpl in *; lia. }
  assert (Htail : forall St step (a b : list Token) x (h : St),
             length a = length b ->
             bind (lift (start_column s_zero s_one output_dim))
               (fun col0 => loop St step ratio 0 (tl a) x h [col0])
             = bind (lift (start_column s_zero s_one output_dim))
                 (fun col0 => loop St step ratio 0 (tl b) x h [col0])).
  { intros St step a b x h Hlen. unfold bind, lift. simpl.
    destruct (start_column s_zero s_one output_dim); [|reflexivity].
    now rewrite (teacher_loop_unforced St step ratio 0 (tl a) (tl b) x h
                   _ Hun (Htl _ _ Hlen)). }
  split; [|split].
  - intros src tgt tgt' Hfirst Hlen. unfold basenet_forward.
    rewrite (bind_eq _ _ _ (tell (EncoderCall src) (Ok (encoder src))) _
               (encoder src) eq_refl).
    rewrite (bind_eq _ _ _ (tell (EncoderCall src) (Ok (encoder src))) _
               (encoder src) eq_refl).
    destruct tgt as [|x tgt], tgt' as [|x' tgt']; try discriminate;
      [reflexivity|].
    inversion Hfirst; subst x'.
    rewrite (bind_eq _ _ _ (lift (first_tok (x :: tgt))) _ x eq_refl).
    rewrite (bind_eq _ _ _ (lift (first_tok (x :: tgt'))) _ x eq_refl).
    now rewrite (Htail _ _ (x :: tgt) (x :: tgt') _ _ Hlen).
  - intros src tgt tgt' Hfirst Hlen. unfold deep_fuse_forward.
    rewrite (bind_eq _ _ _ (tell (EncoderCall src) (Ok (encoder src))) _
               (encoder src) eq_refl).
    rewrite (bind_eq _ _ _ (tell (EncoderCall src) (Ok (encoder src))) _
               (encoder src) eq_refl).
    destruct tgt as [|x tgt], tgt' as [|x' tgt']; try discriminate;
      [reflexivity|].
    inversion Hfirst; subst x'.
    rewrite (bind_eq _ _ _ (lift (first_tok (x :: tgt))) _ x eq_refl).
    rewrite (bind_eq _ _ _ (lift (first_tok (x :: tgt'))) _ x eq_refl).
    now rewrite (Htail _ _ (x :: tgt) (x :: tgt') _ _ Hlen).
  - intros lm src src' tgt tgt' Hfirst Hlen. unfold lm_forward.
    destruct src as [|x src], src' as [|x' src']; try discriminate;
      [reflexivity|].
    inversion Hfirst; subst x'.
    rewrite (bind_eq _ _ _ (lift (first_tok (x :: src))) _ x eq_refl).
    rewrite (bind_eq _ _ _ (lift (first_tok (x :: src'))) _ x eq_refl).
    now rewrite (Htail _ _ (x :: src) (x :: src') _ _ Hlen).
Qed.

(** X16.  What a forward pass returns has one column per target position
    ([src] position for the LM), [output_dim] entries per column, and the
    indicator of class 1 as its first column; so it returns only for a
    non-empty target and at least two classes. *)
Theorem forward_output_shape (ratio : Score) :
  (forall src tgt cols,
      fst (basenet_forward' src tgt ratio) = Ok cols ->
      length cols = length tgt
      /\ Forall (fun col => length col = output_dim) cols
      /\ hd_error cols
         = Some (s_zero :: s_one :: repeat s_zero (output_dim - 2))
      /\ (2 <= output_dim)%nat)
  /\ (forall src tgt cols,
      fst (deep_fuse_forward' src tgt ratio) = Ok cols ->
      length cols = length tgt
      /\ Forall (fun col => length col = output_dim) cols
      /\ hd_error cols
         = Some (s_zero :: s_one :: repeat s_zero (output_dim - 2))
      /\ (2 <= output_dim)%nat)
  /\ (forall (lm : LMDecoder Score LmState) src tgt cols,
      fst (lm_forward' lm src tgt ratio) = Ok cols ->
      length cols = length src
      /\ Forall (fun col => length col = output_dim) cols
      /\ hd_error cols
         = Some (s_zero :: s_one :: repeat s_zero (output_dim - 2))
      /\ (2 <= output_dim)%nat).
Proof.
  assert (Hcol0 : forall col0,
             start_column s_zero s_one output_dim = Ok col0 ->
             col0 = s_zero :: s_one :: repeat s_zero (output_dim - 2)
             /\ length col0 = output_dim /\ (2 <= output_dim)%nat).
  { unfold start_column. intros col0.
    destruct (output_dim <? 2)%nat eqn:E; [discriminate|].
    apply Nat.ltb_ge in E. intros H. inversion H; subst.
    split; [reflexivity|]. split; [|exact E].
    simpl. rewrite repeat_length. lia. }
  assert (Hfin : forall St step (tgt : list Token) x (h : St) col0 cols,
             first_tok tgt = Ok x ->
             start_column s_zero s_one output_dim = Ok col0 ->
             fst (loop St step ratio 0 (tl tgt) x h [col0]) = Ok cols ->
             length cols = length tgt
             /\ Forall (fun col => length col = output_dim) cols
             /\ hd_error cols
                = Some (s_zero :: s_one :: repeat s_zero (output_dim - 2))
             /\ (2 <= output_dim)%nat).
  { intros St step tgt x h col0 cols Hx H0 H.
    destruct (Hcol0 _ H0) as (-> & Hl0 & Hdim).
    destruct (teacher_loop_columns _ _ _ _ _ _ _ _ _ H)
      as (new & -> & Hlen & Hall).
    destruct tgt as [|t tgt]; [discriminate|]. simpl in *.
    split; [lia|]. split; [|split; [reflexivity|exact Hdim]].
    constructor; [exact Hl0|exact Hall]. }
  split; [|split].
  - intros src tgt cols H. unfold basenet_forward in H.
    bind_inv H enc Henc. bind_inv H x Hx. bind_inv H col0 H0.
    eapply Hfin; [exact Hx|exact H0|exact H].
  - intros src tgt cols H. unfold deep_fuse_forward in H.
    bind_inv H enc Henc. bind_inv H x Hx. bind_inv H col0 H0.
    eapply Hfin; [exact Hx|exact H0|exact H].
  - intros lm src tgt cols H. unfold lm_forward in H.
    bind_inv H x Hx. bind_inv H col0 H0.
    eapply Hfin; [exact Hx|exact H0|exact H].
Qed.

Lemma basenet_loop_forced (enc : EncOut) (ratio : Score) (k : nat)
    (rest : list Token) (x : Token) (hidden : option DecState)
    (cols cols' : list (list Score)) :
  (forall j, teacher_forced s_leb draw ratio j = true) ->
  fst (loop _ (basenet_step LmState decoder enc) ratio k rest x
         hidden cols) = Ok cols' ->
  exists hiddens,
    length hiddens = length rest
    /\ snd (loop _ (basenet_step LmState decoder enc) ratio k
              rest x hidden cols)
       = map (fun xh => DecoderCall (fst xh) (snd xh))
           (combine (removelast (x :: rest)) hiddens).
Proof.
  intros Hdraw. revert k x hidden cols.
  induction rest as [|t rest IH]; intros k x hidden cols H.
  - exists []. split; reflexivity.
  - simpl teacher_loop in *. pose proof H as H'.
    bind_inv H' out Hout.
    rewrite (bind_eq _ _ _ _ _ _ Hout) in *. simpl fst in H.
    pose proof H as H''. bind_inv H'' col Hcol.
    rewrite (bind_eq _ _ _ _ _ _ Hcol) in *. simpl fst in H.
    rewrite Hdraw in *.
    rewrite (bind_eq _ _ _ (lift (Ok t)) _ t eq_refl) in *. simpl fst in H.
    destruct (IH _ _ _ _ H) as (hiddens & Hlen & Hlog).
    exists (hidden :: hiddens). split; [simpl; lia|].
    simpl snd. rewrite Hlog.
    assert (Hstep : snd (basenet_step LmState decoder enc x
                           hidden)
                    = [DecoderCall x hidden]).
    { unfold basenet_step, bind, tell, ret. simpl.
      destruct (decoder x hidden enc); reflexivity. }
    rewrite Hstep.
    change (removelast (x :: t :: rest)) with (x :: removelast (t :: rest)).
    simpl. reflexivity.
Qed.

(** X17.  With every draw below [teacher_forcing_ratio] (as with a ratio
    of 1), a successful [basenet_forward] is fully teacher-forced: after the
    encoder, the decoder is called once per target position but the last,
    on the target tokens themselves, in order; no prediction is fed back. *)
Theorem basenet_forward_teacher_forced_feeds_targets
    (ratio : Score) (src tgt : list Token) cols :
  (forall k, s_leb ratio (draw k) = false) ->
  fst (basenet_forward' src tgt ratio) = Ok cols ->
  exists hiddens,
    length hiddens = (length tgt - 1)%nat
    /\ snd (basenet_forward' src tgt ratio)
       = EncoderCall src
         :: map (fun xh => DecoderCall (fst xh) (snd xh))
              (combine (removelast tgt) hiddens).
Proof.
  intros Hdraw H.
  assert (Hforced : forall j, teacher_forced s_leb draw ratio j = true).
  { intros j. unfold teacher_forced. now rewrite Hdraw. }
  unfold basenet_forward in *.
  rewrite (bind_eq _ _ _ (tell (EncoderCall src) (Ok (encoder src))) _
             (encoder src) eq_refl) in *.
  simpl fst in H. simpl snd.
  pose proof H as H'. bind_inv H' x Hx.
  rewrite (bind_eq _ _ _ _ _ _ Hx) in *. simpl fst in H.
  pose proof H as H''. bind_inv H'' col0 H0.
  rewrite (bind_eq _ _ _ _ _ _ H0) in *. simpl fst in H.
  destruct (basenet_loop_forced _ _ _ _ _ _ _ _ Hforced H)
    as (hiddens & Hlen & Hlog).
  rewrite Hlog. clear Hlog H H' H''.
  destruct tgt as [|t tgt]; [discriminate|].
  simpl in Hx. inversion Hx; subst x.
  exists hiddens. split; [simpl in *; lia|].
  reflexivity.
Qed.
End TrainingFacts.

(** * Properties of the construction and of the training script *)

Section SearchRaise.
Variables (Score DecState LmState St : Type).
Variable s_leb : Score -> Score -> bool.
Variable beam_width : Z.
Variable end_tok : Token.
Variable expand : PTup Score St -> Py DecState LmState (list (PTup Score St)).
Variable P : PTup Score St -> Prop.
Variable e0 : PyError.
Hypothesis expand_P :
  forall p new, P p -> fst (expand p) = Ok new -> Forall P new.
Hypothesis expand_e0 : forall p, P p -> fst (expand p) <> Raise e0.

(** An exception no expansion of the beam raises is not raised by the
    search. *)
Lemma collect_never_raises (top cur : list (PTup Score St)) :
  Forall P top -> fst (collect end_tok expand top cur) <> Raise e0.
Proof.
  revert cur. induction top as [|p rest IH]; simpl; intros cur Ht.
  - discriminate.
  - apply Forall_cons_iff in Ht. destruct Ht as [Hp Hrest].
    destruct (ends_with (sequence p) end_tok); [now apply IH|].
    unfold bind. destruct (fst (expand p)) as [new|e] eqn:E; simpl.
    + now apply IH.
    + intros H. inversion H; subst. now apply (expand_e0 p Hp).
Qed.

Lemma search_never_raises (n : nat) (top : list (PTup Score St)) :
  Forall P top ->
  fst (search s_leb beam_width end_tok expand n top) <> Raise e0.
Proof.
  revert top. induction n as [|n IH]; simpl; intros top Ht.
  - discriminate.
  - unfold bind at 1.
    destruct (fst (step s_leb beam_width end_tok expand top))
      as [st|e] eqn:Est; simpl.
    + pose proof (step_Forall _ _ _ _ s_leb beam_width end_tok expand P
                    expand_P top st Ht Est) as Hs.
      destruct (snd st); simpl; [discriminate|now apply IH].
    + intros H. inversion H; subst.
      unfold step, bind in Est.
      destruct (fst (collect end_tok expand top [])) eqn:Ec;
        simpl in Est; [discriminate|].
      inversion Est; subst.
      now apply (collect_never_raises top [] Ht).
Qed.
End SearchRaise.

Section ConstructionFacts.

Lemma forward_raises_exception (self : Decoder) (x : Token)
    (hidden : option Hidden) (enc_output : list Vector) :
  forward self x hidden enc_output = Raise Exception_
  <-> hidden = None /\ use_attention self = false.
Proof.
  unfold forward, hid_for_att_forward. split.
  - destruct hidden as [s|]; simpl.
    + destruct (dec_rnn_type self), s; discriminate.
    + destruct (use_attention self); simpl; [discriminate|auto].
  - intros [-> ->]. reflexivity.
Qed.

(** X18.  What [Seq2SeqLMFusion.__init__] accepts: a decoder that gets the
    encoder state or attends (or both), with matching sizes.  In
    particular, with [pass_enc2dec_hid], attention and the attention input
    size left at its default, a bidirectional encoder is refused. *)
Theorem seq2seq_init_accepts
    (encoder : EncoderDims) (decoder : Decoder)
    (pass_enc2dec_hid has_lm_decoder for_deep_fusion : bool) (self : Seq2Seq) :
  seq2seq_init encoder decoder pass_enc2dec_hid has_lm_decoder
    for_deep_fusion = Ok self ->
  (pass_enc2dec_hid = true \/ use_attention decoder = true)
  /\ (pass_enc2dec_hid = true ->
      dec_hidden_dim decoder = enc_hidden_dim encoder)
  /\ (use_attention decoder = true ->
      enc_outstate_dim decoder
      = (enc_directions encoder * enc_hidden_dim encoder)%nat)
  /\ (for_deep_fusion = true -> has_lm_decoder = true)
  /\ (pass_enc2dec_hid = true -> use_attention decoder = true ->
      enc_outstate_dim decoder
      = init_enc_outstate_dim true None (dec_hidden_dim decoder) ->
      (0 < enc_hidden_dim encoder)%nat ->
      bidirectional encoder = false).
Proof.
  unfold seq2seq_init. intros H.
  destruct (pass_enc2dec_hid
            && negb (Nat.eqb (dec_hidden_dim decoder)
                       (enc_hidden_dim encoder))) eqn:E1; [discriminate|].
  destruct (use_attention decoder
            && negb (Nat.eqb (enc_outstate_dim decoder)
                       (enc_directions encoder * enc_hidden_dim encoder)))
    eqn:E2; [discriminate|].
  destruct (negb (pass_enc2dec_hid || use_attention decoder)) eqn:E3;
    [discriminate|].
  destruct (for_deep_fusion && negb has_lm_decoder) eqn:E4; [discriminate|].
  clear H.
  assert (H1 : pass_enc2dec_hid = true ->
               dec_hidden_dim decoder = enc_hidden_dim encoder).
  { intros ->. simpl in E1. apply negb_false_iff in E1.
    now apply Nat.eqb_eq. }
  assert (H2 : use_attention decoder = true ->
               enc_outstate_dim decoder
               = (enc_directions encoder * enc_hidden_dim encoder)%nat).
  { intros Ha. rewrite Ha in E2. simpl in E2. apply negb_false_iff in E2.
    now apply Nat.eqb_eq. }
  split.
  { apply negb_false_iff, orb_true_iff in E3. exact E3. }
  split; [exact H1|]. split; [exact H2|]. split.
  { intros ->. simpl in E4. now apply negb_false_iff in E4. }
  intros Hp Ha Hdef Hpos.
  specialize (H1 Hp). specialize (H2 Ha).
  unfold init_enc_outstate_dim in Hdef. unfold enc_directions in H2.
  destruct (bidirectional encoder); [|reflexivity].
  lia.
Qed.

Variable LmState : Type.
Variable encoder : list Token -> list Vector * Hidden.

(** X19.  The assertion of the constructor makes the refusal of
    [Decoder.forward] ("No use of a decoder with No attention and No
    Hidden") unreachable in decoding: [basenet_inference] of a constructed
    model never raises that exception. *)
Theorem constructed_model_never_hits_forward_guard
    (enc_dims : EncoderDims) (decoder : Decoder)
    (pass_enc2dec_hid has_lm_decoder for_deep_fusion : bool) (self : Seq2Seq)
    (src : list Token) (beam_width max_tgt_sz : Z) (heuristics : bool) :
  seq2seq_init enc_dims decoder pass_enc2dec_hid has_lm_decoder
    for_deep_fusion = Ok self ->
  fst (model_basenet_inference self LmState encoder src beam_width
         max_tgt_sz heuristics) <> Raise Exception_.
Proof.
  intros Hinit.
  assert (Hok : s_pass_enc2dec_hid self = true
                \/ use_attention (s_decoder self) = true).
  { unfold seq2seq_init in Hinit.
    destruct (_ && _); [discriminate|].
    destruct (_ && _); [discriminate|].
    destruct (negb (pass_enc2dec_hid || use_attention decoder)) eqn:E3;
      [discriminate|].
    destruct (_ && _); [discriminate|].
    inversion Hinit; subst; simpl.
    apply negb_false_iff, orb_true_iff in E3. exact E3. }
  clear Hinit.
  unfold model_basenet_inference, basenet_inference.
  destruct src as [|t rest]; [discriminate|].
  rewrite (bind_eq _ _ _ (lift (first_tok (t :: rest))) _ t eq_refl).
  rewrite (bind_eq _ _ _ (lift (last_tok (t :: rest))) _ (last rest t)
             eq_refl).
  rewrite (bind_eq _ _ _ (tell (EncoderCall (t :: rest))
                            (Ok (encoder (t :: rest)))) _
             (encoder (t :: rest)) eq_refl).
  simpl fst. unfold bind.
  match goal with
  | |- context [search ?l ?bw ?e ?f ?n ?top] =>
      pose proof (search_never_raises _ _ _ _ l bw e f
                    (fun p => state p <> None
                              \/ use_attention (s_decoder self) = true)
                    Exception_) as Hs;
      destruct (fst (search l bw e f n top)) as [r|e'] eqn:Er
  end.
  - simpl. destruct heuristics; discriminate.
  - simpl. intros H. inversion H; subst e'. revert Er. apply Hs.
    + intros p new _ Hnew. unfold basenet_expand in Hnew.
      bind_inv Hnew out Hout. bind_inv Hnew pred_topk Htopk.
      inversion Hnew; subst. unfold extend.
      apply Forall_map, Forall_forall. intros vi _. simpl.
      left. discriminate.
    + intros p Hp. unfold basenet_expand, call_decoder, tell, lift, bind.
      simpl. unfold decoder_of.
      destruct (forward (s_decoder self) (x_of p) (state p)
                  (fst (encoder (t :: rest)))) as [[[o h] aw]|e] eqn:Ef;
        simpl.
      * destruct (topk Rleb (log_softmax o) beam_width) eqn:Et; simpl;
          [discriminate|].
        unfold topk in Et. destruct (_ || _)%bool; [|discriminate].
        inversion Et. discriminate.
      * intros H'. inversion H'; subst e.
        apply forward_raises_exception in Ef. destruct Ef as [Hn Ha].
        destruct Hp as [Hp|Hp]; congruence.
    + constructor; [|constructor]. simpl.
      unfold init_hidden.
      destruct Hok as [Hpass|Hatt]; [rewrite Hpass; left; discriminate|].
      now right.
Qed.
End ConstructionFacts.

Section ScriptFacts.
Local Open Scope R_scope.

Lemma masked_sum (ce : R) (truth : list Z) :
  rsum (map (fun m => ce * m) (pad_mask truth))
  = ce * INR (length (filter (fun t => (1 <=? t)%Z) truth)).
Proof.
  unfold pad_mask. induction truth as [|t truth IH]; simpl.
  - ring.
  - rewrite IH. destruct (1 <=? t)%Z.
    + change (length (t :: filter (fun t0 => (1 <=? t0)%Z) truth))
        with (S (length (filter (fun t0 => (1 <=? t0)%Z) truth))).
      rewrite S_INR. ring.
    + ring.
Qed.

(** X20.  [loss_estimator] does not remove the padded positions from the
    loss: it returns the mean cross-entropy over all positions, multiplied
    by the fraction of targets that are not padding (id at least 1).  It is
    the cross-entropy itself when nothing is padded and 0 when everything
    is. *)
Theorem loss_estimator_scales_by_unpadded_fraction (ce : R) (truth : list Z) :
  truth <> [] ->
  loss_estimator ce truth
  = ce * (INR (length (filter (fun t => (1 <=? t)%Z) truth))
          / INR (length truth))
  /\ (Forall (fun t => (1 <= t)%Z) truth -> loss_estimator ce truth = ce)
  /\ (Forall (fun t => (t < 1)%Z) truth -> loss_estimator ce truth = 0).
Proof.
  intros Hne.
  assert (Hn : INR (length truth) <> 0).
  { apply not_0_INR. intros E. apply length_zero_iff_nil in E.
    contradiction. }
  assert (Heq : loss_estimator ce truth
                = ce * (INR (length (filter (fun t => (1 <=? t)%Z) truth))
                        / INR (length truth))).
  { unfold loss_estimator. rewrite masked_sum. field. exact Hn. }
  split; [exact Heq|]. split.
  - intros Hall. rewrite Heq.
    replace (filter (fun t => (1 <=? t)%Z) truth) with truth.
    + field. exact Hn.
    + symmetry. clear - Hall. induction Hall as [|t l Ht _ IH];
        [reflexivity|].
      simpl. apply Z.leb_le in Ht. rewrite Ht. now f_equal.
  - intros Hall. rewrite Heq.
    replace (filter (fun t => (1 <=? t)%Z) truth) with (@nil Z).
    + simpl. field. exact Hn.
    + symmetry. clear - Hall. induction Hall as [|t l Ht _ IH];
        [reflexivity|].
      simpl. apply Z.leb_gt in Ht. now rewrite Ht.
Qed.
End ScriptFacts.

Section ScheduleFacts.
Variable teach_force_till teach_decay_pereph : Z.

Local Abbreviation step_ := (teacher_forcing_step teach_force_till
                               teach_decay_pereph).
Local Abbreviation after_ := (teacher_forcing_after teach_force_till
                                teach_decay_pereph).

Lemma teacher_forcing_after_last (n : nat) (first tf : Z) :
  after_ (S n) first tf
  = step_ (first + Z.of_nat n) (after_ n first tf).
Proof.
  revert first tf. induction n as [|n IH]; intros first tf.
  - simpl. now rewrite Z.add_0_r.
  - change (after_ (S (S n)) first tf)
      with (after_ (S n) (first + 1) (step_ first tf)).
    rewrite IH. simpl teacher_forcing_after.
    f_equal. lia.
Qed.

Lemma teacher_forcing_after_nonneg (n : nat) (first tf : Z) :
  (0 <= tf)%Z -> (0 <= after_ n first tf)%Z.
Proof.
  revert first tf. induction n as [|n IH]; intros first tf Htf; simpl;
    [exact Htf|].
  apply IH. unfold teacher_forcing_step.
  destruct (teach_force_till <=? first)%Z; lia.
Qed.

(** X21.  The teacher-forcing ratio of the epoch loop, started
    non-negative with a non-negative decay: it never becomes negative, it
    never grows from one epoch to the next, and it is 0 in every epoch from
    [teach_force_till] on. *)
Theorem teacher_forcing_schedule (n : nat) (teacher_forcing : Z) :
  (0 <= teacher_forcing)%Z -> (0 <= teach_decay_pereph)%Z ->
  (0 <= teacher_forcing_after teach_force_till teach_decay_pereph
          (S n) 0 teacher_forcing)%Z
  /\ (teacher_forcing_after teach_force_till teach_decay_pereph
        (S n) 0 teacher_forcing
      <= teacher_forcing_after teach_force_till teach_decay_pereph
           n 0 teacher_forcing)%Z
  /\ ((teach_force_till <= Z.of_nat n)%Z ->
      teacher_forcing_after teach_force_till teach_decay_pereph
        (S n) 0 teacher_forcing = 0%Z).
Proof.
  intros Htf Hdecay.
  pose proof (teacher_forcing_after_nonneg n 0 teacher_forcing Htf) as Hn.
  rewrite teacher_forcing_after_last. simpl Z.add.
  unfold teacher_forcing_step.
  destruct (teach_force_till <=? Z.of_nat n)%Z eqn:E.
  - split; [lia|]. split; [lia|reflexivity].
  - apply Z.leb_gt in E. split; [lia|]. split; [lia|lia].
Qed.
End ScheduleFacts.

(** * Empty inputs *)

Section EmptyInput.
Variable Score : Type.
Variable s_zero s_one : Score.
Variable s_add : Score -> Score -> Score.
Variable s_leb : Score -> Score -> bool.
Variables DecState LmState EncOut Vec : Type.
Variable encoder : list Token -> EncOut * DecState.
Variable pass_enc2dec_hid : bool.
Variable decoder :
  Token -> option DecState -> EncOut -> Res (list Score * DecState).
Variable decoder_get_hidden : Token -> option DecState -> EncOut -> DecState.
Variable lm_decoder : option (LMDecoder Score LmState).
Variable deep_fusion : option (DeepFusion Score Vec).
Variable dec_last_hidden : DecState -> Vec.
Variable lm_last_hidden : LmState -> Vec.
Variable vec_mul : Vec -> Vec -> Vec.
Variable vec_cat : Vec -> Vec -> Vec.
Variable log_softmax : list Score -> list Score.
Variable output_dim : nat.
Variable draw : nat -> Score.
Variable lm_decoding : Token -> option LmState -> list R * LmState.

(** X22.  An empty input tensor makes every decoder and [lm_heuristics]
    fail before any network is called: with [IndexError] on [src[0]],
    except that [shallow_fuse_inference] without a language model fails
    earlier, at its assertion.  The training pass [basenet_forward] fails
    with [IndexError] on an empty target, but only after it has run the
    encoder. *)
Theorem empty_input_raises_index_error
    (beam_width max_tgt_sz : Z) (heuristics : bool) (src : list Token)
    (ratio : Score) :
  basenet_inference s_zero s_add s_leb LmState encoder pass_enc2dec_hid
    decoder log_softmax [] beam_width max_tgt_sz heuristics
  = (Raise IndexError, [])
  /\ shallow_fuse_inference s_zero s_add s_leb encoder pass_enc2dec_hid
       decoder lm_decoder log_softmax [] beam_width max_tgt_sz
     = (Raise match lm_decoder with
              | Some _ => IndexError
              | None => AssertionError
              end, [])
  /\ deep_fuse_inference s_zero s_add s_leb encoder pass_enc2dec_hid
       decoder_get_hidden lm_decoder deep_fusion dec_last_hidden
       lm_last_hidden vec_mul vec_cat log_softmax [] beam_width max_tgt_sz
     = (Raise IndexError, [])
  /\ lm_heuristics lm_decoding [] max_tgt_sz = (Raise IndexError, [])
  /\ basenet_forward s_zero s_one s_leb LmState encoder pass_enc2dec_hid
       decoder output_dim draw src [] ratio
     = (Raise IndexError, [EncoderCall src]).
Proof.
  split; [reflexivity|].
  split; [unfold shallow_fuse_inference; destruct lm_decoder; reflexivity|].
  repeat split.
Qed.
End EmptyInput.

(** * Runs for the further properties *)

Lemma decoded_end_token_witness :
  first_tok [0; 1; 2; 3]%Z = Ok 0%Z /\ last_tok [0; 1; 2; 3]%Z = Ok 3%Z
  /\ fst (Toy.basenet [0; 1; 2; 3]%Z 2 5 false)
     = Ok (Sequences [[0; 1; 3]; [0; 1; 2; 1; 3]]%Z)
  /\ Forall (fun s => Forall (fun t => t <> 3%Z) (removelast s))
       [[0; 1; 3]; [0; 1; 2; 1; 3]]%Z.
Proof.
  split; [reflexivity|]. split; [reflexivity|]. split; [reflexivity|].
  exact (proj1
           (decoded_end_token_only_last
              Z 0%Z Z.add Z.leb nat nat (list Token) Z Toy.encoder true
              Toy.decoder Toy.decoder_get_hidden (Some Toy.lm)
              (Some Toy.deep) Z.of_nat Z.of_nat Z.mul Z.add Toy.log_softmax
              [0; 1; 2; 3]%Z 0%Z 3%Z 2%Z 5%Z eq_refl eq_refl)
           false (Sequences [[0; 1; 3]; [0; 1; 2; 1; 3]]%Z) eq_refl).
Defined.

Lemma decoded_length_witness :
  fst (Toy.basenet [0; 1; 2; 3]%Z 2 5 false)
  = Ok (Sequences [[0; 1; 3]; [0; 1; 2; 1; 3]]%Z)
  /\ Forall (fun s => (1 <= Z.of_nat (length s) <= Z.max 0 5 + 1)%Z)
       [[0; 1; 3]; [0; 1; 2; 1; 3]]%Z.
Proof.
  split; [reflexivity|].
  exact (proj1
           (decoded_length_bound
              Z 0%Z Z.add Z.leb nat nat (list Token) Z Toy.encoder true
              Toy.decoder Toy.decoder_get_hidden (Some Toy.lm)
              (Some Toy.deep) Z.of_nat Z.of_nat Z.mul Z.add Toy.log_softmax
              [0; 1; 2; 3]%Z 2%Z 5%Z)
           false (Sequences [[0; 1; 3]; [0; 1; 2; 1; 3]]%Z) eq_refl).
Defined.

Lemma toy_finished_beam_ends :
  Forall (fun p : PTup Z (option nat) => ends_with (sequence p) 3%Z = true)
    ToyMore.finished_beam.
Proof. repeat constructor. Qed.

Lemma terminated_beam_witness :
  Forall (fun p : PTup Z (option nat) => ends_with (sequence p) 3%Z = true)
    ToyMore.finished_beam
  /\ exists r,
       search Z.leb 2%Z 3%Z
         (basenet_expand Z.add Z.leb nat Toy.decoder Toy.log_softmax 2%Z
            Toy.enc_output) 4 ToyMore.finished_beam = (Ok r, [])
       /\ incl r ToyMore.finished_beam.
Proof.
  split; [exact toy_finished_beam_ends|].
  exact (terminated_beam_makes_no_calls Z Z.leb nat nat (option nat) 2%Z 3%Z
           (basenet_expand Z.add Z.leb nat Toy.decoder Toy.log_softmax 2%Z
              Toy.enc_output) 4 ToyMore.finished_beam
           toy_finished_beam_ends).
Defined.

Lemma basenet_tuples_replay_witness :
  first_tok [0; 1; 2; 3]%Z = Ok 0%Z
  /\ fst (Toy.basenet [0; 1; 2; 3]%Z 2 5 true)
     = Ok (Tuples
             [ {| score := (-2)%Z; sequence := [0; 1; 3]%Z;
                  state := Some 2%nat |};
               {| score := (-5)%Z; sequence := [0; 1; 2; 1; 3]%Z;
                  state := Some 4%nat |} ])
  /\ Forall (fun p : PTup Z (option nat) =>
               exists rest,
                 sequence p = 0%Z :: rest
                 /\ replay_path Z.add Toy.decoder Toy.log_softmax
                      [0; 1; 2; 3]%Z 0%Z (Some 0%nat) 0%Z rest
                    = Some (score p, state p))
       [ {| score := (-2)%Z; sequence := [0; 1; 3]%Z;
            state := Some 2%nat |};
         {| score := (-5)%Z; sequence := [0; 1; 2; 1; 3]%Z;
            state := Some 4%nat |} ].
Proof.
  split; [reflexivity|]. split; [reflexivity|].
  exact (basenet_tuples_replay_their_sequence
           Z 0%Z Z.add Z.leb nat nat (list Token) Toy.encoder true
           Toy.decoder Toy.log_softmax [0; 1; 2; 3]%Z 0%Z 2%Z 5%Z _
           eq_refl eq_refl).
Defined.

Lemma decode_calls_witness :
  (0 <= 2)%Z
  /\ (count_calls is_encoder_call
        (snd (Toy.basenet [0; 1; 2; 3]%Z 2 5 false)) <= 1)%nat
  /\ (Z.of_nat (count_calls is_decoder_call
                  (snd (Toy.basenet [0; 1; 2; 3]%Z 2 5 false)))
      <= 1 + Z.max 0 (5 - 1) * 2)%Z
  /\ count_calls is_lm_call
       (snd (Toy.basenet [0; 1; 2; 3]%Z 2 5 false)) = 0%nat.
Proof.
  split; [lia|].
  exact (proj1
           (decode_calls_bounded
              Z 0%Z Z.add Z.leb nat nat (list Token) Z Toy.encoder true
              Toy.decoder Toy.decoder_get_hidden (Some Toy.lm)
              (Some Toy.deep) Z.of_nat Z.of_nat Z.mul Z.add Toy.log_softmax
              [0; 1; 2; 3]%Z 2%Z 5%Z false ltac:(lia))).
Defined.

Lemma missing_lm_witness :
  (None : option (LMDecoder Z nat)) = None
  /\ ToyMore.shallow_no_lm [0; 3]%Z 2 5 = (Raise AssertionError, [])
  /\ first_tok [0; 3]%Z = Ok 0%Z /\ last_tok [0; 3]%Z = Ok 3%Z
  /\ 0%Z <> 3%Z /\ (1 <= 5)%Z
  /\ ToyMore.deep_no_lm [0; 3]%Z 2 5
     = (Raise AttributeError,
        [EncoderCall [0; 3]%Z; DecoderHiddenCall 0%Z (Some 0%nat)]).
Proof.
  pose proof (missing_lm_assertion_only_in_shallow
                Z 0%Z Z.add Z.leb nat nat (list Token) Z Toy.encoder true
                Toy.decoder Toy.decoder_get_hidden None
                (Some Toy.deep) Z.of_nat Z.of_nat Z.mul Z.add Toy.log_softmax
                [0; 3]%Z 0%Z 3%Z 2%Z 5%Z eq_refl) as [Hs Hd].
  split; [reflexivity|]. split; [exact Hs|].
  split; [reflexivity|]. split; [reflexivity|].
  split; [discriminate|]. split; [lia|].
  exact (Hd eq_refl eq_refl ltac:(discriminate) ltac:(lia)).
Defined.

Lemma beam_width_out_of_range_witness :
  first_tok [0; 3]%Z = Ok 0%Z /\ last_tok [0; 3]%Z = Ok 3%Z
  /\ 0%Z <> 3%Z /\ (1 <= 5)%Z
  /\ Toy.decoder 0%Z (Some 0%nat) [0; 3]%Z
     = Ok ([-3; -1; -2; -3]%Z, 1%nat)
  /\ (5 < 0 \/ Z.of_nat (length (Toy.log_softmax [-3; -1; -2; -3]%Z)) < 5)%Z
  /\ Toy.basenet [0; 3]%Z 5 5 false
     = (Raise RuntimeError,
        [EncoderCall [0; 3]%Z; DecoderCall 0%Z (Some 0%nat)]).
Proof.
  assert (Hbw : (5 < 0
                 \/ Z.of_nat (length (Toy.log_softmax [-3; -1; -2; -3]%Z))
                    < 5)%Z) by (right; simpl; lia).
  split; [reflexivity|]. split; [reflexivity|].
  split; [discriminate|]. split; [lia|]. split; [reflexivity|].
  split; [exact Hbw|].
  exact (beam_width_out_of_range_raises
           Z 0%Z Z.add Z.leb nat nat (list Token) Toy.encoder true
           Toy.decoder Toy.log_softmax [0; 3]%Z 0%Z 3%Z 5%Z 5%Z false
           ([-3; -1; -2; -3]%Z, 1%nat) eq_refl eq_refl
           ltac:(discriminate) ltac:(lia) eq_refl Hbw).
Defined.

Lemma forward_guard_witness :
  use_attention ToyMore.gru_decoder = false
  /\ forward ToyMore.gru_decoder 1%Z None [] = Raise Exception_
  /\ decoder_get_hidden ToyMore.gru_decoder 1%Z None []
     = Ok (Single [[IZR 1]]).
Proof.
  pose proof (forward_guard_no_state_no_attention ToyMore.gru_decoder 1%Z
                None []) as [Hiff Hget].
  split; [reflexivity|]. split.
  - apply Hiff. split; reflexivity.
  - exact (Hget eq_refl).
Defined.

Lemma get_hidden_agrees_witness :
  (dec_rnn_type ToyMore.gru_decoder = GRU
   \/ use_attention ToyMore.gru_decoder = false
   \/ Some (Single [[1%R]]) = None)
  /\ forward ToyMore.gru_decoder 1%Z (Some (Single [[1%R]])) []
     = Ok ([IZR 1], Single [[IZR 1]], None)
  /\ decoder_get_hidden ToyMore.gru_decoder 1%Z (Some (Single [[1%R]])) []
     = Ok (Single [[IZR 1]]).
Proof.
  split; [left; reflexivity|]. split; [reflexivity|].
  exact (get_hidden_agrees_with_forward ToyMore.gru_decoder 1%Z
           (Some (Single [[1%R]])) [] [IZR 1] (Single [[IZR 1]]) None
           (or_introl eq_refl) eq_refl).
Defined.

Lemma attention_equal_positions_witness :
  ([[2]; [2]]%R <> [] :> list Vector)
  /\ length [2%R] = enc_outstate_dim ToyR.decoder
  /\ Forall (fun e' : Vector => e' = [2%R]) [[2]; [2]]%R
  /\ fst (attention ToyR.decoder [1%R] [[1%R]] [[2]; [2]]%R)
     = [2%R] ++ [1%R].
Proof.
  assert (H1 : ([[2]; [2]]%R <> [] :> list Vector)) by discriminate.
  assert (H3 : Forall (fun e' : Vector => e' = [2%R]) [[2]; [2]]%R)
    by (repeat constructor).
  split; [exact H1|]. split; [reflexivity|]. split; [exact H3|].
  exact (attention_on_equal_positions ToyR.decoder [1%R] [2%R] [[1%R]]
           [[2]; [2]]%R H1 eq_refl H3).
Defined.

Lemma lm_ignores_after_end_witness :
  Forall (fun t => t <> 2%Z) [1%Z]
  /\ lm_heuristics ToyR.lm_decoding [0; 1; 2; 1; 2]%Z 50
     = lm_heuristics ToyR.lm_decoding [0; 1; 2]%Z 50.
Proof.
  assert (Hpre : Forall (fun t => t <> 2%Z) [1%Z])
    by (constructor; [discriminate|constructor]).
  split; [exact Hpre|].
  exact (lm_heuristics_ignores_tokens_after_end nat ToyR.lm_decoding
           0%Z 2%Z [1%Z] [1%Z] 50%Z Hpre).
Defined.

Lemma toy_lm_vocabulary_one (y : Token) (h : option nat) (t : Token) :
  In t [1%Z] ->
  (0 <= t < Z.of_nat (length (fst (ToyR.lm_decoding y h))))%Z.
Proof. simpl. intros [<-|[]]. lia. Qed.

Lemma toy_lm_vocabulary_size (y : Token) (h : option nat) :
  (Z.of_nat (length (fst (ToyR.lm_decoding y h))) <= 5)%Z.
Proof. simpl. lia. Qed.

Lemma lm_out_of_vocabulary_witness :
  (forall y h t, In t [1%Z] ->
     (0 <= t < Z.of_nat (length (fst (ToyR.lm_decoding y h))))%Z)
  /\ Forall (fun t => t <> last ([1%Z] ++ 5%Z :: [2%Z]) 0%Z) [1%Z]
  /\ (forall y h,
        (Z.of_nat (length (fst (ToyR.lm_decoding y h))) <= 5)%Z)
  /\ lm_heuristics ToyR.lm_decoding [0; 1; 5; 2]%Z 50
     = (Raise IndexError, [(0%Z, None); (1%Z, Some 1%nat)]).
Proof.
  assert (Hpre : Forall (fun t => t <> last ([1%Z] ++ 5%Z :: [2%Z]) 0%Z)
                   [1%Z])
    by (constructor; [discriminate|constructor]).
  split; [exact toy_lm_vocabulary_one|]. split; [exact Hpre|].
  split; [exact toy_lm_vocabulary_size|].
  exact (lm_heuristics_out_of_vocabulary nat ToyR.lm_decoding 0%Z 5%Z
           [1%Z] [2%Z] 50%Z toy_lm_vocabulary_one Hpre
           toy_lm_vocabulary_size).
Defined.

Lemma lm_value_nonpositive_witness :
  fst (lm_heuristics ToyR.lm_decoding [0; 1; 2]%Z 50)
  = Ok (spec_mean_log_prob ToyR.lm_decoding [0; 1; 2]%Z)
  /\ (spec_mean_log_prob ToyR.lm_decoding [0; 1; 2]%Z <= 0)%R.
Proof.
  assert (H : fst (lm_heuristics ToyR.lm_decoding [0; 1; 2]%Z 50)
              = Ok (spec_mean_log_prob ToyR.lm_decoding [0; 1; 2]%Z)).
  { destruct (lm_heuristics_spec nat ToyR.lm_decoding [0; 1; 2]%Z 50%Z)
      as [_ Heq].
    - simpl. lia.
    - exact toy_lm_in_vocabulary.
    - now rewrite Heq. }
  split; [exact H|].
  exact (lm_heuristics_value_nonpositive nat ToyR.lm_decoding [0; 1; 2]%Z
           50%Z _ H).
Defined.

Lemma toy_draw_not_below_zero (k : nat) : Z.leb 0 (ToyTrain.draw k) = true.
Proof. unfold ToyTrain.draw. destruct (Nat.even k); reflexivity. Qed.

Lemma toy_draw_below_two (k : nat) : Z.leb 2 (ToyTrain.draw k) = false.
Proof. unfold ToyTrain.draw. destruct (Nat.even k); reflexivity. Qed.

Lemma forward_without_teacher_forcing_witness :
  (forall k, Z.leb 0 (ToyTrain.draw k) = true)
  /\ first_tok [0; 2; 2; 3]%Z = first_tok [0; 1; 1; 1]%Z
  /\ length [0; 2; 2; 3]%Z = length [0; 1; 1; 1]%Z
  /\ ToyTrain.basenet [0; 1; 2; 3]%Z [0; 2; 2; 3]%Z 0
     = ToyTrain.basenet [0; 1; 2; 3]%Z [0; 1; 1; 1]%Z 0.
Proof.
  split; [exact toy_draw_not_below_zero|].
  split; [reflexivity|]. split; [reflexivity|].
  exact (proj1
           (forward_without_teacher_forcing_ignores_targets
              Z 0%Z 1%Z Z.leb nat nat (list Token) Z Toy.encoder true
              Toy.decoder Toy.decoder_get_hidden (Some Toy.lm)
              (Some Toy.deep) Z.of_nat Z.of_nat Z.mul Z.add 4%nat
              ToyTrain.draw 0%Z toy_draw_not_below_zero)
           [0; 1; 2; 3]%Z [0; 2; 2; 3]%Z [0; 1; 1; 1]%Z eq_refl eq_refl).
Defined.

Lemma forward_output_shape_witness :
  fst (ToyTrain.basenet [0; 1; 2; 3]%Z [0; 2; 2; 3]%Z 0)
  = Ok [[0; 1; 0; 0]; [-3; -1; -2; -3]; [-3; -3; -2; -1];
        [-3; -1; -2; -3]]%Z
  /\ length [[0; 1; 0; 0]; [-3; -1; -2; -3]; [-3; -3; -2; -1];
             [-3; -1; -2; -3]]%Z = length [0; 2; 2; 3]%Z
  /\ Forall (fun col : list Z => length col = 4%nat)
       [[0; 1; 0; 0]; [-3; -1; -2; -3]; [-3; -3; -2; -1];
        [-3; -1; -2; -3]]%Z.
Proof.
  split; [reflexivity|].
  pose proof (proj1
                (forward_output_shape
                   Z 0%Z 1%Z Z.leb nat nat (list Token) Z Toy.encoder true
                   Toy.decoder Toy.decoder_get_hidden (Some Toy.lm)
                   (Some Toy.deep) Z.of_nat Z.of_nat Z.mul Z.add 4%nat
                   ToyTrain.draw 0%Z)
                [0; 1; 2; 3]%Z [0; 2; 2; 3]%Z _ eq_refl)
    as (Hlen & Hall & _).
  split; [exact Hlen|exact Hall].
Defined.

Lemma basenet_forward_forced_witness :
  (forall k, Z.leb 2 (ToyTrain.draw k) = false)
  /\ fst (ToyTrain.basenet [0; 1; 2; 3]%Z [0; 2; 2; 3]%Z 2)
     = Ok [[0; 1; 0; 0]; [-3; -1; -2; -3]; [-3; -1; -2; -3];
           [-3; -1; -2; -3]]%Z
  /\ exists hiddens,
       length hiddens = (length [0; 2; 2; 3]%Z - 1)%nat
       /\ snd (ToyTrain.basenet [0; 1; 2; 3]%Z [0; 2; 2; 3]%Z 2)
          = EncoderCall [0; 1; 2; 3]%Z
            :: map (fun xh => DecoderCall (fst xh) (snd xh))
                 (combine (removelast [0; 2; 2; 3]%Z) hiddens).
Proof.
  split; [exact toy_draw_below_two|]. split; [reflexivity|].
  exact (basenet_forward_teacher_forced_feeds_targets
           Z 0%Z 1%Z Z.leb nat nat (list Token) Toy.encoder true
           Toy.decoder 4%nat ToyTrain.draw 2%Z [0; 1; 2; 3]%Z
           [0; 2; 2; 3]%Z _ toy_draw_below_two eq_refl).
Defined.

Lemma seq2seq_init_witness :
  seq2seq_init ToyMore.enc_dims ToyR.decoder true false false
  = Ok {| s_encoder := ToyMore.enc_dims;
          s_decoder := ToyR.decoder;
          s_pass_enc2dec_hid := true;
          s_has_lm_decoder := false;
          s_for_deep_fusion := false |}
  /\ dec_hidden_dim ToyR.decoder = enc_hidden_dim ToyMore.enc_dims
  /\ bidirectional ToyMore.enc_dims = false.
Proof.
  split; [reflexivity|].
  pose proof (seq2seq_init_accepts ToyMore.enc_dims ToyR.decoder true false
                false _ eq_refl) as (_ & Hdim & _ & _ & Hbi).
  split; [exact (Hdim eq_refl)|].
  exact (Hbi eq_refl eq_refl eq_refl ltac:(simpl; lia)).
Defined.

Lemma constructed_model_witness :
  seq2seq_init ToyMore.enc_dims ToyR.decoder true false false
  = Ok {| s_encoder := ToyMore.enc_dims;
          s_decoder := ToyR.decoder;
          s_pass_enc2dec_hid := true;
          s_has_lm_decoder := false;
          s_for_deep_fusion := false |}
  /\ fst (model_basenet_inference
            {| s_encoder := ToyMore.enc_dims;
               s_decoder := ToyR.decoder;
               s_pass_enc2dec_hid := true;
               s_has_lm_decoder := false;
               s_for_deep_fusion := false |}
            nat ToyMore.encoder [0; 3]%Z 1 5 false)
     <> Raise Exception_.
Proof.
  split; [reflexivity|].
  exact (constructed_model_never_hits_forward_guard nat ToyMore.encoder
           ToyMore.enc_dims ToyR.decoder true false false _
           [0; 3]%Z 1%Z 5%Z false eq_refl).
Defined.

Lemma loss_estimator_witness :
  ([1; 0; 2]%Z <> [])
  /\ loss_estimator 3 [1; 0; 2]%Z
     = (3 * (INR (length (filter (fun t => (1 <=? t)%Z) [1; 0; 2]%Z))
             / INR (length [1; 0; 2]%Z)))%R.
Proof.
  assert (Hne : [1; 0; 2]%Z <> []) by discriminate.
  split; [exact Hne|].
  exact (proj1 (loss_estimator_scales_by_unpadded_fraction 3%R [1; 0; 2]%Z
                  Hne)).
Defined.

Lemma teacher_forcing_schedule_witness :
  (0 <= 1)%Z /\ (0 <= 0)%Z
  /\ (0 <= teacher_forcing_after 10 0 11 0 1)%Z
  /\ (teacher_forcing_after 10 0 11 0 1
      <= teacher_forcing_after 10 0 10 0 1)%Z
  /\ ((10 <= Z.of_nat 10)%Z -> teacher_forcing_after 10 0 11 0 1 = 0%Z).
Proof.
  split; [lia|]. split; [lia|].
  exact (teacher_forcing_schedule 10%Z 0%Z 10%nat 1%Z ltac:(lia) ltac:(lia)).
Defined.
